(** * Verification of the streaming core of the Solana Tracker data-api SDK

    A shallow embedding of [src/event-processor.ts] (binary event decoder and
    windowed aggregator) and of the in-process transport of
    [src/datastream.ts] (sockets, reconnection, subscriptions, dedup,
    derived routing), followed by the properties proved about them.

    Conventions of the embedding:
    - a JavaScript exception is the [Throw] completion of a small error monad;
    - a byte buffer is a [list byte]; unsigned integers read from it are [Z];
    - an IEEE-754 binary32 value read by [getFloat32] is kept as its 32-bit
      pattern (type [f32]); no claim needs its numeric value;
    - the delays of the transport are rationals, and the arithmetic of the
      jitter of a reconnection is rounded to IEEE-754 binary64
      ([Double.round]);
    - a JavaScript string is a Rocq [string] holding its UTF-8 bytes;
    - [undefined] is [None] of an [option];
    - an insertion-ordered [Set] or [Map] is its list of keys in insertion
      order. *)

From Stdlib Require Import ZArith QArith Qminmax Qpower Qround Qabs Lia Lqa Strings.Byte Ascii String DecimalString.
From stdpp Require Import base list strings gmap.

Local Open Scope Z_scope.
Set Warnings "-register-all".

(** ** Completions: a value or a thrown exception *)

Inductive JsError := RangeError | TypeError.

Inductive completion (A : Type) : Type :=
| Normal (a : A)
| Throw (e : JsError).
Arguments Normal {A} a.
Arguments Throw {A} e.

#[global] Instance completion_ret : MRet completion := fun A a => Normal a.
#[global] Instance completion_bind : MBind completion := fun A B f m =>
  match m with
  | Normal a => f a
  | Throw e => Throw e
  end.

(** ** Insertion-ordered sets (the semantics of [Set] and of the keys of [Map]) *)

Module JsSet.
Section JsSet.
Context {A : Type} (same : A -> A -> bool).

(** [s.has(x)], for the comparison [same] of the keys. *)
Definition has (s : list A) (x : A) : bool := existsb (same x) s.

(** [s.add(x)] *)
Definition add (s : list A) (x : A) : list A :=
  if has s x then s else s ++ [x].

(** [s.delete(x)] *)
Definition delete (s : list A) (x : A) : list A :=
  filter (fun y => same x y = false) s.

(** [s.clear()] *)
Definition clear (s : list A) : list A := [].

End JsSet.
End JsSet.

(** ** Bytes and [DataView] reads *)

Definition byte_val (b : byte) : Z := Z.of_N (Byte.to_N b).

Definition byte_of_Z (z : Z) : byte :=
  match Byte.of_N (Z.to_N (z mod 256)) with
  | Some b => b
  | None => x00
  end.

(** [view.getUint8(offset)]: out of bounds is a RangeError. *)
Definition getUint8 (view : list byte) (offset : nat) : completion Z :=
  match view !! offset with
  | Some b => Normal (byte_val b)
  | None => Throw RangeError
  end.

(** [view.getUint32(offset, true)]: little-endian; a RangeError unless all
    four bytes lie inside the view. *)
Definition getUint32 (view : list byte) (offset : nat) : completion Z :=
  match view !! offset, view !! (offset + 1)%nat,
        view !! (offset + 2)%nat, view !! (offset + 3)%nat with
  | Some b0, Some b1, Some b2, Some b3 =>
      Normal (byte_val b0 + 2 ^ 8 * byte_val b1
              + 2 ^ 16 * byte_val b2 + 2 ^ 24 * byte_val b3)
  | _, _, _, _ => Throw RangeError
  end.

(** The bit pattern of a binary32 number. *)
Definition f32 : Type := Z.

(** [view.getFloat32(offset, true)], as the pattern of the four bytes. *)
Definition getFloat32 (view : list byte) (offset : nat) : completion f32 :=
  getUint32 view offset.

(** [data.slice(start, end)] of a typed array, for [0 <= start <= end]:
    the bounds are clamped to the array, nothing is thrown. *)
Definition slice (data : list byte) (start stop : nat) : list byte :=
  take (stop - start) (drop start data).

(** ** [new TextDecoder().decode(bytes)]

    The UTF-8 decoder of the Encoding standard in replacement mode. A
    well-formed sequence decodes to the scalar value it encodes, whose UTF-8
    form is the sequence itself; each maximal ill-formed part decodes to
    U+FFFD; a leading byte order mark is dropped. *)

Module TextDecoder.

Definition REPLACEMENT : list byte := [xef; xbf; xbd].

(** Bytes needed after a lead byte, and the range allowed for the next. *)
Definition lead (b : Z) : option (nat * Z * Z) :=
  if (0xC2 <=? b) && (b <=? 0xDF) then Some (1%nat, 0x80, 0xBF)
  else if (0xE0 <=? b) && (b <=? 0xEF) then
    Some (2%nat, if b =? 0xE0 then 0xA0 else 0x80,
                 if b =? 0xED then 0x9F else 0xBF)
  else if (0xF0 <=? b) && (b <=? 0xF4) then
    Some (3%nat, if b =? 0xF0 then 0x90 else 0x80,
                 if b =? 0xF4 then 0x8F else 0xBF)
  else None.

(** [pend] holds the bytes of the sequence being read, [need] how many are
    still expected, [lo] and [hi] the boundaries for the next one. *)
Fixpoint run (bs : list byte) (pend : list byte) (need : nat) (lo hi : Z)
  : list byte :=
  match bs with
  | [] => match need with O => [] | S _ => REPLACEMENT end
  | b :: rest =>
      let fresh :=
        if byte_val b <=? 0x7F then b :: run rest [] 0%nat 0x80 0xBF
        else match lead (byte_val b) with
             | Some (n, lo', hi') => run rest [b] n lo' hi'
             | None => REPLACEMENT ++ run rest [] 0%nat 0x80 0xBF
             end in
      match need with
      | O => fresh
      | S n =>
          if (lo <=? byte_val b) && (byte_val b <=? hi) then
            match n with
            | O => pend ++ b :: run rest [] 0%nat 0x80 0xBF
            | S _ => run rest (pend ++ [b]) n 0x80 0xBF
            end
          else REPLACEMENT ++ fresh
      end
  end.

Definition strip_bom (out : list byte) : list byte :=
  match out with
  | xef :: xbb :: xbf :: rest => rest
  | _ => out
  end.

Definition decode (bytes : list byte) : string :=
  string_of_list_byte (strip_bom (run bytes [] 0%nat 0x80 0xBF)).

End TextDecoder.

(** ** event-processor.ts *)

Module EventProcessor.

(** [ProcessedEvent]; [F] is the type of the three float fields and [T] of
    the time stamp. [wallet] is [None] when the table has no such index. *)
Record ProcessedEvent (F T : Type) : Type := {
  wallet : option string;
  amount : F;
  priceUsd : F;
  volume : F;
  type : string;
  time : T
}.
Arguments wallet {F T} _.
Arguments amount {F T} _.
Arguments priceUsd {F T} _.
Arguments volume {F T} _.
Arguments type {F T} _.
Arguments time {F T} _.

(** The first loop of [decodeBinaryEvents]: [n] iterations remain, the
    result is the final [offset] and the wallet table. *)
Fixpoint read_wallets (data : list byte) (n : nat) (offset : nat)
    (wallets : list string) : completion (nat * list string) :=
  match n with
  | O => Normal (offset, wallets)
  | S n' =>
      length ← getUint8 data offset;
      let offset := (offset + 1)%nat in
      let walletBytes := slice data offset (offset + Z.to_nat length) in
      let wallet := TextDecoder.decode walletBytes in
      read_wallets data n' (offset + Z.to_nat length)%nat (wallets ++ [wallet])
  end.

(** The second loop: one 21-byte record per iteration. *)
Fixpoint read_trades (data : list byte) (wallets : list string) (n : nat)
    (offset : nat) (events : list (ProcessedEvent f32 Z))
  : completion (nat * list (ProcessedEvent f32 Z)) :=
  match n with
  | O => Normal (offset, events)
  | S n' =>
      walletIndex ← getUint32 data offset;
      amount ← getFloat32 data (offset + 4);
      priceUsd ← getFloat32 data (offset + 8);
      volume ← getFloat32 data (offset + 12);
      typeCode ← getUint8 data (offset + 16);
      timeInSeconds ← getUint32 data (offset + 17);
      let event := {|
        wallet := wallets !! Z.to_nat walletIndex;
        amount := amount;
        priceUsd := priceUsd;
        volume := volume;
        type := if typeCode =? 0 then "buy" else "sell";
        time := timeInSeconds * 1000
      |} in
      read_trades data wallets n' (offset + 21) (events ++ [event])
  end.

(** The body of [decodeBinaryEvents], keeping the final offset. *)
Definition decode_from (data : list byte)
  : completion (nat * list (ProcessedEvent f32 Z)) :=
  walletCount ← getUint32 data 0;
  '(offset, wallets) ← read_wallets data (Z.to_nat walletCount) 4 [];
  tradeCount ← getUint32 data offset;
  read_trades data wallets (Z.to_nat tradeCount) (offset + 4) [].

Definition decodeBinaryEvents (binaryData : list byte)
  : completion (list (ProcessedEvent f32 Z)) :=
  '(_, events) ← decode_from binaryData;
  mret events.

(** *** The timeframe table *)

(** [Object.entries(timeframes)], in the order the literal lists them. *)
Definition timeframes : list (string * Z) :=
  [("1m", 60); ("5m", 300); ("15m", 900); ("30m", 1800); ("1h", 3600);
   ("2h", 7200); ("3h", 10800); ("4h", 14400); ("5h", 18000);
   ("6h", 21600); ("12h", 43200); ("24h", 86400)].

(** [Array.prototype.sort] with the comparator [a.seconds - b.seconds]
    (a stable sort). *)
Fixpoint insert_by_seconds (x : string * Z) (l : list (string * Z))
  : list (string * Z) :=
  match l with
  | [] => [x]
  | y :: l' => if x.2 <=? y.2 then x :: l else y :: insert_by_seconds x l'
  end.

Definition sort_by_seconds (l : list (string * Z)) : list (string * Z) :=
  foldr insert_by_seconds [] l.

(** The pairs are the records [{ key, seconds }]. *)
Definition timeframeBoundaries : list (string * Z) :=
  sort_by_seconds timeframes.

Definition CHUNK_SIZE : nat := Z.to_nat 100000.

(** The argument of [processEvents]: binary data or an events array (any
    other argument is refused with an error before anything is computed). *)
Inductive Input (number : Type) : Type :=
| Binary (binaryData : list byte)
| Events (events : list (ProcessedEvent number number)).
Arguments Binary {number} binaryData.
Arguments Events {number} events.

(** How a promise ends: fulfilled, rejected, or never settled. *)
Inductive promise (A : Type) : Type :=
| Fulfilled (a : A)
| Rejected (e : JsError)
| NeverSettles.
Arguments Fulfilled {A} a.
Arguments Rejected {A} e.
Arguments NeverSettles {A}.

(** *** The aggregator

    It is written once for any type [number] and any interpretation of the
    arithmetic of JavaScript numbers, so that what is proved holds for
    IEEE-754 doubles in particular. Counters and sizes are natural
    numbers (they stay far below 2^53). *)

Section Aggregator.
Context {number : Type}.
Variables (num_add num_sub num_mul num_div : number -> number -> number).
Variable num_gt : number -> number -> bool.
Variable num_of_Z : Z -> number.
Variable float32 : f32 -> number.
Variable toString : number -> string.
Variable parseFloat : string -> number.

Definition Event : Type := ProcessedEvent number number.

(** The events array that [decodeBinaryEvents] hands to the aggregator. *)
Definition decoded_event (e : ProcessedEvent f32 Z) : Event :=
  {| wallet := wallet e;
     amount := float32 (amount e);
     priceUsd := float32 (priceUsd e);
     volume := float32 (volume e);
     type := type e;
     time := num_of_Z (time e) |}.

(** One entry of [stats]. The three [Map]s are only written with
    [set(wallet, true)] and read with [size]. *)
Record Period : Type := {
  buys : nat;
  sells : nat;
  buyVolume : number;
  sellVolume : number;
  buyers : list (option string);
  sellers : list (option string);
  totalTransactions : nat;
  totalVolume : number;
  totalWallets : list (option string);
  initialPrice : number;
  lastPrice : number;
  hasData : bool
}.

Record Volume : Type := {
  vol_buys : number;
  vol_sells : number;
  vol_total : number
}.

Record TimeframeStats : Type := {
  ts_buyers : nat;
  ts_sellers : nat;
  ts_volume : Volume;
  transactions : nat;
  ts_buys : nat;
  ts_sells : nat;
  wallets : nat;
  price : number;
  priceChangePercentage : number
}.

(** [ProcessedStats]: the keys in insertion order with their values. *)
Definition ProcessedStats : Type := list (string * TimeframeStats).

Definition same_wallet (a b : option string) : bool := bool_decide (a = b).

Definition empty_period : Period :=
  {| buys := 0; sells := 0;
     buyVolume := num_of_Z 0; sellVolume := num_of_Z 0;
     buyers := []; sellers := [];
     totalTransactions := 0; totalVolume := num_of_Z 0;
     totalWallets := [];
     initialPrice := num_of_Z 0; lastPrice := num_of_Z 0;
     hasData := false |}.

(** [timeframeBoundaries.forEach(({ key }) => { stats[key] = {...} })] *)
Definition init_stats : gmap string Period :=
  foldl (fun stats b => <[b.1 := empty_period]> stats) ∅ timeframeBoundaries.

(** Every timeframe has its entry in [stats]. *)
Definition covers (stats : gmap string Period) : Prop :=
  forall key : string, key ∈ timeframes.*1 -> is_Some (stats !! key).

(** [s || '0'] *)
Definition or_zero (s : string) : string :=
  if String.eqb s "" then "0" else s.

(** The updates of one [period] for one event. *)
Definition touch (event : Event) (period : Period) : Period :=
  let price := parseFloat (toString (priceUsd event)) in
  let vol := parseFloat (or_zero (toString (volume event))) in
  let is_buy := String.eqb (type event) "buy" in
  {| buys := if is_buy then S (buys period) else buys period;
     sells := if is_buy then sells period else S (sells period);
     buyVolume :=
       if is_buy then num_add (buyVolume period) vol else buyVolume period;
     sellVolume :=
       if is_buy then sellVolume period else num_add (sellVolume period) vol;
     buyers :=
       if is_buy then JsSet.add same_wallet (buyers period) (wallet event)
       else buyers period;
     sellers :=
       if is_buy then sellers period
       else JsSet.add same_wallet (sellers period) (wallet event);
     totalTransactions := S (totalTransactions period);
     totalVolume := num_add (totalVolume period) vol;
     totalWallets :=
       JsSet.add same_wallet (totalWallets period) (wallet event);
     initialPrice :=
       if hasData period then initialPrice period else price;
     lastPrice := price;
     hasData := true |}.

(** The loop over [timeframeBoundaries] for one event. Reading a field
    of a missing [stats[key]] is a TypeError. *)
Fixpoint each_timeframe (bounds : list (string * Z)) (timeDiff : number)
    (event : Event) (stats : gmap string Period)
  : completion (gmap string Period) :=
  match bounds with
  | [] => Normal stats
  | (key, seconds) :: bounds' =>
      if num_gt timeDiff (num_of_Z seconds) then
        each_timeframe bounds' timeDiff event stats
      else
        match stats !! key with
        | Some period =>
            each_timeframe bounds' timeDiff event
              (<[key := touch event period]> stats)
        | None => Throw TypeError
        end
  end.

(** The body of the loop over the events. *)
Definition process_event (currentTimestamp : number) (event : Event)
    (stats : gmap string Period) : completion (gmap string Period) :=
  if negb (String.eqb (type event) "buy")
     && negb (String.eqb (type event) "sell")
  then Normal stats
  else
    let eventTime := num_div (time event) (num_of_Z 1000) in
    let timeDiff := num_sub currentTimestamp eventTime in
    each_timeframe timeframeBoundaries timeDiff event stats.

(** [for (let i = start; i < start + n; i++) { const event = events[i]; ... }];
    destructuring a missing [events[i]] is a TypeError. *)
Fixpoint for_range (currentTimestamp : number) (events : list Event)
    (i n : nat) (stats : gmap string Period)
  : completion (gmap string Period) :=
  match n with
  | O => Normal stats
  | S n' =>
      match events !! i with
      | Some event =>
          stats' ← process_event currentTimestamp event stats;
          for_range currentTimestamp events (S i) n' stats'
      | None => Throw TypeError
      end
  end.

Definition timeframe_stats (currentPrice : number) (period : Period)
  : TimeframeStats :=
  let priceChangePercent :=
    if num_gt (initialPrice period) (num_of_Z 0) then
      num_mul (num_of_Z 100)
        (num_div (num_sub currentPrice (lastPrice period)) (lastPrice period))
    else num_of_Z 0 in
  {| ts_buyers := List.length (buyers period);
     ts_sellers := List.length (sellers period);
     ts_volume := {| vol_buys := buyVolume period;
                     vol_sells := sellVolume period;
                     vol_total := totalVolume period |};
     transactions := totalTransactions period;
     ts_buys := buys period;
     ts_sells := sells period;
     wallets := List.length (totalWallets period);
     price := initialPrice period;
     priceChangePercentage := priceChangePercent |}.

(** [Object.keys(timeframes).forEach(...)], filling [sortedStats]. *)
Fixpoint transform (keys : list string) (currentPrice : number)
    (stats : gmap string Period) (sortedStats : ProcessedStats)
  : completion ProcessedStats :=
  match keys with
  | [] => Normal sortedStats
  | timeframe :: keys' =>
      match stats !! timeframe with
      | Some period =>
          if negb (hasData period) then
            transform keys' currentPrice stats sortedStats
          else
            transform keys' currentPrice stats
              (sortedStats ++ [(timeframe, timeframe_stats currentPrice period)])
      | None => Throw TypeError
      end
  end.

(** The first statement of both entry points. *)
Definition events_of (binaryData : Input number) : completion (list Event) :=
  match binaryData with
  | Binary data =>
      events ← decodeBinaryEvents data;
      Normal (List.map decoded_event events)
  | Events events => Normal events
  end.

(** [processEvents]; [now] is the value of [Date.now()]. *)
Definition processEvents (now : number) (binaryData : Input number)
  : completion ProcessedStats :=
  events ← events_of binaryData;
  match events with
  | [] => Normal []
  | first :: _ =>
      let currentPrice := parseFloat (toString (priceUsd first)) in
      let currentTimestamp := num_div now (num_of_Z 1000) in
      stats ← for_range currentTimestamp events 0 (List.length events) init_stats;
      transform timeframes.*1 currentPrice stats []
  end.

(** The loop [for (chunk = 0; chunk < events.length; chunk += CHUNK_SIZE)]
    of [processEventsAsync]. Each round is one timer callback; the list
    collects the arguments passed to [onProgress]. An exception in a
    callback leaves its promise pending for ever: the result is then
    [None]. [fuel] bounds the number of rounds. *)
Fixpoint chunks (fuel : nat) (currentTimestamp : number)
    (events : list Event) (onProgress : bool) (chunk : nat)
    (stats : gmap string Period) (progress : list number)
  : option (gmap string Period) * list number :=
  match fuel with
  | O => (Some stats, progress)
  | S fuel' =>
      if (chunk <? List.length events)%nat then
        let stop := Nat.min (chunk + CHUNK_SIZE) (List.length events) in
        match for_range currentTimestamp events chunk (stop - chunk) stats with
        | Normal stats' =>
            let called :=
              num_mul
                (num_div (num_of_Z (Z.of_nat stop))
                         (num_of_Z (Z.of_nat (List.length events))))
                (num_of_Z 100) in
            chunks fuel' currentTimestamp events onProgress
              (chunk + CHUNK_SIZE)%nat stats'
              (if onProgress then progress ++ [called] else progress)
        | Throw _ => (None, progress)
        end
      else (Some stats, progress)
  end.

(** [processEventsAsync]: how the returned promise ends, and the calls
    of [onProgress]. A round advances [chunk] by [CHUNK_SIZE], so
    [events.length] rounds are always enough. *)
Definition processEventsAsync (now : number) (binaryData : Input number)
    (onProgress : bool) : promise ProcessedStats * list number :=
  match events_of binaryData with
  | Throw e => (Rejected e, [])
  | Normal [] => (Fulfilled [], [])
  | Normal ((first :: _) as events) =>
      let currentPrice := parseFloat (toString (priceUsd first)) in
      let currentTimestamp := num_div now (num_of_Z 1000) in
      match chunks (List.length events) currentTimestamp events onProgress
              0 init_stats [] with
      | (None, progress) => (NeverSettles, progress)
      | (Some stats, progress) =>
          match transform timeframes.*1 currentPrice stats [] with
          | Normal sortedStats => (Fulfilled sortedStats, progress)
          | Throw e => (Rejected e, progress)
          end
      end
  end.

(** *** Vocabulary of the properties of the aggregator *)

(** The events that the body of the loop does not skip. *)
Definition counted (event : Event) : bool :=
  String.eqb (type event) "buy" || String.eqb (type event) "sell".

(** The test that the loop makes for a timeframe of [seconds]: a counted
    event updates the entry unless [timeDiff > seconds]. *)
Definition in_window (currentTimestamp : number) (seconds : Z)
    (event : Event) : bool :=
  counted event
  && negb (num_gt (num_sub currentTimestamp
                     (num_div (time event) (num_of_Z 1000)))
                  (num_of_Z seconds)).

(** The events of the array that update the entry of a timeframe, in the
    order of the array. *)
Definition window (currentTimestamp : number) (seconds : Z)
    (events : list Event) : list Event :=
  List.filter (in_window currentTimestamp seconds) events.

(** A new entry of [stats] after the updates for the events of [l], one
    after the other. *)
Definition period_of (l : list Event) : Period :=
  foldl (fun period event => touch event period) empty_period l.

(** The price that the aggregator reads from an event. *)
Definition price_of (event : Event) : number :=
  parseFloat (toString (priceUsd event)).

Definition is_buy (event : Event) : bool := String.eqb (type event) "buy".

Definition is_sell (event : Event) : bool := negb (is_buy event).

(** The volume that the aggregator reads from an event. *)
Definition volume_of (event : Event) : number :=
  parseFloat (or_zero (toString (volume event))).

(** The sum that [+=] builds from 0 over the events of [l], in order. *)
Definition sum_volumes (l : list Event) : number :=
  foldl (fun total event => num_add total (volume_of event)) (num_of_Z 0) l.

(** The number of distinct wallets of [l]; an undefined wallet is one. *)
Definition distinct_wallets (l : list Event) : nat :=
  List.length (remove_dups (wallet <$> l)).

(** The statistics written one timeframe at a time: each timeframe of the
    table, in the order of the table, with the record of its window if the
    window is not empty. *)
Definition windowed (now : number) (events : list Event) : ProcessedStats :=
  match events with
  | [] => []
  | first :: _ =>
      let currentPrice := price_of first in
      let currentTimestamp := num_div now (num_of_Z 1000) in
      omap (fun b : string * Z =>
              let l := window currentTimestamp b.2 events in
              match l with
              | [] => None
              | _ :: _ => Some (b.1, timeframe_stats currentPrice (period_of l))
              end)
           timeframes
  end.

(** The number of rounds of the chunked loop over [n] events. *)
Definition rounds (n : nat) : nat :=
  ((n + CHUNK_SIZE - 1) / CHUNK_SIZE)%nat.

(** What round [k] (from 0) passes to [onProgress] for [n] events:
    [(end / events.length) * 100]. *)
Definition progress_of (n k : nat) : number :=
  num_mul
    (num_div (num_of_Z (Z.of_nat (Nat.min ((k + 1) * CHUNK_SIZE) n)))
             (num_of_Z (Z.of_nat n)))
    (num_of_Z 100).

End Aggregator.

End EventProcessor.

(** ** An interpretation of the numbers by integers

    For examples: a number is an integer, the division rounds down,
    [toString] writes the decimal digits and [parseFloat] reads them. *)

Module Integers.

Definition toString (n : Z) : string := NilZero.string_of_int (Z.to_int n).

Definition parseFloat (s : string) : Z :=
  match NilZero.int_of_string s with
  | Some i => Z.of_int i
  | None => 0
  end.

Definition processEvents
  : Z -> EventProcessor.Input Z
    -> completion (list (string * EventProcessor.TimeframeStats)) :=
  EventProcessor.processEvents Z.add Z.sub Z.mul Z.div Z.gtb id id
    toString parseFloat.

Definition processEventsAsync
  : Z -> EventProcessor.Input Z -> bool
    -> EventProcessor.promise (list (string * EventProcessor.TimeframeStats))
       * list Z :=
  EventProcessor.processEventsAsync Z.add Z.sub Z.mul Z.div Z.gtb id id
    toString parseFloat.

(** The clock reads second 2000000. *)
Definition now : Z := 2000000000.

(** A buy of wallet "A" 10 seconds ago at price 5, a sell of wallet "B"
    1000 seconds ago at price 4, a buy of wallet "A" two days ago, and an
    event of another type. *)
Definition sample : list (EventProcessor.ProcessedEvent Z Z) :=
  [ {| EventProcessor.wallet := Some "A"; EventProcessor.amount := 1;
       EventProcessor.priceUsd := 5; EventProcessor.volume := 10;
       EventProcessor.type := "buy"; EventProcessor.time := 1999990000 |};
    {| EventProcessor.wallet := Some "B"; EventProcessor.amount := 2;
       EventProcessor.priceUsd := 4; EventProcessor.volume := 7;
       EventProcessor.type := "sell"; EventProcessor.time := 1999000000 |};
    {| EventProcessor.wallet := Some "A"; EventProcessor.amount := 3;
       EventProcessor.priceUsd := 2; EventProcessor.volume := 1;
       EventProcessor.type := "buy"; EventProcessor.time := 1827200000 |};
    {| EventProcessor.wallet := Some "C"; EventProcessor.amount := 3;
       EventProcessor.priceUsd := 9; EventProcessor.volume := 1;
       EventProcessor.type := "burn"; EventProcessor.time := 1999999000 |} ].

(** The statistics of the sample. *)
Definition stats : list (string * EventProcessor.TimeframeStats) :=
  EventProcessor.windowed Z.add Z.sub Z.mul Z.div Z.gtb id toString
    parseFloat now sample.

(** The records of the sample for "1m" and for "30m". *)
Definition minute : @EventProcessor.TimeframeStats Z :=
  {| EventProcessor.ts_buyers := 1; EventProcessor.ts_sellers := 0;
     EventProcessor.ts_volume :=
       {| EventProcessor.vol_buys := 10; EventProcessor.vol_sells := 0;
          EventProcessor.vol_total := 10 |};
     EventProcessor.transactions := 1; EventProcessor.ts_buys := 1;
     EventProcessor.ts_sells := 0; EventProcessor.wallets := 1;
     EventProcessor.price := 5; EventProcessor.priceChangePercentage := 0 |}.

Definition half_hour : @EventProcessor.TimeframeStats Z :=
  {| EventProcessor.ts_buyers := 1; EventProcessor.ts_sellers := 1;
     EventProcessor.ts_volume :=
       {| EventProcessor.vol_buys := 10; EventProcessor.vol_sells := 7;
          EventProcessor.vol_total := 17 |};
     EventProcessor.transactions := 2; EventProcessor.ts_buys := 1;
     EventProcessor.ts_sells := 1; EventProcessor.wallets := 2;
     EventProcessor.price := 5; EventProcessor.priceChangePercentage := 0 |}.

End Integers.

(** ** The wire layout of the binary event payload

    The encoder below is not part of the SDK: it writes a wallet table and a
    list of trades the way the layout of the binary endpoint is described
    (u32 LE walletCount; per wallet a u8 length and its bytes; u32 LE
    tradeCount; per trade a 21-byte record). It is what the decoder is
    compared with. *)

Module WireLayout.

Record Trade : Type := {
  walletIndex : Z;
  tr_amount : f32;
  tr_priceUsd : f32;
  tr_volume : f32;
  typeCode : Z;
  timeSeconds : Z
}.

Definition u8 (z : Z) : list byte := [byte_of_Z z].

Definition u32le (z : Z) : list byte :=
  [byte_of_Z z; byte_of_Z (z / 2 ^ 8); byte_of_Z (z / 2 ^ 16);
   byte_of_Z (z / 2 ^ 24)].

Definition wallet_entry (w : list byte) : list byte :=
  u8 (Z.of_nat (List.length w)) ++ w.

Definition trade_record (t : Trade) : list byte :=
  u32le (walletIndex t) ++ u32le (tr_amount t) ++ u32le (tr_priceUsd t)
  ++ u32le (tr_volume t) ++ u8 (typeCode t) ++ u32le (timeSeconds t).

Definition encode (wallets : list (list byte)) (trades : list Trade)
  : list byte :=
  u32le (Z.of_nat (List.length wallets))
  ++ concat (wallet_entry <$> wallets)
  ++ u32le (Z.of_nat (List.length trades))
  ++ concat (trade_record <$> trades).

Definition u32 (z : Z) : Prop := 0 <= z < 2 ^ 32.

Definition trade_ok (t : Trade) : Prop :=
  u32 (walletIndex t) /\ u32 (tr_amount t) /\ u32 (tr_priceUsd t)
  /\ u32 (tr_volume t) /\ 0 <= typeCode t < 256 /\ u32 (timeSeconds t).

(** Every field fits the width the layout gives it. *)
Definition well_formed (wallets : list (list byte)) (trades : list Trade)
  : Prop :=
  u32 (Z.of_nat (List.length wallets))
  /\ Forall (fun w => (List.length w <= 255)%nat) wallets
  /\ u32 (Z.of_nat (List.length trades))
  /\ Forall trade_ok trades.

(** The event a trade stands for, given the decoded wallet table. *)
Definition event_of (table : list string) (t : Trade)
  : EventProcessor.ProcessedEvent f32 Z :=
  {| EventProcessor.wallet := table !! Z.to_nat (walletIndex t);
     EventProcessor.amount := tr_amount t;
     EventProcessor.priceUsd := tr_priceUsd t;
     EventProcessor.volume := tr_volume t;
     EventProcessor.type := if typeCode t =? 0 then "buy" else "sell";
     EventProcessor.time := timeSeconds t * 1000 |}.

(** The wallets ["A"; "BB"] and the trades (0, 1.0, 2.5, 10.0, buy, 1000)
    and (1, 3.0, 2.6, 5.0, sell, 1001); floats as binary32 patterns. *)
Definition sample_wallets : list (list byte) :=
  [list_byte_of_string "A"; list_byte_of_string "BB"].

Definition sample_trades : list Trade :=
  [ {| walletIndex := 0; tr_amount := 0x3F800000; tr_priceUsd := 0x40200000;
       tr_volume := 0x41200000; typeCode := 0; timeSeconds := 1000 |};
    {| walletIndex := 1; tr_amount := 0x40400000; tr_priceUsd := 0x40266666;
       tr_volume := 0x40A00000; typeCode := 1; timeSeconds := 1001 |} ].

(** One wallet, and one trade whose walletIndex is 5. *)
Definition stray_wallets : list (list byte) := [list_byte_of_string "A"].

Definition stray_trades : list Trade :=
  [ {| walletIndex := 5; tr_amount := 0x3F800000; tr_priceUsd := 0x40200000;
       tr_volume := 0x41200000; typeCode := 0; timeSeconds := 1000 |} ].

End WireLayout.

(** ** Doubles: the rounding of the arithmetic of JavaScript numbers

    A JavaScript number is an IEEE-754 binary64 value, and the result of
    [+] and [*] is the exact result rounded to the nearest double, the one
    with an even last bit when two are equally near. The finite doubles are
    rationals, so the rounding is a function on [Q]; results of magnitude
    2^1024 and above, which a double replaces by an infinity, are outside
    the model. *)

Module Double.


(** The integer nearest to [q], the even one of two that are equally
    near. *)
Definition round_half_even (q : Q) : Z :=
  let f := Qfloor q in
  match Qcompare (q - inject_Z f) (1 # 2) with
  | Lt => f
  | Gt => f + 1
  | Eq => if Z.even f then f else f + 1
  end.

(** The integer part of the binary logarithm of [q], for [0 < q]. *)
Definition ilog2 (q : Q) : Z :=
  let k := Z.log2 (Qnum q) - Z.log2 (Zpos (Qden q)) in
  if Qle_bool (2 ^ k) q then k else k - 1.

(** The exponent of the unit in the last place of the double nearest to
    [q], for [0 < q]: 53 bits of precision, and subnormal numbers below
    2^-1022. *)
Definition ulp_exponent (q : Q) : Z := Z.max (ilog2 q - 52) (-1074).

Definition round (q : Q) : Q :=
  if Qeq_bool q 0 then 0%Q
  else
    let a := Qabs q in
    let e := ulp_exponent a in
    let r := (inject_Z (round_half_even (a / 2 ^ e)) * 2 ^ e)%Q in
    Qred (if Qle_bool 0 q then r else (- r)%Q).


End Double.

(** ** datastream.ts: the in-process transport

    The model covers a [Datastream] built with [useWorker] false (the
    default), so that every test [this.useWorker && this.worker] fails. It
    assumes what the code takes from its environment: [wsUrl] is a URL that
    [new WebSocket] accepts; listeners neither throw nor call the object
    back; an "error" listener is registered whenever "error" is emitted; an
    inbound frame parses and has a string [type] and a string [room]; the
    numbers of a payload are integers that print in decimal. Delays and the
    random draw are rationals; the product and the sums of the jitter are
    rounded to the nearest double, as [reconnect] computes them. *)

Module Datastream.

(** *** Values of JavaScript *)

(** What [JSON.parse] returns; an object lists each key once. *)
Inductive json : Type :=
| JNull
| JBool (b : bool)
| JNum (n : Z)
| JStr (s : string)
| JArr (items : list json)
| JObj (fields : list (string * json)).

(** A value that may be [undefined]. *)
Definition value : Type := option json.

(** The value of a key of an object, [undefined] without it. *)
Fixpoint assoc (key : string) (fields : list (string * json)) : value :=
  match fields with
  | [] => None
  | (k, v) :: fields' => if String.eqb k key then Some v else assoc key fields'
  end.

(** [v.key], for a key that no built-in prototype defines. *)
Definition get_prop (v : value) (key : string) : completion value :=
  match v with
  | None | Some JNull => Throw TypeError
  | Some (JObj fields) => Normal (assoc key fields)
  | Some _ => Normal None
  end.

(** [v?.key] *)
Definition opt_prop (v : value) (key : string) : value :=
  match v with
  | Some (JObj fields) => assoc key fields
  | _ => None
  end.

(** The conversion to boolean of a condition. *)
Definition truthy (v : value) : bool :=
  match v with
  | None | Some JNull => false
  | Some (JBool b) => b
  | Some (JNum n) => negb (n =? 0)
  | Some (JStr s) => negb (String.eqb s "")
  | Some (JArr _) | Some (JObj _) => true
  end.

(** The comparison of [Set.prototype.has]. Two parsed arrays or objects
    are never the same object. *)
Definition same_value_zero (a b : value) : bool :=
  match a, b with
  | None, None => true
  | Some JNull, Some JNull => true
  | Some (JBool x), Some (JBool y) => Bool.eqb x y
  | Some (JNum x), Some (JNum y) => x =? y
  | Some (JStr x), Some (JStr y) => String.eqb x y
  | _, _ => false
  end.

(** [String(n)] for an integer. *)
Definition Z_to_string (n : Z) : string := NilZero.string_of_int (Z.to_int n).

(** The string a template literal inserts for a value. *)
Fixpoint json_to_string (j : json) : string :=
  match j with
  | JNull => "null"
  | JBool true => "true"
  | JBool false => "false"
  | JNum n => Z_to_string n
  | JStr s => s
  | JArr items =>
      let element (x : json) : string :=
        match x with JNull => "" | _ => json_to_string x end in
      (fix join (l : list json) : string :=
         match l with
         | [] => ""
         | [x] => element x
         | x :: l' => element x +:+ "," +:+ join l'
         end) items
  | JObj _ => "[object Object]"
  end.

Definition to_string (v : value) : string :=
  match v with
  | None => "undefined"
  | Some j => json_to_string j
  end.

(** [hay.includes(needle)] *)
Fixpoint includes (needle hay : string) : bool :=
  String.prefix needle hay
  || match hay with
     | EmptyString => false
     | String _ hay' => includes needle hay'
     end.

(** *** Frames, listeners and effects *)

(** [{ type: 'join', room }] and [{ type: 'leave', room }] *)
Inductive Frame : Type :=
| Join (room : string)
| Leave (room : string).

(** A parsed inbound frame whose [type] and [room] are strings, as the
    server sends them. A frame without a string [room] makes
    [message.room.includes] throw, which the handler reports with "error";
    such frames are not values of this type. *)
Record Message : Type := {
  msg_type : string;
  msg_room : string;
  msg_data : value
}.

(** What [emit] passes to the listeners. *)
Inductive Arg : Type :=
| APayload (data : value)
| AScope (scope : string)
| AAttempts (attempts : nat)
| AError
| ANothing.

(** A registered listener: the caller's callback, directly or behind the
    wrapper that the [on] of a subscription handle adds. *)
Record Listener : Type := {
  callback : nat;
  wrapped : bool
}.

Inductive Effect : Type :=
| NewWebSocket (id : nat)
| Send (id : nat) (frame : Frame)
| Close (id : nat)
| Emit (event : string) (arg : Arg)
| Invoke (callback : nat) (arg : Arg)
| SetTimeout (delay : Q).

(** *** The state *)

Inductive SocketType : Type := Main | Transaction.
Inductive ReadyState : Type := CONNECTING | OPEN | CLOSING | CLOSED.
Inductive PromiseState : Type := Pending | Resolved | Rejected.

#[global] Instance SocketType_eq_dec : EqDecision SocketType.
Proof. solve_decision. Defined.
#[global] Instance ReadyState_eq_dec : EqDecision ReadyState.
Proof. solve_decision. Defined.
#[global] Instance PromiseState_eq_dec : EqDecision PromiseState.
Proof. solve_decision. Defined.

(** A [WebSocket] object with what its handlers captured: the [type] of
    [createSocket] and the call of [connect] whose promise it settles.
    [listening] is set once [setupSocketListeners] has run on it. *)
Record WebSocket : Type := {
  ws_type : SocketType;
  ws_attempt : nat;
  readyState : ReadyState;
  listening : bool
}.

(** The two promises that one [Promise.all] of [connect] waits for. *)
Record Attempt : Type := {
  main_promise : PromiseState;
  transaction_promise : PromiseState
}.

(** The fields of the class; sockets are referred to by their index in
    the heap. *)
Record Datastream : Type := {
  socket : option nat;
  transactionSocket : option nat;
  reconnectAttempts : nat;
  reconnectDelay : Q;
  reconnectDelayMax : Q;
  randomizationFactor : Q;
  subscribedRooms : list string;
  transactions : list value;
  autoReconnect : bool;
  isConnecting : bool;
  listeners : list (string * Listener)
}.

(** The object and its environment: every socket constructed so far, the
    [Promise.all] of every call of [connect], and the delays of the timers
    of [reconnect] that have not fired yet. *)
Record World : Type := {
  this : Datastream;
  heap : list WebSocket;
  attempts : list Attempt;
  timers : list Q
}.

Definition set_socket (x : option nat) (d : Datastream) : Datastream :=
  {| socket := x; transactionSocket := transactionSocket d;
     reconnectAttempts := reconnectAttempts d;
     reconnectDelay := reconnectDelay d;
     reconnectDelayMax := reconnectDelayMax d;
     randomizationFactor := randomizationFactor d;
     subscribedRooms := subscribedRooms d; transactions := transactions d;
     autoReconnect := autoReconnect d; isConnecting := isConnecting d;
     listeners := listeners d |}.

Definition set_transactionSocket (x : option nat) (d : Datastream) : Datastream :=
  {| socket := socket d; transactionSocket := x;
     reconnectAttempts := reconnectAttempts d;
     reconnectDelay := reconnectDelay d;
     reconnectDelayMax := reconnectDelayMax d;
     randomizationFactor := randomizationFactor d;
     subscribedRooms := subscribedRooms d; transactions := transactions d;
     autoReconnect := autoReconnect d; isConnecting := isConnecting d;
     listeners := listeners d |}.

Definition set_reconnectAttempts (x : nat) (d : Datastream) : Datastream :=
  {| socket := socket d; transactionSocket := transactionSocket d;
     reconnectAttempts := x;
     reconnectDelay := reconnectDelay d;
     reconnectDelayMax := reconnectDelayMax d;
     randomizationFactor := randomizationFactor d;
     subscribedRooms := subscribedRooms d; transactions := transactions d;
     autoReconnect := autoReconnect d; isConnecting := isConnecting d;
     listeners := listeners d |}.

Definition set_subscribedRooms (x : list string) (d : Datastream) : Datastream :=
  {| socket := socket d; transactionSocket := transactionSocket d;
     reconnectAttempts := reconnectAttempts d;
     reconnectDelay := reconnectDelay d;
     reconnectDelayMax := reconnectDelayMax d;
     randomizationFactor := randomizationFactor d;
     subscribedRooms := x; transactions := transactions d;
     autoReconnect := autoReconnect d; isConnecting := isConnecting d;
     listeners := listeners d |}.

Definition set_transactions (x : list value) (d : Datastream) : Datastream :=
  {| socket := socket d; transactionSocket := transactionSocket d;
     reconnectAttempts := reconnectAttempts d;
     reconnectDelay := reconnectDelay d;
     reconnectDelayMax := reconnectDelayMax d;
     randomizationFactor := randomizationFactor d;
     subscribedRooms := subscribedRooms d; transactions := x;
     autoReconnect := autoReconnect d; isConnecting := isConnecting d;
     listeners := listeners d |}.

Definition set_isConnecting (x : bool) (d : Datastream) : Datastream :=
  {| socket := socket d; transactionSocket := transactionSocket d;
     reconnectAttempts := reconnectAttempts d;
     reconnectDelay := reconnectDelay d;
     reconnectDelayMax := reconnectDelayMax d;
     randomizationFactor := randomizationFactor d;
     subscribedRooms := subscribedRooms d; transactions := transactions d;
     autoReconnect := autoReconnect d; isConnecting := x;
     listeners := listeners d |}.

Definition set_listeners (x : list (string * Listener)) (d : Datastream)
  : Datastream :=
  {| socket := socket d; transactionSocket := transactionSocket d;
     reconnectAttempts := reconnectAttempts d;
     reconnectDelay := reconnectDelay d;
     reconnectDelayMax := reconnectDelayMax d;
     randomizationFactor := randomizationFactor d;
     subscribedRooms := subscribedRooms d; transactions := transactions d;
     autoReconnect := autoReconnect d; isConnecting := isConnecting d;
     listeners := x |}.

Definition on_this (f : Datastream -> Datastream) (w : World) : World :=
  {| this := f (this w); heap := heap w; attempts := attempts w;
     timers := timers w |}.

Definition set_heap (x : list WebSocket) (w : World) : World :=
  {| this := this w; heap := x; attempts := attempts w; timers := timers w |}.

Definition set_attempts (x : list Attempt) (w : World) : World :=
  {| this := this w; heap := heap w; attempts := x; timers := timers w |}.

Definition set_timers (x : list Q) (w : World) : World :=
  {| this := this w; heap := heap w; attempts := attempts w; timers := x |}.

(** *** Actions: a step of the program changes the world and has effects *)

Definition Action (A : Type) : Type := World -> A * World * list Effect.

#[global] Instance action_ret : MRet Action := fun A a w => (a, w, []).
#[global] Instance action_bind : MBind Action := fun A B f m w =>
  let r1 := m w in
  let r2 := f r1.1.1 r1.1.2 in
  (r2.1.1, r2.1.2, r1.2 ++ r2.2).

Definition skip : Action unit := mret tt.
Definition world : Action World := fun w => (w, w, []).
Definition update (f : World -> World) : Action unit := fun w => (tt, f w, []).
Definition effect (e : Effect) : Action unit := fun w => (tt, w, [e]).
Definition effects (es : list Effect) : Action unit := fun w => (tt, w, es).

(** The world and the effects of an action. *)
Definition exec (a : Action unit) (w : World) : World * list Effect :=
  ((a w).1.2, (a w).2).

Fixpoint for_each {A : Type} (l : list A) (body : A -> Action unit)
  : Action unit :=
  match l with
  | [] => skip
  | x :: l' => body x;; for_each l' body
  end.

(** *** EventEmitter *)

(** The wrapper of [_subscribe(...).on] calls the callback once per item
    of an array payload; a listener added with [on] gets the argument. *)
Definition call_listener (arg : Arg) (l : Listener) : list Effect :=
  match wrapped l, arg with
  | true, APayload (Some (JArr items)) =>
      (fun item => Invoke (callback l) (APayload (Some item))) <$> items
  | _, _ => [Invoke (callback l) arg]
  end.

Definition listeners_of (d : Datastream) (event : string) : list Listener :=
  (filter (fun el => el.1 = event) (listeners d)).*2.

(** [this.emit(event, arg)]: the listeners of [event], in the order they
    were added. *)
Definition emit (event : string) (arg : Arg) : Action unit :=
  w ← world;
  effects (Emit event arg
           :: concat (call_listener arg <$> listeners_of (this w) event)).

(** *** Sockets and channels *)

Definition set_readyState (r : ReadyState) (ws : WebSocket) : WebSocket :=
  {| ws_type := ws_type ws; ws_attempt := ws_attempt ws; readyState := r;
     listening := listening ws |}.

Definition set_listening (b : bool) (ws : WebSocket) : WebSocket :=
  {| ws_type := ws_type ws; ws_attempt := ws_attempt ws;
     readyState := readyState ws; listening := b |}.

Definition on_socket (id : nat) (f : WebSocket -> WebSocket) : Action unit :=
  update (fun w => set_heap (alter f id (heap w)) w).

(** [s && s.readyState === WebSocket.OPEN] *)
Definition is_open (w : World) (s : option nat) : bool :=
  match s with
  | Some id =>
      match heap w !! id with
      | Some ws => bool_decide (readyState ws = OPEN)
      | None => false
      end
  | None => false
  end.

Definition non_null {A : Type} (o : option A) : bool :=
  match o with Some _ => true | None => false end.

(** [room.includes('transaction') ? this.transactionSocket : this.socket] *)
Definition channel (d : Datastream) (room : string) : option nat :=
  if includes "transaction" room then transactionSocket d else socket d.

(** [s.send(JSON.stringify(frame))]; every caller has checked that [s] is
    an open socket. *)
Definition send (s : option nat) (frame : Frame) : Action unit :=
  match s with
  | Some id => effect (Send id frame)
  | None => skip
  end.

Definition resubscribeToRooms : Action unit :=
  w ← world;
  if is_open w (socket (this w)) && is_open w (transactionSocket (this w))
  then
    for_each (subscribedRooms (this w))
      (fun room => send (channel (this w) room) (Join room))
  else skip.

(** The executor of the promise of [createSocket], up to the point where
    it has set [onopen] and [onerror]. *)
Definition createSocket (type : SocketType) (attempt : nat) : Action unit :=
  w ← world;
  update (set_heap (heap w ++ [ {| ws_type := type; ws_attempt := attempt;
                                   readyState := CONNECTING;
                                   listening := false |} ]));;
  effect (NewWebSocket (List.length (heap w))).

(** [connect()], up to its [await]. *)
Definition connect : Action unit :=
  w ← world;
  if non_null (socket (this w)) && non_null (transactionSocket (this w))
  then skip
  else if isConnecting (this w) then skip
  else
    update (on_this (set_isConnecting true));;
    update (set_attempts (attempts w ++ [ {| main_promise := Pending;
                                             transaction_promise := Pending |} ]));;
    createSocket Main (List.length (attempts w));;
    createSocket Transaction (List.length (attempts w)).

(** The [delay] of [reconnect], before the jitter. Scaling a double by a
    power of two and taking the smaller of two doubles are exact. *)
Definition backoff (d : Datastream) : Q :=
  Qmin (reconnectDelay d * 2 ^ Z.of_nat (reconnectAttempts d))%Q
       (reconnectDelayMax d).

(** The argument that [reconnect] gives to [setTimeout] when
    [Math.random()] returns [rnd]: [delay + Math.random() * jitter] with
    [jitter = delay * this.randomizationFactor], each product and the sum
    rounded to a double. *)
Definition reconnect_wait (d : Datastream) (rnd : Q) : Q :=
  let delay := backoff d in
  let jitter := Double.round (delay * randomizationFactor d) in
  Double.round (delay + Double.round (rnd * jitter)).

Definition reconnect (rnd : Q) : Action unit :=
  w ← world;
  if negb (autoReconnect (this w)) then skip
  else
    emit "reconnecting" (AAttempts (reconnectAttempts (this w)));;
    let reconnectDelay := reconnect_wait (this w) rnd in
    update (set_timers (timers w ++ [reconnectDelay]));;
    effect (SetTimeout reconnectDelay).

(** The callback that [reconnect] gives to [setTimeout]. *)
Definition timer_callback : Action unit :=
  update (on_this (fun d => set_reconnectAttempts (S (reconnectAttempts d)) d));;
  connect.

(** *** The promises of [connect] *)

Definition promise_of (type : SocketType) (a : Attempt) : PromiseState :=
  match type with
  | Main => main_promise a
  | Transaction => transaction_promise a
  end.

Definition set_promise (type : SocketType) (p : PromiseState) (a : Attempt)
  : Attempt :=
  match type with
  | Main => {| main_promise := p; transaction_promise := transaction_promise a |}
  | Transaction => {| main_promise := main_promise a; transaction_promise := p |}
  end.

Definition other (type : SocketType) : SocketType :=
  match type with Main => Transaction | Transaction => Main end.

(** [resolve()] in [onopen]. When it fulfils the [Promise.all], the rest
    of the [try] block of [connect] runs before any other handler. *)
Definition resolve (type : SocketType) (attempt : nat) : Action unit :=
  w ← world;
  match attempts w !! attempt with
  | Some a =>
      if bool_decide (promise_of type a = Pending) then
        update (set_attempts (<[attempt := set_promise type Resolved a]> (attempts w)));;
        if bool_decide (promise_of (other type) a = Resolved) then
          update (on_this (set_isConnecting false));;
          emit "connected" ANothing
        else skip
      else skip
  | None => skip
  end.

(** [reject(error)] in [onerror]. The first rejection rejects the
    [Promise.all], and the [catch] block of [connect] runs. *)
Definition reject (type : SocketType) (attempt : nat) (rnd : Q)
  : Action unit :=
  w ← world;
  match attempts w !! attempt with
  | Some a =>
      if bool_decide (promise_of type a = Pending) then
        update (set_attempts (<[attempt := set_promise type Rejected a]> (attempts w)));;
        if bool_decide (promise_of (other type) a = Rejected) then skip
        else
          update (on_this (set_isConnecting false));;
          emit "error" AError;;
          if autoReconnect (this w) then reconnect rnd else skip
      else skip
  | None => skip
  end.

(** *** The handlers of a socket *)

Definition type_name (type : SocketType) : string :=
  match type with Main => "main" | Transaction => "transaction" end.

Definition store (type : SocketType) (s : option nat) : Action unit :=
  update (on_this (match type with
                   | Main => set_socket s
                   | Transaction => set_transactionSocket s
                   end)).

(** [setupSocketListeners(socket, type)] sets [onmessage] and [onclose]. *)
Definition setupSocketListeners (id : nat) : Action unit :=
  on_socket id (set_listening true).

Definition onopen (id : nat) (type : SocketType) (attempt : nat)
  : Action unit :=
  store type (Some id);;
  update (on_this (set_reconnectAttempts 0));;
  setupSocketListeners id;;
  resubscribeToRooms;;
  resolve type attempt.

Definition onerror (type : SocketType) (attempt : nat) (rnd : Q)
  : Action unit :=
  reject type attempt rnd.

(** [socket.onmessage], for a frame that parsed. The one statement of the
    [try] block that can throw is the read of [message.data.token]. *)
Definition onmessage (message : Message) : Action unit :=
  if String.eqb (msg_type message) "message" then
    w ← world;
    let tx := opt_prop (msg_data message) "tx" in
    if truthy tx && JsSet.has same_value_zero (transactions (this w)) tx
    then skip
    else
      (if truthy tx then
         update (on_this (set_transactions
                            (JsSet.add same_value_zero (transactions (this w)) tx)))
       else skip);;
      if includes "price:" (msg_room message) then
        match get_prop (msg_data message) "token" with
        | Normal token =>
            emit ("price-by-token:" +:+ to_string token)
                 (APayload (msg_data message));;
            emit (msg_room message) (APayload (msg_data message))
        | Throw _ => emit "error" AError
        end
      else emit (msg_room message) (APayload (msg_data message))
  else skip.

Definition onclose (type : SocketType) (rnd : Q) : Action unit :=
  emit "disconnected" (AScope (type_name type));;
  store type None;;
  w ← world;
  if autoReconnect (this w) then reconnect rnd else skip.

(** *** The public methods *)

(** [s.close()] *)
Definition close (id : nat) : Action unit :=
  on_socket id (fun ws => if bool_decide (readyState ws = CLOSED) then ws
                          else set_readyState CLOSING ws);;
  effect (Close id).

Definition disconnect : Action unit :=
  w ← world;
  match socket (this w) with
  | Some id => close id;; update (on_this (set_socket None))
  | None => skip
  end;;
  match transactionSocket (this w) with
  | Some id => close id;; update (on_this (set_transactionSocket None))
  | None => skip
  end;;
  update (on_this (fun d => set_subscribedRooms (JsSet.clear (subscribedRooms d)) d));;
  update (on_this (fun d => set_transactions (JsSet.clear (transactions d)) d));;
  emit "disconnected" (AScope "all").

(** [_subscribe(room)], up to the handle it returns. *)
Definition _subscribe (room : string) : Action unit :=
  update (on_this (fun d =>
    set_subscribedRooms (JsSet.add String.eqb (subscribedRooms d) room) d));;
  w ← world;
  let socket := channel (this w) room in
  if is_open w socket then send socket (Join room)
  else connect.

Definition unsubscribe (room : string) : Action unit :=
  update (on_this (fun d =>
    set_subscribedRooms (JsSet.delete String.eqb (subscribedRooms d) room) d));;
  w ← world;
  let socket := channel (this w) room in
  if is_open w socket then send socket (Leave room)
  else skip.

(** [on(event, listener)] of the emitter; the [on] of a handle adds a
    wrapped listener under the room of the handle. *)
Definition on (event : string) (l : Listener) : Action unit :=
  update (on_this (fun d => set_listeners (listeners d ++ [(event, l)]) d)).

(** The [unsubscribe] of the object returned by [on]: the [k]-th
    registration is removed. *)
Definition removeListener (k : nat) : Action unit :=
  update (on_this (fun d => set_listeners (delete k (listeners d)) d)).

(** *** The constructor *)

Record DatastreamConfig : Type := {
  cfg_autoReconnect : option bool;
  cfg_reconnectDelay : option Q;
  cfg_reconnectDelayMax : option Q;
  cfg_randomizationFactor : option Q
}.

(** [x || d] for an optional number *)
Definition or_default (x : option Q) (d : Q) : Q :=
  match x with
  | Some q => if Qeq_bool q 0 then d else q
  | None => d
  end.

Definition new_Datastream (config : DatastreamConfig) : World :=
  {| this := {| socket := None; transactionSocket := None;
                reconnectAttempts := 0;
                reconnectDelay := or_default (cfg_reconnectDelay config) 2500;
                reconnectDelayMax := or_default (cfg_reconnectDelayMax config) 4500;
                randomizationFactor :=
                  or_default (cfg_randomizationFactor config) (1 # 2);
                subscribedRooms := []; transactions := [];
                autoReconnect :=
                  match cfg_autoReconnect config with
                  | Some false => false
                  | _ => true
                  end;
                isConnecting := false; listeners := [] |};
     heap := []; attempts := []; timers := [] |}.

(** *** The event loop

    One task at a time: a call by the user of the object, an event of a
    socket, or a timer that fires. An event that cannot happen in the
    current state does nothing. [rnd] is what [Math.random()] returns if
    the task calls it. A failing socket gets [error] and then [close]. A
    socket changes its [readyState] in the tasks of its own events and in
    [close()]; the closing handshake that a server starts, which makes a
    socket CLOSING before any of its events, is not a task of the loop, so
    what is stated for every world, and not for the reachable ones only,
    covers it. *)

Inductive Event : Type :=
| CallConnect
| CallDisconnect
| CallSubscribe (room : string)
| CallUnsubscribe (room : string)
| CallOn (event : string) (l : Listener)
| CallRemoveListener (k : nat)
| SocketOpens (id : nat)
| SocketFails (id : nat) (rnd : Q)
| SocketCloses (id : nat) (rnd : Q)
| SocketReceives (id : nat) (message : Message)
| TimerFires (k : nat) .

Definition step (e : Event) : Action unit :=
  match e with
  | CallConnect => connect
  | CallDisconnect => disconnect
  | CallSubscribe room => _subscribe room
  | CallUnsubscribe room => unsubscribe room
  | CallOn event l => on event l
  | CallRemoveListener k => removeListener k
  | SocketOpens id =>
      w ← world;
      match heap w !! id with
      | Some ws =>
          if bool_decide (readyState ws = CONNECTING) then
            on_socket id (set_readyState OPEN);;
            onopen id (ws_type ws) (ws_attempt ws)
          else skip
      | None => skip
      end
  | SocketFails id rnd =>
      w ← world;
      match heap w !! id with
      | Some ws =>
          if bool_decide (readyState ws = CLOSED) then skip
          else
            on_socket id (set_readyState CLOSED);;
            onerror (ws_type ws) (ws_attempt ws) rnd;;
            if listening ws then onclose (ws_type ws) rnd else skip
      | None => skip
      end
  | SocketCloses id rnd =>
      w ← world;
      match heap w !! id with
      | Some ws =>
          if bool_decide (readyState ws = CLOSED) then skip
          else
            on_socket id (set_readyState CLOSED);;
            if listening ws then onclose (ws_type ws) rnd else skip
      | None => skip
      end
  | SocketReceives id message =>
      w ← world;
      match heap w !! id with
      | Some ws =>
          if bool_decide (readyState ws = OPEN) && listening ws
          then onmessage message
          else skip
      | None => skip
      end
  | TimerFires k =>
      w ← world;
      match timers w !! k with
      | Some _ => update (set_timers (delete k (timers w)));; timer_callback
      | None => skip
      end
  end.

Fixpoint run (events : list Event) : Action unit :=
  match events with
  | [] => skip
  | e :: events' => step e;; run events'
  end.

(** The worlds that a new object can be in after some tasks. *)
Definition reachable (w : World) : Prop :=
  exists config events, (exec (run events) (new_Datastream config)).1 = w.

(** *** Vocabulary of the properties *)

(** The action leaves [f] of the world as it was. *)
Definition preserves {X : Type} (f : World -> X) (a : Action unit) : Prop :=
  forall w, f (exec a w).1 = f w.

(** The tracked rooms and the dedup set are fields of [this]. *)
Definition rooms_of (w : World) : list string := subscribedRooms (this w).
Definition seen_of (w : World) : list value := transactions (this w).

(** A value that is not an array or an object. *)
Definition primitive (v : value) : bool :=
  match v with
  | Some (JArr _) | Some (JObj _) => false
  | _ => true
  end.

(** The frames of a resubscription when the main channel is socket [m]
    and the transaction channel socket [t]. *)
Definition joins (m t : nat) (rooms : list string) : list Effect :=
  (fun room => Send (if includes "transaction" room then t else m) (Join room))
    <$> rooms.

Definition is_Send (e : Effect) : bool :=
  match e with Send _ _ => true | _ => false end.

(** The frames among the effects. *)
Definition sent (out : list Effect) : list Effect := List.filter is_Send out.

(** What [onmessage] emits for a frame that the dedup filter lets
    through: under the derived key first when the room contains "price:",
    then under the room. *)
Definition routed (message : Message) (w : World) : list Effect :=
  let data := APayload (msg_data message) in
  if includes "price:" (msg_room message) then
    match get_prop (msg_data message) "token" with
    | Normal token =>
        (exec (emit ("price-by-token:" +:+ to_string token) data) w).2
        ++ (exec (emit (msg_room message) data) w).2
    | Throw _ => (exec (emit "error" AError) w).2
    end
  else (exec (emit (msg_room message) data) w).2.

(** The [tx] that the dedup filter looks at. *)
Definition tx_of (message : Message) : value :=
  opt_prop (msg_data message) "tx".

(** The one task that ends a session. *)
Definition ends_session (e : Event) : bool :=
  match e with CallDisconnect => true | _ => false end.

(** Examples of settings and of inbound frames. *)
Definition defaults : DatastreamConfig :=
  {| cfg_autoReconnect := None; cfg_reconnectDelay := None;
     cfg_reconnectDelayMax := None; cfg_randomizationFactor := None |}.





Definition inbound (room : string) (data : value) : Message :=
  {| msg_type := "message"; msg_room := room; msg_data := data |}.

(** The channel sockets and the heap. *)
Definition wiring (w : World) : option nat * option nat * list WebSocket :=
  (socket (this w), transactionSocket (this w), heap w).

(** The world after the tasks [events] on a new object with the default
    settings. *)
Definition after (events : list Event) : World :=
  (exec (run events) (new_Datastream defaults)).1.

(** Callback 7 listens, through the wrapper of a handle, on three rooms
    and on ["error"]; then both channels open. *)
Definition listener7 : Listener := {| callback := 7; wrapped := true |}.

Definition live_tasks : list Event :=
  [CallOn "error" listener7;
   CallSubscribe "price:T"; CallOn "price:T" listener7;
   CallSubscribe "price-by-token:T"; CallOn "price-by-token:T" listener7;
   CallSubscribe "transaction:T"; CallOn "transaction:T" listener7;
   SocketOpens 0; SocketOpens 1].

Definition live : World := Eval vm_compute in after live_tasks.

(** A room is tracked and the main socket has opened; the transaction
    socket is still connecting. *)
Definition half_open_tasks : list Event :=
  [CallSubscribe "price:T"; SocketOpens 0].

Definition half_open : World := Eval vm_compute in after half_open_tasks.

(** The same, after the closing handshake of the main socket has
    started: the object still holds the socket, which is no longer open. *)
Definition closing_main : World :=
  set_heap (alter (set_readyState CLOSING) 0%nat (heap half_open)) half_open.

(** Both channels open and no room tracked. *)
Definition idle_tasks : list Event :=
  [CallConnect; SocketOpens 0; SocketOpens 1].

Definition idle : World := Eval vm_compute in after idle_tasks.

(** Both channels were open, then the main socket closed: the timer of
    [reconnect] is pending. *)
Definition backing_off_tasks : list Event :=
  [CallConnect; SocketOpens 0; SocketOpens 1; SocketCloses 0 (1 # 2)].

Definition backing_off : World := Eval vm_compute in after backing_off_tasks.

Definition trade (tx : json) : value := Some (JObj [("tx", tx)]).

Definition price_update (token : string) (tx : json) : value :=
  Some (JObj [("token", JStr token); ("tx", tx)]).

(** *** The connection status *)

(** [isConnected()], without a worker. *)
Definition isConnected (w : World) : bool :=
  non_null (socket (this w)) && is_open w (socket (this w))
  && non_null (transactionSocket (this w))
  && is_open w (transactionSocket (this w)).

(** *** The worker transport: the handler of a forwarded payload *)

(** [handleWorkerMessage({ room, message })], for a string [room]. Nothing
    catches the exception of the read of [message.token]. *)
Definition handleWorkerMessage (room : string) (message : value)
  : Action (completion unit) :=
  w ← world;
  let tx := opt_prop message "tx" in
  if truthy tx && JsSet.has same_value_zero (transactions (this w)) tx
  then mret (Normal tt)
  else
    (if truthy tx then
       update (on_this (set_transactions
                          (JsSet.add same_value_zero (transactions (this w)) tx)))
     else skip);;
    if includes "price:" room then
      match get_prop message "token" with
      | Normal token =>
          emit ("price-by-token:" +:+ to_string token) (APayload message);;
          emit room (APayload message);;
          mret (Normal tt)
      | Throw e => mret (Throw e)
      end
    else emit room (APayload message);; mret (Normal tt).

(** *** The subscription API

    Every method of [subscribe] builds room names from its arguments and
    calls [_subscribe]. A chain is listed with the calls of [_subscribe]
    that it makes, in order: [token(a)] and [tx.wallet(a)] subscribe to
    their own room before the method called on their result subscribes to
    its room. Numbers are integers. *)

Inductive Method : Type :=
| Latest
| Graduating (marketCapThresholdSOL : option Z)
| CurvePercentage (market : string) (percentage : Z)
| Graduated
| Metadata (tokenAddress : string)
| Holders (tokenAddress : string)
| Token (tokenAddress : string)
| TokenAll (tokenAddress : string)
| TokenPrimary (tokenAddress : string)
| Pool (poolId : string)
| Snipers (tokenAddress : string)
| Insiders (tokenAddress : string)
| WalletBalance (walletAddress : string)
| WalletTokenBalance (walletAddress tokenAddress : string)
| StatsToken (tokenAddress : string)
| StatsPool (poolId : string)
| PriceToken (tokenAddress : string)
| PriceAllPoolsForToken (tokenAddress : string)
| PricePool (poolId : string)
| TxToken (tokenAddress : string)
| TxPool (tokenAddress poolId : string)
| TxWallet (walletAddress : string)
| TxWalletTransactions (walletAddress : string)
| TxWalletBalance (walletAddress : string)
| TxWalletTokenBalance (walletAddress tokenAddress : string).

(** The rooms that the chain passes to [_subscribe]; [None] when it
    throws (before any call). *)
Definition rooms (m : Method) : option (list string) :=
  match m with
  | Latest => Some ["latest"]
  | Graduating threshold =>
      Some [match threshold with
            | Some n =>
                if n =? 0 then "graduating"
                else "graduating:sol:" +:+ Z_to_string n
            | None => "graduating"
            end]
  | CurvePercentage market percentage =>
      if (percentage <? 0) || (percentage >? 100) then None
      else Some [market +:+ ":curve:" +:+ Z_to_string percentage]
  | Graduated => Some ["graduated"]
  | Metadata a => Some ["metadata:" +:+ a]
  | Holders a => Some ["holders:" +:+ a]
  | Token a => Some ["token:" +:+ a]
  | TokenAll a => Some ["token:" +:+ a; "token:" +:+ a]
  | TokenPrimary a => Some ["token:" +:+ a; "token:" +:+ a +:+ ":primary"]
  | Pool p => Some ["pool:" +:+ p]
  | Snipers a => Some ["sniper:" +:+ a]
  | Insiders a => Some ["insider:" +:+ a]
  | WalletBalance a => Some ["wallet:" +:+ a +:+ ":balance"]
  | WalletTokenBalance a t => Some ["wallet:" +:+ a +:+ ":" +:+ t +:+ ":balance"]
  | StatsToken a => Some ["stats:token:" +:+ a]
  | StatsPool p => Some ["stats:pool:" +:+ p]
  | PriceToken a => Some ["price-by-token:" +:+ a]
  | PriceAllPoolsForToken a => Some ["price:" +:+ a]
  | PricePool p => Some ["price:" +:+ p]
  | TxToken a => Some ["transaction:" +:+ a]
  | TxPool a p => Some ["transaction:" +:+ a +:+ ":" +:+ p]
  | TxWallet a => Some ["wallet:" +:+ a]
  | TxWalletTransactions a => Some ["wallet:" +:+ a; "wallet:" +:+ a]
  | TxWalletBalance a => Some ["wallet:" +:+ a; "wallet:" +:+ a +:+ ":balance"]
  | TxWalletTokenBalance a t =>
      Some ["wallet:" +:+ a; "wallet:" +:+ a +:+ ":" +:+ t +:+ ":balance"]
  end.

(** The string arguments of the chain. *)
Definition arguments (m : Method) : list string :=
  match m with
  | Latest | Graduating _ | Graduated => []
  | CurvePercentage market _ => [market]
  | Metadata a | Holders a | Token a | TokenAll a | TokenPrimary a
  | Pool a | Snipers a | Insiders a | WalletBalance a | StatsToken a
  | StatsPool a | PriceToken a | PriceAllPoolsForToken a | PricePool a
  | TxToken a | TxWallet a | TxWalletTransactions a | TxWalletBalance a => [a]
  | WalletTokenBalance a t | TxPool a t | TxWalletTokenBalance a t => [a; t]
  end.

(** The chain as a task: its calls of [_subscribe], none if it throws. *)
Definition subscribe (m : Method) : Action unit :=
  match rooms m with
  | Some l => for_each l _subscribe
  | None => skip
  end.

(** *** More vocabulary *)

(** Every effect of the action passes [P], in any world where [I]
    holds, and the action keeps [I]. *)
Definition yields (I : World -> Prop) (P : Effect -> bool) (a : Action unit)
  : Prop :=
  forall w, I w -> I (exec a w).1 /\ forallb P (exec a w).2 = true.

Definition is_SetTimeout (e : Effect) : bool :=
  match e with SetTimeout _ => true | _ => false end.

Definition is_Close (e : Effect) : bool :=
  match e with Close _ => true | _ => false end.

Definition is_Join (e : Effect) : bool :=
  match e with Send _ (Join _) => true | _ => false end.

(** The tasks that send frames. *)
Definition may_send (e : Event) : bool :=
  match e with
  | CallSubscribe _ | CallUnsubscribe _ | SocketOpens _ => true
  | _ => false
  end.

(** The tasks that take [room] out of the tracked rooms. *)
Definition forgets (room : string) (e : Event) : bool :=
  match e with
  | CallDisconnect => true
  | CallUnsubscribe r => String.eqb r room
  | _ => false
  end.

(** The room that a frame names. *)
Definition frame_room (frame : Frame) : string :=
  match frame with Join room | Leave room => room end.

Definition is_subscribe (e : Event) : bool :=
  match e with CallSubscribe _ => true | _ => false end.

(** The channel field for a type of socket. *)
Definition channel_of (type : SocketType) (d : Datastream) : option nat :=
  match type with
  | Main => socket d
  | Transaction => transactionSocket d
  end.

(** A string without its last character. *)
Fixpoint but_last (s : string) : string :=
  match s with
  | "" => ""
  | String c "" => ""
  | String c s => String c (but_last s)
  end.

(** A socket of the heap that the object may hold as a channel of
    [type]: it was constructed for that type, has opened, and has the
    handlers of [setupSocketListeners]. *)
Definition wired (type : SocketType) (w : World) (id : nat) : Prop :=
  exists ws, heap w !! id = Some ws /\ ws_type ws = type
             /\ listening ws = true /\ readyState ws <> CONNECTING.

(** Every channel of the object is a wired socket. *)
Definition all_wired (w : World) : Prop :=
  forall type id, channel_of type (this w) = Some id -> wired type w id.

(** Both channels were open and were disconnected, a new connection is
    open on the sockets 2 and 3; the close event of socket 0 is still to
    come. *)
Definition renewed_tasks : list Event :=
  [CallConnect; SocketOpens 0; SocketOpens 1; CallDisconnect;
   CallConnect; SocketOpens 2; SocketOpens 3].

Definition renewed : World := Eval vm_compute in after renewed_tasks.

(** A new object that does not reconnect. *)
Definition manual : DatastreamConfig :=
  {| cfg_autoReconnect := Some false; cfg_reconnectDelay := None;
     cfg_reconnectDelayMax := None; cfg_randomizationFactor := None |}.

End Datastream.

(** * Properties of the decoder *)

Section DecoderFacts.
Import EventProcessor WireLayout.

Lemma byte_val_range (b : byte) : 0 <= byte_val b < 256.
Proof.
  unfold byte_val. pose proof (Byte.to_N_bounded b). lia.
Qed.

Lemma byte_val_of_Z (z : Z) : byte_val (byte_of_Z z) = z mod 256.
Proof.
  unfold byte_val, byte_of_Z.
  pose proof (Z.mod_pos_bound z 256 ltac:(lia)) as Hm.
  destruct (Byte.of_N (Z.to_N (z mod 256))) as [b|] eqn:E.
  - apply Byte.to_of_N in E. rewrite E. lia.
  - apply Byte.of_N_None_iff in E. lia.
Qed.

Lemma getUint8_drop (data : list byte) (off : nat) :
  getUint8 data off =
  match drop off data with
  | b :: _ => Normal (byte_val b)
  | [] => Throw RangeError
  end.
Proof.
  unfold getUint8. rewrite <- (Nat.add_0_r off) at 1. rewrite <- lookup_drop.
  by destruct (drop off data).
Qed.

Lemma getUint32_drop (data : list byte) (off : nat) :
  getUint32 data off =
  match drop off data with
  | b0 :: b1 :: b2 :: b3 :: _ =>
      Normal (byte_val b0 + 2 ^ 8 * byte_val b1
              + 2 ^ 16 * byte_val b2 + 2 ^ 24 * byte_val b3)
  | _ => Throw RangeError
  end.
Proof.
  unfold getUint32. rewrite <- (Nat.add_0_r off) at 1.
  rewrite <- !lookup_drop.
  destruct (drop off data) as [|b0 [|b1 [|b2 [|b3 l]]]]; by simpl.
Qed.

Lemma getUint8_u8 (data rest : list byte) (off : nat) (z : Z) :
  drop off data = u8 z ++ rest -> 0 <= z < 256 ->
  getUint8 data off = Normal z.
Proof.
  intros Hd Hz. rewrite getUint8_drop, Hd. simpl.
  rewrite byte_val_of_Z. f_equal. apply Z.mod_small. lia.
Qed.

Lemma getUint32_u32le (data rest : list byte) (off : nat) (z : Z) :
  drop off data = u32le z ++ rest -> u32 z ->
  getUint32 data off = Normal z.
Proof.
  intros Hd Hz. rewrite getUint32_drop, Hd. simpl.
  rewrite !byte_val_of_Z. f_equal. unfold u32 in Hz.
  change (2 ^ 8) with 256. change (2 ^ 16) with 65536.
  change (2 ^ 24) with 16777216. change (2 ^ 32) with 4294967296 in Hz.
  Z.div_mod_to_equations. lia.
Qed.

Lemma drop_more {A : Type} (l front rest : list A) (off : nat) :
  drop off l = front ++ rest ->
  drop (off + List.length front) l = rest.
Proof.
  intros H. rewrite <- drop_drop, H.
  by rewrite drop_app_length.
Qed.

(** The first loop reads the wallet table of the layout. *)
Lemma read_wallets_layout (data : list byte) (wallets : list (list byte)) :
  forall (off : nat) (rest : list byte) (acc : list string),
    drop off data = concat (wallet_entry <$> wallets) ++ rest ->
    Forall (fun w => (List.length w <= 255)%nat) wallets ->
    read_wallets data (List.length wallets) off acc
    = Normal ((off + List.length (concat (wallet_entry <$> wallets)))%nat,
              acc ++ (TextDecoder.decode <$> wallets)).
Proof.
  induction wallets as [|w wallets IH]; intros off rest acc Hd Hall.
  - simpl. by rewrite Nat.add_0_r, app_nil_r.
  - apply Forall_cons in Hall as [Hw Hall].
    rewrite fmap_cons in Hd. simpl in Hd.
    change (read_wallets data (List.length (w :: wallets)) off acc)
      with (getUint8 data off ≫= fun length =>
              read_wallets data (List.length wallets)
                (off + 1 + Z.to_nat length)
                (acc ++ [TextDecoder.decode
                           (slice data (off + 1) (off + 1 + Z.to_nat length))])).
    erewrite (getUint8_u8 data _ off (Z.of_nat (List.length w)));
      [| exact Hd | lia].
    simpl. rewrite Nat2Z.id.
    assert (Hd1 : drop (off + 1) data
                  = w ++ concat (wallet_entry <$> wallets) ++ rest).
    { rewrite <- drop_drop, Hd. simpl. by rewrite <- app_assoc. }
    unfold slice. replace (off + 1 + List.length w - (off + 1))%nat
      with (List.length w) by lia.
    rewrite Hd1, take_app_length.
    erewrite IH; [| by apply drop_more in Hd1 | done].
    rewrite <- app_assoc. simpl. rewrite length_app.
    do 2 f_equal. unfold fmap. lia.
Qed.

Lemma trade_record_length (t : Trade) : List.length (trade_record t) = 21%nat.
Proof. reflexivity. Qed.

(** The second loop reads the trade records of the layout. *)
Lemma read_trades_layout (data : list byte) (table : list string)
    (trades : list Trade) :
  forall (off : nat) (rest : list byte)
         (acc : list (ProcessedEvent f32 Z)),
    drop off data = concat (trade_record <$> trades) ++ rest ->
    Forall trade_ok trades ->
    read_trades data table (List.length trades) off acc
    = Normal ((off + List.length (concat (trade_record <$> trades)))%nat,
              acc ++ (event_of table <$> trades)).
Proof.
  induction trades as [|t trades IH]; intros off rest acc Hd Hall.
  - simpl. by rewrite Nat.add_0_r, app_nil_r.
  - apply Forall_cons in Hall as [(Hi & Ha & Hp & Hv & Hc & Hs) Hall].
    rewrite fmap_cons, concat_cons, <- app_assoc in Hd.
    assert (H4 : drop (off + 4) data
                 = u32le (tr_amount t) ++ drop 8 (drop off data)).
    { rewrite <- drop_drop, Hd. reflexivity. }
    assert (H8 : drop (off + 8) data
                 = u32le (tr_priceUsd t) ++ drop 12 (drop off data)).
    { rewrite <- drop_drop, Hd. reflexivity. }
    assert (H12 : drop (off + 12) data
                  = u32le (tr_volume t) ++ drop 16 (drop off data)).
    { rewrite <- drop_drop, Hd. reflexivity. }
    assert (H16 : drop (off + 16) data
                  = u8 (typeCode t) ++ drop 17 (drop off data)).
    { rewrite <- drop_drop, Hd. reflexivity. }
    assert (H17 : drop (off + 17) data
                  = u32le (timeSeconds t) ++ drop 21 (drop off data)).
    { rewrite <- drop_drop, Hd. reflexivity. }
    assert (H0 : drop off data
                 = u32le (walletIndex t) ++ drop 4 (drop off data)).
    { rewrite Hd. reflexivity. }
    cbn [List.length read_trades]. unfold getFloat32.
    rewrite (getUint32_u32le _ _ _ _ H0 Hi). cbn [mbind completion_bind].
    rewrite (getUint32_u32le _ _ _ _ H4 Ha). cbn [mbind completion_bind].
    rewrite (getUint32_u32le _ _ _ _ H8 Hp). cbn [mbind completion_bind].
    rewrite (getUint32_u32le _ _ _ _ H12 Hv). cbn [mbind completion_bind].
    rewrite (getUint8_u8 _ _ _ _ H16 Hc). cbn [mbind completion_bind].
    rewrite (getUint32_u32le _ _ _ _ H17 Hs). cbn [mbind completion_bind].
    erewrite IH; [| | done].
    + rewrite !fmap_cons, concat_cons, length_app, trade_record_length.
      rewrite <- app_assoc. do 2 f_equal. lia.
    + rewrite <- (trade_record_length t). eapply drop_more. exact Hd.
Qed.

(** Decoding an encoded payload, whatever follows it in the buffer. *)
Lemma decode_from_layout (wallets : list (list byte)) (trades : list Trade)
    (rest : list byte) :
  well_formed wallets trades ->
  decode_from (encode wallets trades ++ rest)
  = Normal (List.length (encode wallets trades),
            event_of (TextDecoder.decode <$> wallets) <$> trades).
Proof.
  intros (Hwc & Hw & Htc & Ht). unfold decode_from, encode.
  set (W := concat (wallet_entry <$> wallets)).
  set (T := concat (trade_record <$> trades)).
  set (data := (_ ++ rest)).
  assert (H0 : drop 0 data
               = u32le (Z.of_nat (List.length wallets))
                 ++ (W ++ u32le (Z.of_nat (List.length trades)) ++ T ++ rest)).
  { subst data. simpl. by rewrite <- !app_assoc. }
  rewrite (getUint32_u32le _ _ _ _ H0 Hwc). cbn [mbind completion_bind].
  rewrite Nat2Z.id.
  assert (H4 : drop 4 data
               = W ++ (u32le (Z.of_nat (List.length trades)) ++ T ++ rest)).
  { apply (drop_more _ _ _ 0) in H0. exact H0. }
  rewrite (read_wallets_layout _ _ _ _ [] H4 Hw). cbn [mbind completion_bind].
  fold W.
  assert (H5 : drop (4 + List.length W) data
               = u32le (Z.of_nat (List.length trades)) ++ (T ++ rest)).
  { by apply drop_more in H4. }
  rewrite (getUint32_u32le _ _ _ _ H5 Htc). cbn [mbind completion_bind].
  rewrite Nat2Z.id.
  assert (H6 : drop (4 + List.length W + 4) data = T ++ rest).
  { by apply drop_more in H5. }
  rewrite (read_trades_layout _ _ _ _ _ [] H6 Ht). fold T.
  simpl. do 2 f_equal. rewrite !length_app. simpl. lia.
Qed.

(** *** What a successful decode has read *)

Lemma getUint8_bound (data : list byte) (off : nat) (v : Z) :
  getUint8 data off = Normal v -> (off + 1 <= List.length data)%nat.
Proof.
  unfold getUint8. destruct (data !! off) eqn:E; [|done].
  intros _. apply lookup_lt_Some in E. lia.
Qed.

Lemma getUint32_bound (data : list byte) (off : nat) (v : Z) :
  getUint32 data off = Normal v -> (off + 4 <= List.length data)%nat.
Proof.
  unfold getUint32.
  destruct (data !! off); [|done]. destruct (data !! (off + 1)%nat); [|done].
  destruct (data !! (off + 2)%nat); [|done].
  destruct (data !! (off + 3)%nat) eqn:E; [|done].
  intros _. apply lookup_lt_Some in E. lia.
Qed.

Lemma getUint8_take (data : list byte) (k off : nat) (v : Z) :
  getUint8 (take k data) off = Normal v -> getUint8 data off = Normal v.
Proof.
  unfold getUint8. destruct (take k data !! off) eqn:E; [|done].
  apply lookup_take_Some in E as [-> _]. done.
Qed.

Lemma getUint32_take (data : list byte) (k off : nat) (v : Z) :
  getUint32 (take k data) off = Normal v -> getUint32 data off = Normal v.
Proof.
  unfold getUint32.
  destruct (take k data !! off) eqn:E0; [|done].
  destruct (take k data !! (off + 1)%nat) eqn:E1; [|done].
  destruct (take k data !! (off + 2)%nat) eqn:E2; [|done].
  destruct (take k data !! (off + 3)%nat) eqn:E3; [|done].
  apply lookup_take_Some in E0 as [-> _]. apply lookup_take_Some in E1 as [-> _].
  apply lookup_take_Some in E2 as [-> _]. apply lookup_take_Some in E3 as [-> _].
  done.
Qed.

Lemma getUint8_throws (data : list byte) (off : nat) (e : JsError) :
  getUint8 data off = Throw e -> e = RangeError.
Proof. unfold getUint8. destruct (data !! off); congruence. Qed.

Lemma getUint32_throws (data : list byte) (off : nat) (e : JsError) :
  getUint32 data off = Throw e -> e = RangeError.
Proof.
  unfold getUint32.
  destruct (data !! off), (data !! (off + 1)%nat),
    (data !! (off + 2)%nat), (data !! (off + 3)%nat); congruence.
Qed.

(** Splits a hypothesis on a bind of the completion monad. *)
Ltac bind_cases H :=
  match type of H with
  | (?m ≫= _) = _ =>
      let E := fresh "E" in
      destruct m eqn:E; cbn [mbind completion_bind] in H
  end.

Lemma read_wallets_take (data : list byte) (k : nat) :
  forall (n off : nat) (acc acc' : list string) (o : nat) (ws : list string),
    read_wallets (take k data) n off acc = Normal (o, ws) ->
    exists ws', read_wallets data n off acc' = Normal (o, ws').
Proof.
  induction n as [|n IH]; intros off acc acc' o ws H.
  - simpl in *. injection H as <- _. eauto.
  - cbn [read_wallets] in *. bind_cases H; [|done].
    apply getUint8_take in E. rewrite E. cbn [mbind completion_bind].
    eapply IH. exact H.
Qed.

Lemma read_wallets_throws (data : list byte) :
  forall (n off : nat) (acc : list string) (e : JsError),
    read_wallets data n off acc = Throw e -> e = RangeError.
Proof.
  induction n as [|n IH]; intros off acc e H; [done|].
  cbn [read_wallets] in H. bind_cases H.
  - eapply IH. exact H.
  - injection H as <-. by eapply getUint8_throws.
Qed.

Lemma read_trades_take (data : list byte) (k : nat) :
  forall (n off : nat) (table table' : list string)
         (acc acc' : list (ProcessedEvent f32 Z)) (o : nat)
         (evs : list (ProcessedEvent f32 Z)),
    read_trades (take k data) table n off acc = Normal (o, evs) ->
    exists evs', read_trades data table' n off acc' = Normal (o, evs').
Proof.
  induction n as [|n IH]; intros off table table' acc acc' o evs H.
  - simpl in *. injection H as <- _. eauto.
  - cbn [read_trades] in *. unfold getFloat32 in *.
    do 6 (bind_cases H; [|done]).
    apply getUint32_take in E, E0, E1, E2, E4. apply getUint8_take in E3.
    rewrite E, E0, E1, E2, E3, E4. cbn [mbind completion_bind].
    eapply IH. exact H.
Qed.

Lemma read_trades_bound (data : list byte) (table : list string) :
  forall (n off : nat) (acc : list (ProcessedEvent f32 Z)) (o : nat)
         (evs : list (ProcessedEvent f32 Z)),
    read_trades data table n off acc = Normal (o, evs) ->
    (off <= List.length data)%nat -> (o <= List.length data)%nat.
Proof.
  induction n as [|n IH]; intros off acc o evs H Hoff.
  - simpl in H. by injection H as <- _.
  - cbn [read_trades] in H. unfold getFloat32 in H.
    do 6 (bind_cases H; [|done]).
    apply getUint32_bound in E4. eapply IH; [exact H | lia].
Qed.

Lemma read_trades_throws (data : list byte) (table : list string) :
  forall (n off : nat) (acc : list (ProcessedEvent f32 Z)) (e : JsError),
    read_trades data table n off acc = Throw e -> e = RangeError.
Proof.
  induction n as [|n IH]; intros off acc e H; [done|].
  cbn [read_trades] in H. unfold getFloat32 in H.
  repeat (bind_cases H;
          [| injection H as <-;
             first [by eapply getUint32_throws | by eapply getUint8_throws]]).
  eapply IH. exact H.
Qed.

(** A decode that succeeds has stayed inside the buffer. *)
Lemma decode_from_bound (data : list byte) (o : nat)
    (evs : list (ProcessedEvent f32 Z)) :
  decode_from data = Normal (o, evs) -> (o <= List.length data)%nat.
Proof.
  unfold decode_from. intros H.
  bind_cases H; [|done]. bind_cases H; [|done].
  destruct a0 as [offset wallets]. bind_cases H; [|done].
  apply getUint32_bound in E1. eapply read_trades_bound; [exact H | lia].
Qed.

(** A decode that succeeds on a prefix of a buffer stops at the same
    offset on the buffer. *)
Lemma decode_from_take (data : list byte) (k o : nat)
    (evs : list (ProcessedEvent f32 Z)) :
  decode_from (take k data) = Normal (o, evs) ->
  exists evs', decode_from data = Normal (o, evs').
Proof.
  unfold decode_from. intros H.
  bind_cases H; [|done]. bind_cases H; [|done].
  destruct a0 as [offset wallets]. bind_cases H; [|done].
  apply getUint32_take in E, E1. rewrite E. cbn [mbind completion_bind].
  eapply (read_wallets_take _ _ _ _ _ []) in E0 as [ws' ->].
  cbn [mbind completion_bind]. rewrite E1. cbn [mbind completion_bind].
  eapply read_trades_take. exact H.
Qed.

Lemma decode_from_throws (data : list byte) (e : JsError) :
  decode_from data = Throw e -> e = RangeError.
Proof.
  unfold decode_from. intros H.
  bind_cases H; [| injection H as <-; by eapply getUint32_throws].
  bind_cases H; [| injection H as <-; by eapply read_wallets_throws].
  destruct a0 as [offset wallets].
  bind_cases H; [| injection H as <-; by eapply getUint32_throws].
  by eapply read_trades_throws.
Qed.

(** *** A successful decode has read a complete layout *)

Lemma byte_of_Z_mod (z : Z) (b : byte) :
  z mod 256 = byte_val b -> byte_of_Z z = b.
Proof.
  intros H. unfold byte_of_Z. rewrite H. unfold byte_val.
  by rewrite N2Z.id, Byte.of_to_N.
Qed.

Lemma u32le_of_bytes (b0 b1 b2 b3 : byte) :
  u32le (byte_val b0 + 2 ^ 8 * byte_val b1
         + 2 ^ 16 * byte_val b2 + 2 ^ 24 * byte_val b3)
  = [b0; b1; b2; b3]
  /\ u32 (byte_val b0 + 2 ^ 8 * byte_val b1
          + 2 ^ 16 * byte_val b2 + 2 ^ 24 * byte_val b3).
Proof.
  pose proof (byte_val_range b0). pose proof (byte_val_range b1).
  pose proof (byte_val_range b2). pose proof (byte_val_range b3).
  unfold u32le, u32.
  change (2 ^ 8) with 256. change (2 ^ 16) with 65536.
  change (2 ^ 24) with 16777216. change (2 ^ 32) with 4294967296.
  split; [|lia].
  repeat f_equal; apply byte_of_Z_mod; Z.div_mod_to_equations; lia.
Qed.

Lemma getUint32_inv (data : list byte) (off : nat) (v : Z) :
  getUint32 data off = Normal v ->
  drop off data = u32le v ++ drop (off + 4) data /\ u32 v.
Proof.
  rewrite getUint32_drop, <- (drop_drop data 4 off).
  destruct (drop off data) as [|b0 [|b1 [|b2 [|b3 rest]]]]; try done.
  intros [= <-]. destruct (u32le_of_bytes b0 b1 b2 b3) as [-> Hr].
  by split.
Qed.

Lemma getUint8_inv (data : list byte) (off : nat) (v : Z) :
  getUint8 data off = Normal v ->
  drop off data = u8 v ++ drop (off + 1) data /\ 0 <= v < 256.
Proof.
  rewrite getUint8_drop, <- (drop_drop data 1 off).
  destruct (drop off data) as [|b rest]; [done|].
  intros [= <-]. pose proof (byte_val_range b). split; [|done].
  unfold u8. simpl. f_equal. symmetry. apply byte_of_Z_mod, Z.mod_small. lia.
Qed.

Lemma read_wallets_mono (data : list byte) :
  forall (n off : nat) (acc : list string) (o : nat) (ws : list string),
    read_wallets data n off acc = Normal (o, ws) -> (off <= o)%nat.
Proof.
  induction n as [|n IH]; intros off acc o ws H.
  - simpl in H. injection H as <- _. lia.
  - cbn [read_wallets] in H. bind_cases H; [|done].
    apply IH in H. lia.
Qed.

Lemma read_wallets_sound (data : list byte) :
  forall (n off : nat) (acc : list string) (o : nat) (ws : list string),
    read_wallets data n off acc = Normal (o, ws) ->
    (o <= List.length data)%nat ->
    exists wallets : list (list byte),
      List.length wallets = n
      /\ Forall (fun w => (List.length w <= 255)%nat) wallets
      /\ drop off data = concat (wallet_entry <$> wallets) ++ drop o data
      /\ ws = acc ++ (TextDecoder.decode <$> wallets).
Proof.
  induction n as [|n IH]; intros off acc o ws H Ho.
  - simpl in H. injection H as <- <-. exists []. simpl.
    by rewrite app_nil_r.
  - cbn [read_wallets] in H. bind_cases H; [|done].
    apply getUint8_inv in E as [Hd Ha].
    pose proof (read_wallets_mono _ _ _ _ _ _ H) as Hmono.
    destruct (IH _ _ _ _ H Ho) as (wallets & Hlen & Hall & Hrest & Hws).
    set (w := slice data (off + 1) (off + 1 + Z.to_nat a)) in *.
    assert (Hw : List.length w = Z.to_nat a).
    { subst w. unfold slice. rewrite length_take, length_drop. lia. }
    assert (Hsplit : drop (off + 1) data
                     = w ++ drop (off + 1 + Z.to_nat a) data).
    { subst w. unfold slice.
      replace (off + 1 + Z.to_nat a - (off + 1))%nat with (Z.to_nat a) by lia.
      by rewrite <- (drop_drop data (Z.to_nat a) (off + 1)), take_drop. }
    exists (w :: wallets). split; [simpl; lia|]. split; [|split].
    + apply Forall_cons. split; [lia | done].
    + rewrite fmap_cons, concat_cons. unfold wallet_entry at 1.
      rewrite Hw, Z2Nat.id by lia.
      rewrite Hd, Hsplit, Hrest. by rewrite <- !app_assoc.
    + rewrite Hws, fmap_cons, <- app_assoc. reflexivity.
Qed.

Lemma read_trades_sound (data : list byte) (table : list string) :
  forall (n off : nat) (acc : list (ProcessedEvent f32 Z)) (o : nat)
         (evs : list (ProcessedEvent f32 Z)),
    read_trades data table n off acc = Normal (o, evs) ->
    exists trades : list Trade,
      List.length trades = n
      /\ Forall trade_ok trades
      /\ drop off data = concat (trade_record <$> trades) ++ drop o data
      /\ evs = acc ++ (event_of table <$> trades).
Proof.
  induction n as [|n IH]; intros off acc o evs H.
  - simpl in H. injection H as <- <-. exists []. simpl.
    by rewrite app_nil_r.
  - cbn [read_trades] in H. unfold getFloat32 in H.
    do 6 (bind_cases H; [|done]).
    apply getUint32_inv in E as [H0 Hi], E0 as [H4 Ha], E1 as [H8 Hp],
        E2 as [H12 Hv], E4 as [H17 Hs].
    apply getUint8_inv in E3 as [H16 Hc].
    destruct (IH _ _ _ _ H) as (trades & Hlen & Hall & Hrest & Hevs).
    set (t := {| walletIndex := a; tr_amount := a0; tr_priceUsd := a1;
                 tr_volume := a2; typeCode := a3; timeSeconds := a4 |}).
    exists (t :: trades). split; [simpl; lia|]. split; [|split].
    + apply Forall_cons. split; [unfold trade_ok; cbn; tauto | done].
    + rewrite fmap_cons, concat_cons. unfold trade_record. cbn [t walletIndex
        tr_amount tr_priceUsd tr_volume typeCode timeSeconds].
      rewrite H0.
      replace (off + 4 + 4)%nat with (off + 8)%nat in H4 by lia.
      replace (off + 8 + 4)%nat with (off + 12)%nat in H8 by lia.
      replace (off + 12 + 4)%nat with (off + 16)%nat in H12 by lia.
      replace (off + 16 + 1)%nat with (off + 17)%nat in H16 by lia.
      replace (off + 17 + 4)%nat with (off + 21)%nat in H17 by lia.
      rewrite H4, H8, H12, H16, H17, Hrest. by rewrite <- !app_assoc.
    + rewrite Hevs, fmap_cons, <- app_assoc. reflexivity.
Qed.

(** A decode that succeeds has read a complete payload in the wire layout
    from the start of the buffer. *)
Lemma decode_from_sound (data : list byte) (o : nat)
    (evs : list (ProcessedEvent f32 Z)) :
  decode_from data = Normal (o, evs) ->
  exists (wallets : list (list byte)) (trades : list Trade),
    well_formed wallets trades
    /\ data = encode wallets trades ++ drop o data
    /\ evs = event_of (TextDecoder.decode <$> wallets) <$> trades.
Proof.
  unfold decode_from. intros H.
  bind_cases H; [|done]. bind_cases H; [|done].
  destruct a0 as [offset table]. bind_cases H; [|done].
  pose proof (getUint32_bound _ _ _ E1) as Hb.
  apply getUint32_inv in E as [H0 Hwc], E1 as [H1 Htc].
  destruct (read_wallets_sound _ _ _ _ _ _ E0 ltac:(lia))
    as (wallets & Hwl & Hwall & Hwd & Htable).
  destruct (read_trades_sound _ _ _ _ _ _ _ H)
    as (trades & Htl & Htall & Htd & Hevs).
  exists wallets, trades. split; [|split].
  - unfold well_formed. rewrite Hwl, Htl, !Z2Nat.id by (unfold u32 in *; lia).
    done.
  - unfold encode. rewrite Hwl, Htl, !Z2Nat.id by (unfold u32 in *; lia).
    rewrite <- !app_assoc, <- Htd, <- H1, <- Hwd. exact H0.
  - rewrite Hevs, Htable. reflexivity.
Qed.

Lemma decodeBinaryEvents_layout (wallets : list (list byte))
    (trades : list Trade) :
  well_formed wallets trades ->
  decodeBinaryEvents (encode wallets trades)
  = Normal (event_of (TextDecoder.decode <$> wallets) <$> trades).
Proof.
  intros Hwf. unfold decodeBinaryEvents.
  rewrite <- (app_nil_r (encode wallets trades)).
  rewrite (decode_from_layout _ _ [] Hwf). reflexivity.
Qed.

Lemma decodeBinaryEvents_truncated (wallets : list (list byte))
    (trades : list Trade) (n : nat) :
  well_formed wallets trades ->
  (n < List.length (encode wallets trades))%nat ->
  decodeBinaryEvents (take n (encode wallets trades)) = Throw RangeError.
Proof.
  intros Hwf Hn. unfold decodeBinaryEvents.
  destruct (decode_from (take n (encode wallets trades))) as [[o evs]|e] eqn:E.
  - exfalso. pose proof (decode_from_bound _ _ _ E) as Hb.
    apply decode_from_take in E as [evs' E].
    rewrite <- (app_nil_r (encode wallets trades)) in E at 1.
    rewrite (decode_from_layout _ _ [] Hwf) in E.
    assert (Ho : o = List.length (encode wallets trades)) by congruence.
    rewrite length_take in Hb. lia.
  - apply decode_from_throws in E as ->. reflexivity.
Qed.

Lemma sample_well_formed : well_formed sample_wallets sample_trades.
Proof.
  unfold well_formed, u32, sample_wallets, sample_trades.
  repeat split; try (simpl; lia).
  - repeat constructor; simpl; lia.
  - repeat constructor; simpl; lia.
Qed.

(** A buffer in the layout has the two counts, at least one byte for
    each wallet and 21 bytes for each trade. *)
Lemma encode_at_least (wallets : list (list byte)) (trades : list Trade) :
  (8 + List.length wallets + 21 * List.length trades
   <= List.length (encode wallets trades))%nat.
Proof.
  unfold encode. rewrite !length_app.
  assert (Hw : (List.length wallets
                <= List.length (concat (wallet_entry <$> wallets)))%nat).
  { induction wallets as [|w wallets IH]; [done|].
    rewrite fmap_cons. cbn [concat]. rewrite length_app.
    unfold wallet_entry at 1. rewrite length_app.
    cbn [u8 List.length]. lia. }
  assert (Ht : List.length (concat (trade_record <$> trades))
               = (21 * List.length trades)%nat).
  { induction trades as [|t trades IH]; [done|].
    rewrite fmap_cons. cbn [concat]. rewrite length_app, IH.
    rewrite trade_record_length. cbn [List.length]. lia. }
  rewrite Ht. cbn [u32le List.length]. lia.
Qed.

End DecoderFacts.

(** * The claims about the decoder *)

Section DecoderClaims.
Import EventProcessor WireLayout.

(** The sample payload, byte by byte. *)
Lemma sample_payload_bytes :
  encode sample_wallets sample_trades
  = [x02; x00; x00; x00;
     x01; x41;
     x02; x42; x42;
     x02; x00; x00; x00;
     x00; x00; x00; x00;  x00; x00; x80; x3f;  x00; x00; x20; x40;
     x00; x00; x20; x41;  x00;  xe8; x03; x00; x00;
     x01; x00; x00; x00;  x00; x00; x40; x40;  x66; x66; x26; x40;
     x00; x00; xa0; x40;  x01;  xe9; x03; x00; x00].
Proof. reflexivity. Qed.

(** C3. For every buffer in the wire layout (every field within its
    width), [decodeBinaryEvents] returns one event per trade record, in
    order; the time of an event is timeSeconds * 1000, its wallet is the
    entry of the decoded wallet table at walletIndex, its type is "buy" for
    typeCode 0 and "sell" otherwise. In particular the wallets "A", "BB"
    with the trades (0, 1.0, 2.5, 10.0, buy, 1000) and
    (1, 3.0, 2.6, 5.0, sell, 1001) decode to two events with times
    1000000 and 1001000 and wallets "A" and "BB". *)
Theorem decoder_reads_layout :
  (forall (wallets : list (list byte)) (trades : list Trade),
      well_formed wallets trades ->
      decodeBinaryEvents (encode wallets trades)
      = Normal (event_of (TextDecoder.decode <$> wallets) <$> trades))
  /\ (exists e1 e2 : ProcessedEvent f32 Z,
         decodeBinaryEvents (encode sample_wallets sample_trades)
         = Normal [e1; e2]
         /\ time e1 = 1000000 /\ time e2 = 1001000
         /\ wallet e1 = Some "A" /\ wallet e2 = Some "BB"
         /\ type e1 = "buy" /\ type e2 = "sell").
Proof.
  split.
  - intros wallets trades Hwf. by apply decodeBinaryEvents_layout.
  - rewrite (decodeBinaryEvents_layout _ _ sample_well_formed).
    do 2 eexists. repeat split; reflexivity.
Qed.

Lemma decoder_reads_layout_witness :
  well_formed sample_wallets sample_trades
  /\ decodeBinaryEvents (encode sample_wallets sample_trades)
     = Normal (event_of (TextDecoder.decode <$> sample_wallets)
                 <$> sample_trades).
Proof.
  split.
  - unfold well_formed, u32. repeat split; try (simpl; lia);
      repeat constructor; simpl; lia.
  - apply (proj1 decoder_reads_layout).
    unfold well_formed, u32. repeat split; try (simpl; lia);
      repeat constructor; simpl; lia.
Defined.

(** C4, as the claim states it, fails: a buffer with one wallet whose
    only trade has walletIndex 5 is decoded without an error, the wallet
    of the event being undefined. *)
Lemma decoder_accepts_stray_index :
  Forall (fun t => Z.of_nat (List.length stray_wallets) <= walletIndex t)
    stray_trades
  /\ decodeBinaryEvents (encode stray_wallets stray_trades)
     = Normal [ {| wallet := None; amount := 0x3F800000;
                   priceUsd := 0x40200000; volume := 0x41200000;
                   type := "buy"; time := 1000000 |} ].
Proof.
  split.
  - repeat constructor. simpl. lia.
  - vm_compute. reflexivity.
Qed.

(** C4, amended. A buffer that stops before the end of what its counts
    declare (a proper prefix of a buffer in the wire layout) makes the
    whole call throw a RangeError, and nothing is returned. Running out of
    bytes is the only reason to reject: every buffer either makes the call
    throw a RangeError or begins with a complete payload in the layout, and
    then it decodes to the trades of that payload whatever follows it. In
    particular a walletIndex that is not below walletCount is not rejected:
    the buffer decodes, and the wallet of that event is undefined. *)
Theorem decoder_rejects_truncation (wallets : list (list byte))
    (trades : list Trade) (data : list byte) :
  well_formed wallets trades ->
  (forall n : nat,
      (n < List.length (encode wallets trades))%nat ->
      decodeBinaryEvents (take n (encode wallets trades)) = Throw RangeError)
  /\ (decodeBinaryEvents data = Throw RangeError
      \/ exists (ws : list (list byte)) (ts : list Trade) (rest : list byte),
           well_formed ws ts /\ data = encode ws ts ++ rest
           /\ decodeBinaryEvents data
              = Normal (event_of (TextDecoder.decode <$> ws) <$> ts))
  /\ (exists events : list (ProcessedEvent f32 Z),
         decodeBinaryEvents (encode wallets trades ++ data) = Normal events
         /\ forall (i : nat) (t : Trade),
             trades !! i = Some t ->
             Z.of_nat (List.length wallets) <= walletIndex t ->
             exists e, events !! i = Some e /\ wallet e = None).
Proof.
  intros Hwf. split; [|split].
  - intros n Hn. by apply decodeBinaryEvents_truncated.
  - unfold decodeBinaryEvents.
    destruct (decode_from data) as [[o evs]|e] eqn:E.
    + right. destruct (decode_from_sound _ _ _ E) as (ws & ts & Hws & Hd & ->).
      by exists ws, ts, (drop o data).
    + left. by apply decode_from_throws in E as ->.
  - eexists. split.
    + unfold decodeBinaryEvents. by rewrite (decode_from_layout _ _ data Hwf).
    + intros i t Ht Hidx. eexists. split.
      * rewrite list_lookup_fmap, Ht. reflexivity.
      * simpl. apply lookup_ge_None. rewrite length_fmap. lia.
Qed.

Lemma decoder_rejects_truncation_witness :
  decodeBinaryEvents (take 17 (encode stray_wallets stray_trades))
  = Throw RangeError.
Proof.
  refine (proj1 (decoder_rejects_truncation stray_wallets stray_trades [] _)
            17%nat _).
  - unfold well_formed, u32. repeat split; try (simpl; lia);
      repeat constructor; simpl; lia.
  - simpl. lia.
Defined.

(** C7, as the claim states it, fails: decoding the empty buffer throws
    a RangeError. *)
Lemma decoder_throws_on_empty_buffer :
  decodeBinaryEvents [] = Throw RangeError.
Proof. reflexivity. Qed.

(** C7, amended. A buffer of fewer than eight bytes, the empty buffer
    among them, makes the decoder throw a RangeError: with fewer than four
    bytes at the read of walletCount, otherwise before tradeCount has been
    read. The shortest buffer that decodes has eight bytes, a walletCount
    of 0 and a tradeCount of 0, and it decodes to the empty sequence; no
    other buffer of at most eight bytes decodes to anything. *)
Theorem decoder_needs_both_counts (data : list byte) :
  (List.length data < 8)%nat ->
  decodeBinaryEvents data = Throw RangeError
  /\ ((List.length data < 4)%nat -> getUint32 data 0 = Throw RangeError)
  /\ decodeBinaryEvents (encode [] []) = Normal []
  /\ List.length (encode [] []) = 8%nat
  /\ forall (other : list byte) (events : list (ProcessedEvent f32 Z)),
       (List.length other <= 8)%nat ->
       decodeBinaryEvents other = Normal events ->
       other = encode [] [] /\ events = [].
Proof.
  assert (Hshort : forall (other : list byte)
                     (events : list (ProcessedEvent f32 Z)),
             (List.length other <= 8)%nat ->
             decodeBinaryEvents other = Normal events ->
             other = encode [] [] /\ events = []).
  { intros other events Hlen. unfold decodeBinaryEvents.
    destruct (decode_from other) as [[o evs]|e] eqn:E; [|done].
    intros [= <-].
    destruct (decode_from_sound _ _ _ E) as (ws & ts & _ & Hd & ->).
    pose proof (encode_at_least ws ts) as Hmin.
    pose proof (f_equal List.length Hd) as Hl. rewrite length_app in Hl.
    destruct ws; [|cbn [List.length] in Hmin; lia].
    destruct ts; [|cbn [List.length] in Hmin; lia].
    destruct (drop o other); [|cbn [List.length] in Hl, Hmin; lia].
    rewrite app_nil_r in Hd. done. }
  intros Hlen. split; [|split; [|split; [|split]]];
    [| | reflexivity | reflexivity | exact Hshort].
  - destruct (decodeBinaryEvents data) as [events|e] eqn:E.
    + destruct (Hshort data events ltac:(lia) E) as [-> _].
      simpl in Hlen. lia.
    + unfold decodeBinaryEvents in E.
      destruct (decode_from data) as [[o evs]|e'] eqn:E'; [done|].
      injection E as <-. by apply decode_from_throws in E' as ->.
  - intros H4. destruct (getUint32 data 0) eqn:E.
    + apply getUint32_bound in E. lia.
    + by apply getUint32_throws in E as ->.
Qed.

Lemma decoder_needs_both_counts_witness :
  decodeBinaryEvents [] = Throw RangeError
  /\ decodeBinaryEvents (encode [] []) = Normal []
  /\ List.length (encode [] []) = 8%nat.
Proof.
  destruct (decoder_needs_both_counts []) as (H1 & _ & H2 & H3 & _).
  - simpl. lia.
  - by repeat split.
Defined.

End DecoderClaims.

(** * Properties of the aggregator *)

Section AggregatorFacts.
Import EventProcessor.
Context {number : Type}.
Variables (num_add num_sub num_mul num_div : number -> number -> number).
Variable num_gt : number -> number -> bool.
Variable num_of_Z : Z -> number.
Variable float32 : f32 -> number.
Variable toString : number -> string.
Variable parseFloat : string -> number.

Abbreviation Stats := (gmap string (@Period number)).
Abbreviation touch' := (touch num_add toString parseFloat).
Abbreviation each_timeframe' := (each_timeframe num_add num_gt num_of_Z toString parseFloat).
Abbreviation process_event' :=
  (process_event num_add num_sub num_div num_gt num_of_Z toString parseFloat).
Abbreviation for_range' :=
  (for_range num_add num_sub num_div num_gt num_of_Z toString parseFloat).
Abbreviation chunks' :=
  (chunks num_add num_sub num_mul num_div num_gt num_of_Z toString parseFloat).
Abbreviation transform' := (transform num_sub num_mul num_div num_gt num_of_Z).
Abbreviation processEvents' :=
  (processEvents num_add num_sub num_mul num_div num_gt num_of_Z float32
     toString parseFloat).
Abbreviation processEventsAsync' :=
  (processEventsAsync num_add num_sub num_mul num_div num_gt num_of_Z float32
     toString parseFloat).

Lemma boundaries_sorted : timeframeBoundaries = timeframes.
Proof. reflexivity. Qed.

Lemma foldl_insert_covers (p : @Period number) (l : list (string * Z)) :
  forall (stats : Stats) (key : string),
    key ∈ l.*1 \/ is_Some (stats !! key) ->
    is_Some (foldl (fun s b => <[b.1 := p]> s) stats l !! key).
Proof.
  induction l as [|b l IH]; intros stats key H; simpl.
  - destruct H as [H|H]; [by apply elem_of_nil in H | done].
  - apply IH. destruct H as [H|H].
    + rewrite fmap_cons in H. apply elem_of_cons in H as [->|H]; [|by left].
      right. rewrite lookup_insert_eq. eauto.
    + right. apply lookup_insert_is_Some. destruct (decide (b.1 = key)); auto.
Qed.

Lemma init_stats_covers : covers (init_stats num_of_Z).
Proof.
  intros key Hkey. unfold init_stats. apply foldl_insert_covers.
  left. by rewrite boundaries_sorted.
Qed.

Lemma each_timeframe_total (timeDiff : number) (event : Event)
    (bounds : list (string * Z)) :
  forall stats : Stats,
    (forall b, b ∈ bounds -> is_Some (stats !! b.1)) ->
    exists stats',
      each_timeframe' bounds timeDiff event stats = Normal stats'
      /\ forall key, is_Some (stats !! key) -> is_Some (stats' !! key).
Proof.
  induction bounds as [|[key seconds] bounds IH]; intros stats Hall.
  - exists stats. by split.
  - cbn [each_timeframe].
    destruct (num_gt timeDiff (num_of_Z seconds)).
    + apply IH. intros b Hb. apply Hall. by right.
    + destruct (Hall (key, seconds)) as [period Hp]; [by left|].
      simpl in Hp. rewrite Hp.
      destruct (IH (<[key := touch' event period]> stats)) as (stats' & -> & Hkeep).
      * intros b Hb. apply lookup_insert_is_Some.
        destruct (decide (key = b.1)); [by left|].
        right. split; [done|]. apply Hall. by right.
      * exists stats'. split; [done|]. intros k Hk. apply Hkeep.
        apply lookup_insert_is_Some. destruct (decide (key = k)); auto.
Qed.

Lemma process_event_total (currentTimestamp : number) (event : Event)
    (stats : Stats) :
  covers stats ->
  exists stats',
    process_event' currentTimestamp event stats = Normal stats'
    /\ covers stats'.
Proof.
  intros Hc. unfold process_event.
  destruct (_ && _).
  - by exists stats.
  - edestruct each_timeframe_total as (stats' & -> & Hkeep).
    + intros b Hb. apply Hc. rewrite boundaries_sorted in Hb.
      by apply list_elem_of_fmap_2.
    + exists stats'. split; [done|]. intros key Hkey. by apply Hkeep, Hc.
Qed.

(** The loop over a range of indices inside the array never throws. *)
Lemma for_range_total (currentTimestamp : number) (events : list Event) :
  forall (n i : nat) (stats : Stats),
    (i + n <= List.length events)%nat -> covers stats ->
    exists stats',
      for_range' currentTimestamp events i n stats = Normal stats'
      /\ covers stats'.
Proof.
  induction n as [|n IH]; intros i stats Hlen Hc.
  - by exists stats.
  - cbn [for_range].
    destruct (lookup_lt_is_Some_2 events i) as [event ->]; [lia|].
    destruct (process_event_total currentTimestamp event stats Hc)
      as (stats1 & -> & Hc1).
    cbn [mbind completion_bind]. apply IH; [lia | done].
Qed.

(** A range can be cut in two. *)
Lemma for_range_split (currentTimestamp : number) (events : list Event) :
  forall (a b i : nat) (stats : Stats),
    for_range' currentTimestamp events i (a + b) stats
    = for_range' currentTimestamp events i a stats
        ≫= for_range' currentTimestamp events (i + a) b.
Proof.
  induction a as [|a IH]; intros b i stats.
  - simpl. by rewrite Nat.add_0_r.
  - cbn [Nat.add for_range]. destruct (events !! i) as [event|]; [|done].
    destruct (process_event' currentTimestamp event stats) as [stats1|e];
      [|done].
    cbn [mbind completion_bind]. rewrite IH. do 2 f_equal. lia.
Qed.

Lemma CHUNK_SIZE_pos : (0 < CHUNK_SIZE)%nat.
Proof. unfold CHUNK_SIZE. lia. Qed.

(** With enough rounds the chunked loop does what one loop over the rest
    of the array does. *)
Lemma chunks_for_range (currentTimestamp : number) (events : list Event)
    (onProgress : bool) :
  forall (fuel chunk : nat) (stats : Stats) (progress : list number),
    (List.length events <= fuel + chunk)%nat -> covers stats ->
    exists stats',
      (chunks' fuel currentTimestamp events onProgress chunk stats progress).1
      = Some stats'
      /\ for_range' currentTimestamp events chunk
           (List.length events - chunk) stats = Normal stats'.
Proof.
  pose proof CHUNK_SIZE_pos as Hpos.
  induction fuel as [|fuel IH]; intros chunk stats progress Hfuel Hc.
  - exists stats. split; [done|].
    replace (List.length events - chunk)%nat with 0%nat by lia. done.
  - cbn [chunks]. destruct (Nat.ltb_spec chunk (List.length events)) as [Hlt|Hge].
    + set (stop := Nat.min (chunk + CHUNK_SIZE) (List.length events)).
      destruct (for_range_total currentTimestamp events (stop - chunk) chunk
                  stats) as (stats1 & E1 & Hc1); [lia | done |].
      rewrite E1.
      edestruct (IH (chunk + CHUNK_SIZE)%nat stats1) as (stats' & E2 & E3);
        [lia | done |].
      exists stats'. split; [exact E2|].
      replace (List.length events - chunk)%nat
        with ((stop - chunk) + (List.length events - stop))%nat by lia.
      rewrite for_range_split, E1. cbn [mbind completion_bind].
      replace (chunk + (stop - chunk))%nat with stop by lia.
      destruct (Nat.le_gt_cases (List.length events) (chunk + CHUNK_SIZE))
        as [Hlast|Hmore].
      * replace (List.length events - stop)%nat with 0%nat by lia.
        replace (List.length events - (chunk + CHUNK_SIZE))%nat
          with 0%nat in E3 by lia.
        simpl in *. congruence.
      * replace stop with (chunk + CHUNK_SIZE)%nat by lia. exact E3.
    + exists stats. split; [done|].
      replace (List.length events - chunk)%nat with 0%nat by lia. done.
Qed.

Lemma transform_total (currentPrice : number) (stats : Stats)
    (keys : list string) :
  forall sortedStats : ProcessedStats,
    (forall key, key ∈ keys -> is_Some (stats !! key)) ->
    exists result,
      transform' keys currentPrice stats sortedStats = Normal result.
Proof.
  induction keys as [|key keys IH]; intros sortedStats Hall.
  - by eexists.
  - cbn [transform]. destruct (Hall key) as [period ->]; [by left|].
    destruct (negb (hasData period)); apply IH; intros k Hk; apply Hall;
      by right.
Qed.

(** The promise of [processEventsAsync] ends the way [processEvents]
    returns. *)
Lemma async_follows_sync (now : number) (binaryData : Input number)
    (onProgress : bool) :
  (processEventsAsync' now binaryData onProgress).1
  = match processEvents' now binaryData with
    | Normal stats => Fulfilled stats
    | Throw e => Rejected e
    end.
Proof.
  unfold processEventsAsync, processEvents.
  destruct (events_of num_of_Z float32 binaryData) as [events|e]; [|done].
  cbn [mbind completion_bind]. destruct events as [|first events]; [done|].
  set (all := first :: events).
  set (ts := num_div now (num_of_Z 1000)).
  destruct (chunks_for_range ts all onProgress (List.length all) 0
              (init_stats num_of_Z) []) as (stats' & E1 & E2);
    [lia | apply init_stats_covers |].
  rewrite Nat.sub_0_r in E2. unfold Event in *.
  rewrite E2. cbn [mbind completion_bind].
  destruct (chunks' _ _ _ _ _ _ _) as [[stats''|] progress]; simpl in E1;
    [|done].
  injection E1 as ->.
  by destruct (transform' _ _ _ _).
Qed.

(** On an events array [processEvents] returns statistics. *)
Lemma processEvents_returns (now : number) (events : list Event) :
  exists stats, processEvents' now (Events events) = Normal stats.
Proof.
  unfold processEvents. cbn [events_of mbind completion_bind].
  destruct events as [|first events]; [by eexists|].
  set (all := first :: events).
  destruct (for_range_total (num_div now (num_of_Z 1000)) all
              (List.length all) 0 (init_stats num_of_Z))
    as (stats & E & Hc); [lia | apply init_stats_covers |].
  unfold Event in *. rewrite E.
  cbn [mbind completion_bind]. apply transform_total.
  intros key Hkey. by apply Hc.
Qed.

(** C10. For every events array, every value of the clock and with or
    without a progress callback, [processEvents] returns a statistics map
    and the promise of [processEventsAsync] is fulfilled with the same map:
    the same timeframe keys in the same order, each with the same record
    (buys, sells, volumes, transactions, unique buyers, sellers and
    wallets, initial price, price change). For any input, binary data
    included, the promise ends the way the synchronous call returns: an
    exception of the one is the rejection of the other. It holds for
    every interpretation of the arithmetic of numbers. *)
Theorem async_aggregator_agrees (now : number) (events : list Event)
    (binaryData : Input number) (onProgress : bool) :
  (exists stats : ProcessedStats,
      processEvents' now (Events events) = Normal stats
      /\ (processEventsAsync' now (Events events) onProgress).1
         = Fulfilled stats)
  /\ (processEventsAsync' now binaryData onProgress).1
     = match processEvents' now binaryData with
       | Normal stats => Fulfilled stats
       | Throw e => Rejected e
       end.
Proof.
  split; [|apply async_follows_sync].
  destruct (processEvents_returns now events) as [stats Hs].
  exists stats. split; [exact Hs|].
  rewrite async_follows_sync, Hs. reflexivity.
Qed.

End AggregatorFacts.

(** * Properties of the transport *)

Section DatastreamFacts.
Import Datastream.

(** *** Running actions *)

Lemma exec_seq (a b : Action unit) (w : World) :
  exec (a;; b) w
  = ((exec b (exec a w).1).1, (exec a w).2 ++ (exec b (exec a w).1).2).
Proof. reflexivity. Qed.

Lemma exec_world (k : World -> Action unit) (w : World) :
  exec (world ≫= k) w = exec (k w) w.
Proof. reflexivity. Qed.

Lemma exec_skip (w : World) : exec skip w = (w, []).
Proof. reflexivity. Qed.

Lemma exec_update (f : World -> World) (w : World) :
  exec (update f) w = (f w, []).
Proof. reflexivity. Qed.

Lemma exec_effect (e : Effect) (w : World) : exec (effect e) w = (w, [e]).
Proof. reflexivity. Qed.

Lemma exec_emit (event : string) (arg : Arg) (w : World) :
  exec (emit event arg) w
  = (w, Emit event arg
        :: concat (call_listener arg <$> listeners_of (this w) event)).
Proof. reflexivity. Qed.

(** *** What an action leaves alone *)

Lemma preserves_seq {X : Type} (f : World -> X) (a b : Action unit) :
  preserves f a -> preserves f b -> preserves f (a;; b).
Proof. intros Ha Hb w. rewrite exec_seq. cbn [fst]. by rewrite Hb, Ha. Qed.

Lemma preserves_world {X : Type} (f : World -> X)
    (k : World -> Action unit) :
  (forall w0, preserves f (k w0)) -> preserves f (world ≫= k).
Proof. intros Hk w. rewrite exec_world. apply Hk. Qed.

Lemma preserves_skip {X : Type} (f : World -> X) : preserves f skip.
Proof. by intros w. Qed.

Lemma preserves_effect {X : Type} (f : World -> X) (e : Effect) :
  preserves f (effect e).
Proof. by intros w. Qed.

Lemma preserves_effects {X : Type} (f : World -> X) (es : list Effect) :
  preserves f (effects es).
Proof. by intros w. Qed.

Lemma preserves_update {X : Type} (f : World -> X) (g : World -> World) :
  (forall w, f (g w) = f w) -> preserves f (update g).
Proof. intros Hg w. apply Hg. Qed.

Lemma preserves_emit {X : Type} (f : World -> X) (event : string)
    (arg : Arg) :
  preserves f (emit event arg).
Proof. by intros w. Qed.

Lemma preserves_send {X : Type} (f : World -> X) (s : option nat)
    (frame : Frame) :
  preserves f (send s frame).
Proof. by destruct s. Qed.

Lemma preserves_for_each {X A : Type} (f : World -> X) (l : list A)
    (body : A -> Action unit) :
  (forall x, preserves f (body x)) -> preserves f (for_each l body).
Proof.
  intros Hb. induction l as [|x l IH]; simpl.
  - apply preserves_skip.
  - by apply preserves_seq.
Qed.

(** Takes an action apart as far as the lemmas above go. *)
Ltac frame :=
  repeat match goal with
    | |- preserves _ skip => apply preserves_skip
    | |- preserves _ (effect _) => apply preserves_effect
    | |- preserves _ (effects _) => apply preserves_effects
    | |- preserves _ (emit _ _) => apply preserves_emit
    | |- preserves _ (send _ _) => apply preserves_send
    | |- preserves _ (for_each _ _) => apply preserves_for_each; intros ?
    | |- preserves _ (update _) =>
        apply preserves_update; intros ?;
        first [ reflexivity
              | match goal with
                | |- context [match ?t with Main => _ | Transaction => _ end] =>
                    destruct t; reflexivity
                end ]
    | |- preserves _ (world ≫= _) => apply preserves_world; intros ?
    | |- preserves _ (_ ≫= _) => apply preserves_seq
    | |- preserves _ (let _ := _ in _) => cbn zeta
    | |- preserves _ (if ?b then _ else _) => destruct b
    | |- preserves _ (match ?x with _ => _ end) => destruct x
    end.

Lemma resubscribeToRooms_keeps {X : Type} (f : World -> X) :
  preserves f resubscribeToRooms.
Proof. unfold resubscribeToRooms. frame. Qed.

Lemma connect_keeps_rooms : preserves rooms_of connect.
Proof. unfold connect, createSocket. frame. Qed.

Lemma connect_keeps_seen : preserves seen_of connect.
Proof. unfold connect, createSocket. frame. Qed.

Lemma reconnect_keeps_rooms (rnd : Q) : preserves rooms_of (reconnect rnd).
Proof. unfold reconnect. frame. Qed.

Lemma reconnect_keeps_seen (rnd : Q) : preserves seen_of (reconnect rnd).
Proof. unfold reconnect. frame. Qed.

Ltac unfold_handlers :=
  unfold onopen, onerror, onclose, onmessage, timer_callback, resolve,
    reject, store, setupSocketListeners, resubscribeToRooms, reconnect,
    connect, createSocket, close, on_socket, on, removeListener.

Lemma store_keeps_rooms (type : SocketType) (s : option nat) :
  preserves rooms_of (store type s).
Proof. destruct type; unfold store; frame. Qed.

Lemma store_keeps_seen (type : SocketType) (s : option nat) :
  preserves seen_of (store type s).
Proof. destruct type; unfold store; frame. Qed.

Lemma onopen_keeps_rooms (id : nat) (type : SocketType) (attempt : nat) :
  preserves rooms_of (onopen id type attempt).
Proof. destruct type; unfold_handlers; frame. Qed.

Lemma onopen_keeps_seen (id : nat) (type : SocketType) (attempt : nat) :
  preserves seen_of (onopen id type attempt).
Proof. destruct type; unfold_handlers; frame. Qed.

Lemma onerror_keeps_rooms (type : SocketType) (attempt : nat) (rnd : Q) :
  preserves rooms_of (onerror type attempt rnd).
Proof. destruct type; unfold_handlers; frame. Qed.

Lemma onerror_keeps_seen (type : SocketType) (attempt : nat) (rnd : Q) :
  preserves seen_of (onerror type attempt rnd).
Proof. destruct type; unfold_handlers; frame. Qed.

Lemma onclose_keeps_rooms (type : SocketType) (rnd : Q) :
  preserves rooms_of (onclose type rnd).
Proof. destruct type; unfold_handlers; frame. Qed.

Lemma onclose_keeps_seen (type : SocketType) (rnd : Q) :
  preserves seen_of (onclose type rnd).
Proof. destruct type; unfold_handlers; frame. Qed.

Lemma onmessage_keeps_rooms (message : Message) :
  preserves rooms_of (onmessage message).
Proof. unfold_handlers; frame. Qed.

Lemma timer_callback_keeps_rooms : preserves rooms_of timer_callback.
Proof. unfold_handlers; frame. Qed.

Lemma timer_callback_keeps_seen : preserves seen_of timer_callback.
Proof. unfold_handlers; frame. Qed.

(** *** The dedup filter *)

Lemma onmessage_other (message : Message) (w : World) :
  String.eqb (msg_type message) "message" = false ->
  exec (onmessage message) w = (w, []).
Proof. intros H. unfold onmessage. by rewrite H. Qed.

Lemma onmessage_dropped (message : Message) (w : World) :
  truthy (tx_of message) = true ->
  JsSet.has same_value_zero (seen_of w) (tx_of message) = true ->
  exec (onmessage message) w = (w, []).
Proof.
  intros Ht Hs. unfold onmessage.
  destruct (String.eqb (msg_type message) "message"); [|done].
  rewrite exec_world. unfold tx_of, seen_of in *. by rewrite Ht, Hs.
Qed.

Lemma onmessage_new (message : Message) (w : World) :
  String.eqb (msg_type message) "message" = true ->
  truthy (tx_of message) = true ->
  JsSet.has same_value_zero (seen_of w) (tx_of message) = false ->
  exec (onmessage message) w
  = (on_this (set_transactions (seen_of w ++ [tx_of message])) w,
     routed message w).
Proof.
  intros Hm Ht Hs. unfold onmessage. rewrite Hm, exec_world.
  unfold tx_of, seen_of in *. rewrite Ht, Hs. cbn [andb].
  unfold routed, JsSet.add. rewrite Hs.
  destruct (includes "price:" (msg_room message)); [|reflexivity].
  by destruct (get_prop (msg_data message) "token").
Qed.

Lemma onmessage_plain (message : Message) (w : World) :
  String.eqb (msg_type message) "message" = true ->
  truthy (tx_of message) = false ->
  exec (onmessage message) w = (w, routed message w).
Proof.
  intros Hm Ht. unfold onmessage. rewrite Hm, exec_world.
  unfold tx_of in *. rewrite Ht. cbn [andb].
  unfold routed.
  destruct (includes "price:" (msg_room message)); [|reflexivity].
  by destruct (get_prop (msg_data message) "token").
Qed.

Lemma has_app {A : Type} (same : A -> A -> bool) (s s' : list A) (x : A) :
  JsSet.has same s x = true -> JsSet.has same (s ++ s') x = true.
Proof.
  unfold JsSet.has. rewrite existsb_app. intros ->. reflexivity.
Qed.

Lemma has_last {A : Type} (same : A -> A -> bool) (s : list A) (x : A) :
  same x x = true -> JsSet.has same (s ++ [x]) x = true.
Proof.
  intros Hx. unfold JsSet.has. rewrite existsb_app. simpl.
  rewrite Hx. by rewrite orb_true_r.
Qed.

Lemma primitive_same (v : value) :
  primitive v = true -> same_value_zero v v = true.
Proof.
  destruct v as [[| b | n | s | l | fs]|]; simpl; try done.
  - intros _. by destruct b.
  - intros _. apply Z.eqb_refl.
  - intros _. apply String.eqb_refl.
Qed.

(** A frame never takes an identifier out of the dedup set. *)
Lemma onmessage_keeps_seen (message : Message) (w : World) (t : value) :
  JsSet.has same_value_zero (seen_of w) t = true ->
  JsSet.has same_value_zero (seen_of (exec (onmessage message) w).1) t = true.
Proof.
  intros Ht.
  destruct (String.eqb (msg_type message) "message") eqn:Hm;
    [|by rewrite onmessage_other].
  destruct (truthy (tx_of message)) eqn:Htx;
    [|by rewrite onmessage_plain].
  destruct (JsSet.has same_value_zero (seen_of w) (tx_of message)) eqn:Hs;
    [by rewrite onmessage_dropped|].
  rewrite onmessage_new by done. simpl. by apply has_app.
Qed.

(** A frame that has effects leaves its truthy primitive [tx] in the
    dedup set. *)
Lemma onmessage_records (message : Message) (w : World) :
  truthy (tx_of message) = true -> primitive (tx_of message) = true ->
  (exec (onmessage message) w).2 <> [] ->
  JsSet.has same_value_zero (seen_of (exec (onmessage message) w).1)
    (tx_of message) = true.
Proof.
  intros Htx Hp Hout.
  destruct (String.eqb (msg_type message) "message") eqn:Hm;
    [|by rewrite onmessage_other in Hout].
  destruct (JsSet.has same_value_zero (seen_of w) (tx_of message)) eqn:Hs;
    [by rewrite onmessage_dropped in Hout|].
  rewrite onmessage_new by done. simpl.
  by apply has_last, primitive_same.
Qed.

Lemma exec_run_cons (e : Event) (es : list Event) (w : World) :
  exec (run (e :: es)) w
  = ((exec (run es) (exec (step e) w).1).1,
     (exec (step e) w).2 ++ (exec (run es) (exec (step e) w).1).2).
Proof. reflexivity. Qed.

Lemma exec_receive (id : nat) (message : Message) (w : World) :
  exec (step (SocketReceives id message)) w = exec (onmessage message) w
  \/ exec (step (SocketReceives id message)) w = (w, []).
Proof.
  cbn [step]. rewrite exec_world.
  destruct (heap w !! id) as [ws|]; [|by right].
  destruct (bool_decide (readyState ws = OPEN) && listening ws);
    [by left | by right].
Qed.

(** No task but [disconnect()] takes an identifier out of the dedup set. *)
Lemma step_keeps_seen (e : Event) (w : World) (t : value) :
  ends_session e = false ->
  JsSet.has same_value_zero (seen_of w) t = true ->
  JsSet.has same_value_zero (seen_of (exec (step e) w).1) t = true.
Proof.
  intros He Ht.
  destruct e; try discriminate He;
    try (match goal with
         | |- context [exec (step ?e) w] =>
             assert (Hk : preserves seen_of (step e))
               by (cbn [step]; unfold _subscribe, unsubscribe;
                   unfold_handlers; frame)
         end; by rewrite Hk).
  match goal with
  | |- context [step (SocketReceives ?id ?m)] =>
      destruct (exec_receive id m w) as [-> | ->]; [|done]
  end.
  by apply onmessage_keeps_seen.
Qed.

Lemma run_keeps_seen (es : list Event) :
  forall (w : World) (t : value),
    forallb (fun e => negb (ends_session e)) es = true ->
    JsSet.has same_value_zero (seen_of w) t = true ->
    JsSet.has same_value_zero (seen_of (exec (run es) w).1) t = true.
Proof.
  induction es as [|e es IH]; intros w t Hes Ht; [done|].
  simpl in Hes. apply andb_true_iff in Hes as [He Hes].
  rewrite exec_run_cons. cbn [fst]. apply IH; [done|].
  apply step_keeps_seen; [|done]. by destruct (ends_session e).
Qed.

(** *** The tracked rooms *)

Lemma eqb_has_elem (s : list string) (x : string) :
  JsSet.has String.eqb s x = true <-> x ∈ s.
Proof.
  unfold JsSet.has. rewrite existsb_exists. split.
  - intros (y & Hy & Heq). apply String.eqb_eq in Heq as ->.
    by apply list_elem_of_In.
  - intros H. exists x. split; [by apply list_elem_of_In|].
    apply String.eqb_refl.
Qed.

Lemma add_NoDup (s : list string) (x : string) :
  NoDup s -> NoDup (JsSet.add String.eqb s x).
Proof.
  intros Hs. unfold JsSet.add.
  destruct (JsSet.has String.eqb s x) eqn:E; [done|].
  apply NoDup_app. split; [done|]. split; [|apply NoDup_singleton].
  intros y Hy Hx. apply list_elem_of_singleton in Hx as ->.
  apply eqb_has_elem in Hy. congruence.
Qed.

Lemma delete_NoDup (s : list string) (x : string) :
  NoDup s -> NoDup (JsSet.delete String.eqb s x).
Proof. intros Hs. unfold JsSet.delete. by apply NoDup_filter. Qed.

Lemma delete_elem (s : list string) (x y : string) :
  y ∈ JsSet.delete String.eqb s x <-> y ∈ s /\ y <> x.
Proof.
  unfold JsSet.delete. rewrite list_elem_of_filter.
  destruct (String.eqb_spec x y) as [->|Hne]; intuition congruence.
Qed.

Lemma delete_absent (s : list string) (x : string) :
  x ∉ s -> JsSet.delete String.eqb s x = s.
Proof.
  intros Hx. unfold JsSet.delete. induction s as [|y s IH]; [done|].
  apply not_elem_of_cons in Hx as [Hne Hx].
  rewrite filter_cons. destruct (decide (String.eqb x y = false)) as [_|Hd].
  - f_equal. by apply IH.
  - destruct (String.eqb_spec x y); congruence.
Qed.

Lemma subscribe_rooms (room : string) (w : World) :
  rooms_of (exec (_subscribe room) w).1
  = JsSet.add String.eqb (rooms_of w) room.
Proof.
  unfold _subscribe. rewrite exec_seq. cbn [fst].
  assert (Hk : forall k : World -> Action unit,
             (forall w0, preserves rooms_of (k w0)) ->
             preserves rooms_of (world ≫= k))
    by (intros k; apply preserves_world).
  rewrite Hk; [reflexivity|].
  intros w0. unfold_handlers. frame.
Qed.

Lemma unsubscribe_rooms (room : string) (w : World) :
  rooms_of (exec (unsubscribe room) w).1
  = JsSet.delete String.eqb (rooms_of w) room.
Proof.
  unfold unsubscribe. rewrite exec_seq. cbn [fst].
  assert (Hk : forall k : World -> Action unit,
             (forall w0, preserves rooms_of (k w0)) ->
             preserves rooms_of (world ≫= k))
    by (intros k; apply preserves_world).
  rewrite Hk; [reflexivity|].
  intros w0. frame.
Qed.

Lemma disconnect_clears (w : World) :
  rooms_of (exec disconnect w).1 = [] /\ seen_of (exec disconnect w).1 = [].
Proof.
  unfold disconnect. rewrite exec_world.
  destruct (socket (this w)), (transactionSocket (this w)); by split.
Qed.

(** The tracked rooms never hold a room twice. *)
Lemma step_NoDup (e : Event) (w : World) :
  NoDup (rooms_of w) -> NoDup (rooms_of (exec (step e) w).1).
Proof.
  intros Hw.
  destruct e;
    try (match goal with
         | |- context [exec (step ?e) w] =>
             assert (Hk : preserves rooms_of (step e))
               by (cbn [step]; unfold_handlers; frame)
         end; by rewrite Hk).
  - cbn [step]. rewrite (proj1 (disconnect_clears w)). apply NoDup_nil_2.
  - cbn [step]. rewrite subscribe_rooms. by apply add_NoDup.
  - cbn [step]. rewrite unsubscribe_rooms. by apply delete_NoDup.
Qed.

Lemma reachable_NoDup (w : World) : reachable w -> NoDup (rooms_of w).
Proof.
  intros (config & events & <-).
  assert (H : forall es w0, NoDup (rooms_of w0) ->
                            NoDup (rooms_of (exec (run es) w0).1)).
  { induction es as [|e es IH]; intros w0 H0; [done|].
    rewrite exec_run_cons. cbn [fst]. by apply IH, step_NoDup. }
  apply H. apply NoDup_nil_2.
Qed.

(** *** Resubscription *)

Lemma is_open_Some (w : World) (s : option nat) :
  is_open w s = true -> exists id, s = Some id.
Proof. destruct s; [eauto | done]. Qed.

Lemma for_each_join (d : Datastream) (m t : nat) (rooms : list string)
    (w : World) :
  socket d = Some m -> transactionSocket d = Some t ->
  exec (for_each rooms (fun room => send (channel d room) (Join room))) w
  = (w, joins m t rooms).
Proof.
  intros Hm Ht. revert w.
  induction rooms as [|room rooms IH]; intros w; [done|].
  cbn [for_each]. rewrite exec_seq, IH.
  unfold channel. rewrite Hm, Ht.
  unfold joins. rewrite fmap_cons.
  by destruct (includes "transaction" room).
Qed.

Lemma resubscribe_fires (w : World) (m t : nat) :
  socket (this w) = Some m -> transactionSocket (this w) = Some t ->
  is_open w (Some m) = true -> is_open w (Some t) = true ->
  exec resubscribeToRooms w = (w, joins m t (rooms_of w)).
Proof.
  intros Hm Ht Om Ot. unfold resubscribeToRooms. rewrite exec_world.
  rewrite Hm, Ht, Om, Ot. cbn [andb]. by apply for_each_join.
Qed.

Lemma resubscribe_waits (w : World) :
  is_open w (socket (this w)) && is_open w (transactionSocket (this w))
  = false ->
  exec resubscribeToRooms w = (w, []).
Proof.
  intros H. unfold resubscribeToRooms. rewrite exec_world. by rewrite H.
Qed.

Lemma sent_app (a b : list Effect) : sent (a ++ b) = sent a ++ sent b.
Proof. apply List.filter_app. Qed.

Lemma sent_joins (m t : nat) (rooms : list string) :
  sent (joins m t rooms) = joins m t rooms.
Proof.
  induction rooms as [|room rooms IH]; [done|].
  unfold joins in *. rewrite fmap_cons. unfold sent in *. simpl.
  by rewrite IH.
Qed.

Lemma sent_call_listener (arg : Arg) (l : Listener) :
  sent (call_listener arg l) = [].
Proof.
  unfold call_listener.
  destruct (wrapped l); [|done].
  destruct arg as [[[| | | | items |]|] | | | |]; try done.
  induction items as [|item items IH]; [done|]. exact IH.
Qed.

Lemma sent_emit (event : string) (arg : Arg) (w : World) :
  sent (exec (emit event arg) w).2 = [].
Proof.
  rewrite exec_emit. cbn [snd]. unfold sent. cbn [List.filter is_Send].
  induction (listeners_of (this w) event) as [|l ls IH]; [done|].
  rewrite fmap_cons. cbn [concat]. rewrite List.filter_app.
  fold (sent (call_listener arg l)). by rewrite sent_call_listener.
Qed.

Lemma sent_resolve (type : SocketType) (attempt : nat) (w : World) :
  sent (exec (resolve type attempt) w).2 = [].
Proof.
  unfold resolve. rewrite exec_world.
  destruct (attempts w !! attempt) as [a|]; [|done].
  destruct (bool_decide (promise_of type a = Pending)); [|done].
  rewrite exec_seq. cbn [snd fst app].
  destruct (bool_decide (promise_of (other type) a = Resolved)); [|done].
  rewrite exec_seq. cbn [snd fst app]. apply sent_emit.
Qed.

Lemma resolve_keeps_wiring (type : SocketType) (attempt : nat) :
  preserves wiring (resolve type attempt).
Proof. unfold resolve. frame. Qed.

(** What the task of an opening socket sends: nothing, or the join
    frame of every tracked room, and then both channels are open. *)
Lemma open_sends_all_or_nothing (id : nat) (w : World) :
  sent (exec (step (SocketOpens id)) w).2 = []
  \/ exists m t : nat,
       let w' := (exec (step (SocketOpens id)) w).1 in
       sent (exec (step (SocketOpens id)) w).2 = joins m t (rooms_of w)
       /\ socket (this w') = Some m /\ transactionSocket (this w') = Some t
       /\ is_open w' (Some m) = true /\ is_open w' (Some t) = true.
Proof.
  cbn [step]. rewrite exec_world.
  destruct (heap w !! id) as [ws|]; [|by left].
  destruct (bool_decide (readyState ws = CONNECTING)); [|by left].
  unfold onopen. rewrite !exec_seq. cbn [fst snd].
  set (w1 := (exec (setupSocketListeners id) _).1).
  assert (Hrooms : rooms_of w1 = rooms_of w)
    by (subst w1; destruct (ws_type ws); reflexivity).
  change (exec (on_socket id (set_readyState OPEN)) w).2 with (@nil Effect).
  change (exec (store (ws_type ws) (Some id)) _).2 with (@nil Effect).
  change (exec (update (on_this (set_reconnectAttempts 0))) _).2
    with (@nil Effect).
  change (exec (setupSocketListeners id) _).2 with (@nil Effect).
  cbn [app].
  destruct (is_open w1 (socket (this w1))
            && is_open w1 (transactionSocket (this w1))) eqn:Hopen.
  - right. apply andb_true_iff in Hopen as [Om Ot].
    destruct (is_open_Some _ _ Om) as [m Hm].
    destruct (is_open_Some _ _ Ot) as [t Ht].
    rewrite Hm in Om. rewrite Ht in Ot.
    exists m, t. cbn zeta.
    rewrite (resubscribe_fires w1 m t Hm Ht Om Ot). cbn [fst snd].
    rewrite sent_app, sent_joins, sent_resolve, app_nil_r, Hrooms.
    set (w2 := (exec (resolve (ws_type ws) (ws_attempt ws)) w1).1).
    assert (Hk : wiring w2 = wiring w1) by apply resolve_keeps_wiring.
    unfold wiring in Hk. injection Hk as Hs Hts Hh.
    unfold is_open in *. rewrite Hs, Hts, Hh. by repeat split.
  - left. rewrite (resubscribe_waits w1 Hopen). cbn [fst snd app].
    apply sent_resolve.
Qed.

(** What the task of a socket that opens sends: the join frame of every
    tracked room if both channels are open once the socket is stored,
    nothing otherwise. *)
Lemma open_sends (id : nat) (w : World) (ws : WebSocket) :
  heap w !! id = Some ws -> readyState ws = CONNECTING ->
  let opened := exec (step (SocketOpens id)) w in
  let both_open :=
    is_open opened.1 (socket (this opened.1))
    && is_open opened.1 (transactionSocket (this opened.1)) in
  rooms_of opened.1 = rooms_of w
  /\ (both_open = false -> sent opened.2 = [])
  /\ (both_open = true ->
      exists m t : nat,
        socket (this opened.1) = Some m
        /\ transactionSocket (this opened.1) = Some t
        /\ sent opened.2 = joins m t (rooms_of w)).
Proof.
  intros Hws Hcon. cbn zeta. cbn [step]. rewrite exec_world, Hws.
  rewrite bool_decide_eq_true_2 by done.
  unfold onopen. rewrite !exec_seq. cbn [fst snd].
  set (w1 := (exec (setupSocketListeners id) _).1).
  assert (Hrooms : rooms_of w1 = rooms_of w)
    by (subst w1; destruct (ws_type ws); reflexivity).
  change (exec (on_socket id (set_readyState OPEN)) w).2 with (@nil Effect).
  change (exec (store (ws_type ws) (Some id)) _).2 with (@nil Effect).
  change (exec (update (on_this (set_reconnectAttempts 0))) _).2
    with (@nil Effect).
  change (exec (setupSocketListeners id) _).2 with (@nil Effect).
  cbn [app].
  assert (Hre : (exec resubscribeToRooms w1).1 = w1)
    by apply (resubscribeToRooms_keeps (fun w0 : World => w0)).
  rewrite Hre.
  set (w2 := (exec (resolve (ws_type ws) (ws_attempt ws)) w1).1).
  assert (Hk : wiring w2 = wiring w1) by apply resolve_keeps_wiring.
  assert (Hr2 : rooms_of w2 = rooms_of w1).
  { subst w2. unfold resolve. rewrite exec_world.
    destruct (attempts w1 !! ws_attempt ws) as [a|]; [|done].
    destruct (bool_decide (promise_of (ws_type ws) a = Pending)); [|done].
    rewrite exec_seq. cbn [fst].
    destruct (bool_decide (promise_of (other (ws_type ws)) a = Resolved));
      [|done].
    by rewrite exec_seq. }
  unfold wiring in Hk. injection Hk as Hs Hts Hh.
  assert (Ho : is_open w2 (socket (this w2))
               && is_open w2 (transactionSocket (this w2))
               = is_open w1 (socket (this w1))
                 && is_open w1 (transactionSocket (this w1))).
  { unfold is_open. by rewrite Hs, Hts, Hh. }
  rewrite Ho, Hs, Hts, Hr2, Hrooms.
  split; [done|]. split.
  - intros Hopen. rewrite (resubscribe_waits w1 Hopen). cbn [fst snd app].
    apply sent_resolve.
  - intros Hopen. apply andb_true_iff in Hopen as [Om Ot].
    destruct (is_open_Some _ _ Om) as [m Hm].
    destruct (is_open_Some _ _ Ot) as [t Ht].
    rewrite Hm in Om. rewrite Ht in Ot. exists m, t.
    rewrite (resubscribe_fires w1 m t Hm Ht Om Ot). cbn [fst snd].
    by rewrite sent_app, sent_joins, sent_resolve, app_nil_r, Hrooms.
Qed.

End DatastreamFacts.

(** * Properties of the rounding of doubles *)

Section DoubleFacts.
Import Double.
Local Open Scope Q_scope.

(** *** Rounding to the nearest integer *)





(** *** Powers of two *)

Lemma two_pow_pos (e : Z) : 0 < 2 ^ e.
Proof. by apply Qpower_0_lt. Qed.

Lemma two_pow_add (a b : Z) : 2 ^ (a + b) == 2 ^ a * 2 ^ b.
Proof. apply Qpower_plus. discriminate. Qed.

Lemma two_pow_succ (a : Z) : 2 ^ (a + 1) == 2 * 2 ^ a.
Proof. rewrite two_pow_add. change (2 ^ 1) with 2. ring. Qed.


Lemma two_pow_lt (a b : Z) : (a < b)%Z -> 2 ^ a < 2 ^ b.
Proof. intros H. apply Qpower_lt_compat_l; [exact H | reflexivity]. Qed.

Lemma two_pow_lt_inv (a b : Z) : 2 ^ a < 2 ^ b -> (a < b)%Z.
Proof. intros H. apply (Qpower_lt_compat_l_inv 2); [exact H | reflexivity]. Qed.

Lemma two_pow_Z (a : Z) : (0 <= a)%Z -> inject_Z (2 ^ a) == 2 ^ a.
Proof. intros H. by apply Zpower_Qpower. Qed.

(** *** The binary logarithm *)

Lemma ilog2_spec (q : Q) :
  0 < q -> 2 ^ ilog2 q <= q /\ q < 2 ^ (ilog2 q + 1).
Proof.
  intros Hq. destruct q as [n d].
  assert (Hn : (0 < n)%Z).
  { unfold Qlt in Hq. simpl in Hq. lia. }
  unfold ilog2. cbn [Qnum Qden].
  set (a := Z.log2 n). set (b := Z.log2 (Z.pos d)).
  destruct (Z.log2_spec n Hn) as [Ha1 Ha2]. fold a in Ha1, Ha2.
  destruct (Z.log2_spec (Z.pos d) eq_refl) as [Hb1 Hb2]. fold b in Hb1, Hb2.
  assert (Ha0 : (0 <= a)%Z) by apply Z.log2_nonneg.
  assert (Hb0 : (0 <= b)%Z) by apply Z.log2_nonneg.
  rewrite Zle_Qle, two_pow_Z in Ha1, Hb1 by lia.
  rewrite Zlt_Qlt, <- Z.add_1_r, two_pow_Z, two_pow_succ in Ha2, Hb2 by lia.
  assert (Hk : 2 ^ (a - b) * 2 ^ b == 2 ^ a).
  { rewrite <- two_pow_add. by replace (a - b + b)%Z with a by lia. }
  pose proof (two_pow_pos (a - b)) as Kpos.
  pose proof (two_pow_pos b) as Bpos.
  assert (Hd : (n # d) * inject_Z (Z.pos d) == inject_Z n).
  { unfold Qeq, inject_Z. simpl. lia. }
  assert (Dpos : 0 < inject_Z (Z.pos d)) by (rewrite <- (Zlt_Qlt 0); lia).
  set (q := n # d) in *. set (D := inject_Z (Z.pos d)) in *.
  set (N := inject_Z n) in *. set (K := 2 ^ (a - b)) in *.
  set (A := 2 ^ a) in *. set (B := 2 ^ b) in *.
  destruct (Qle_bool K q) eqn:E.
  - apply Qle_bool_iff in E. split; [exact E|].
    rewrite two_pow_succ. fold K.
    apply (Qmult_lt_r _ _ D Dpos). nra.
  - assert (E' : q < K).
    { apply Qnot_le_lt. intros H. apply Qle_bool_iff in H. congruence. }
    replace (a - b - 1 + 1)%Z with (a - b)%Z by lia. split; [|exact E'].
    assert (H2 : 2 * 2 ^ (a - b - 1) == K).
    { rewrite <- two_pow_succ. subst K. by replace (a - b - 1 + 1)%Z with (a - b)%Z by lia. }
    pose proof (two_pow_pos (a - b - 1)) as Mpos.
    set (M := 2 ^ (a - b - 1)) in *.
    apply (Qmult_le_r _ _ D Dpos). nra.
Qed.

Lemma ilog2_unique (q : Q) (k : Z) :
  0 < q -> 2 ^ k <= q -> q < 2 ^ (k + 1) -> ilog2 q = k.
Proof.
  intros Hq Hl Hu. destruct (ilog2_spec q Hq) as [Hl' Hu'].
  assert (H1 : (ilog2 q < k + 1)%Z).
  { apply two_pow_lt_inv. eapply Qle_lt_trans; [exact Hl' | exact Hu]. }
  assert (H2 : (k < ilog2 q + 1)%Z).
  { apply two_pow_lt_inv. eapply Qle_lt_trans; [exact Hl | exact Hu']. }
  lia.
Qed.


(** *** Rounding to a double *)












(** *** The error of a rounding *)



End DoubleFacts.

(** * The claims about the transport *)

Section DatastreamClaims.
Import Datastream.

Lemma after_reachable (events : list Event) : reachable (after events).
Proof. by exists defaults, events. Qed.

(** C2. In every world, whatever the states of the sockets:
    [resubscribeToRooms] changes nothing and sends nothing unless the
    object holds both a main and a transaction socket and both are open;
    when both are open it sends one join frame for each tracked room, in
    the order the rooms were added, on the transaction socket if the room
    contains "transaction" and on the main socket otherwise; and in every
    world that the object can reach the tracked rooms hold no room twice.
    The task of a socket that opens, the one place that calls it, stores
    the socket and then sends exactly that: the join frames of all tracked
    rooms if both channels are then open, and no frame otherwise. *)
Theorem resubscription_is_complete (w : World) :
  let both_open :=
    is_open w (socket (this w)) && is_open w (transactionSocket (this w)) in
  (reachable w -> NoDup (rooms_of w))
  /\ (exec resubscribeToRooms w).1 = w
  /\ (both_open = false -> (exec resubscribeToRooms w).2 = [])
  /\ (both_open = true ->
      exists m t : nat,
        socket (this w) = Some m /\ transactionSocket (this w) = Some t
        /\ (exec resubscribeToRooms w).2 = joins m t (rooms_of w))
  /\ (forall (id : nat) (ws : WebSocket),
        heap w !! id = Some ws -> readyState ws = CONNECTING ->
        let opened := exec (step (SocketOpens id)) w in
        let both_open' :=
          is_open opened.1 (socket (this opened.1))
          && is_open opened.1 (transactionSocket (this opened.1)) in
        rooms_of opened.1 = rooms_of w
        /\ (both_open' = false -> sent opened.2 = [])
        /\ (both_open' = true ->
            exists m t : nat,
              socket (this opened.1) = Some m
              /\ transactionSocket (this opened.1) = Some t
              /\ sent opened.2 = joins m t (rooms_of w))).
Proof.
  intros both_open. split; [|split; [|split; [|split]]].
  - apply reachable_NoDup.
  - apply (resubscribeToRooms_keeps (fun w0 : World => w0)).
  - intros H. by rewrite resubscribe_waits.
  - intros H. subst both_open. apply andb_true_iff in H as [Om Ot].
    destruct (is_open_Some _ _ Om) as [m Hm].
    destruct (is_open_Some _ _ Ot) as [t Ht].
    exists m, t. repeat split; [done | done |].
    rewrite Hm in Om. rewrite Ht in Ot.
    by rewrite (resubscribe_fires w m t Hm Ht Om Ot).
  - intros id ws Hws Hcon. by apply (open_sends id w ws).
Qed.

(** At [live] the resubscription sends the three joins. At [half_open]
    the opening of the transaction socket completes the connection and
    sends the join of the tracked room. At [closing_main] the object holds
    both sockets after the same task, but the main socket is not open, and
    nothing is sent. *)
Lemma resubscription_is_complete_witness :
  (exec resubscribeToRooms live).2
  = [Send 0 (Join "price:T"); Send 0 (Join "price-by-token:T");
     Send 1 (Join "transaction:T")]
  /\ sent (exec (step (SocketOpens 1)) half_open).2
     = [Send 0 (Join "price:T")]
  /\ socket (this (exec (step (SocketOpens 1)) closing_main).1) = Some 0%nat
  /\ transactionSocket (this (exec (step (SocketOpens 1)) closing_main).1)
     = Some 1%nat
  /\ sent (exec (step (SocketOpens 1)) closing_main).2 = [].
Proof.
  split; [|split; [|split; [reflexivity|split; [reflexivity|]]]].
  - destruct (resubscription_is_complete live) as (_ & _ & _ & H & _).
    destruct (H eq_refl) as (m & t & Hm & Ht & ->).
    injection Hm as <-. injection Ht as <-. reflexivity.
  - destruct (resubscription_is_complete half_open) as (_ & _ & _ & _ & H).
    destruct (H 1%nat _ eq_refl eq_refl) as (_ & _ & Hall).
    destruct (Hall eq_refl) as (m & t & Hm & Ht & ->).
    injection Hm as <-. injection Ht as <-. reflexivity.
  - destruct (resubscription_is_complete closing_main)
      as (_ & _ & _ & _ & H).
    destruct (H 1%nat _ eq_refl eq_refl) as (_ & Hnone & _).
    by apply Hnone.
Defined.

(** C8, as the claim states it, fails: with both channels open and no
    room tracked, [unsubscribe("foo")] sends a leave frame on the main
    socket. *)
Lemma unsubscribe_untracked_sends_leave :
  ("foo" ∉ rooms_of idle)
  /\ exec (unsubscribe "foo") idle = (idle, [Send 0 (Leave "foo")]).
Proof.
  split; [|reflexivity]. apply not_elem_of_nil.
Qed.

(** C8, amended. [unsubscribe(room)] removes the room from the tracked
    rooms and changes nothing else; for a room that is not tracked the
    world stays as it is. Whether the room was tracked or not, it sends one
    leave frame on the channel of the room if that channel is open, and
    nothing otherwise. *)
Theorem unsubscribe_effect (w : World) (room : string) :
  let w' := (exec (unsubscribe room) w).1 in
  w' = on_this (set_subscribedRooms
                  (JsSet.delete String.eqb (rooms_of w) room)) w
  /\ (forall r, r ∈ rooms_of w' <-> r ∈ rooms_of w /\ r <> room)
  /\ (room ∉ rooms_of w -> w' = w)
  /\ (exec (unsubscribe room) w).2
     = match channel (this w) room with
       | Some id => if is_open w (Some id) then [Send id (Leave room)] else []
       | None => []
       end.
Proof.
  assert (Hw : (exec (unsubscribe room) w).1
               = on_this (set_subscribedRooms
                            (JsSet.delete String.eqb (rooms_of w) room)) w).
  { unfold unsubscribe. rewrite exec_seq, exec_update. cbn [fst].
    set (w1 := on_this _ w). rewrite exec_world. cbn zeta.
    destruct (is_open w1 (channel (this w1) room)); [|done].
    by destruct (channel (this w1) room). }
  cbn zeta. rewrite Hw. split; [done|]. split; [|split].
  - intros r. apply delete_elem.
  - intros Hroom. rewrite delete_absent by done.
    by destruct w as [[] ? ? ?].
  - unfold unsubscribe. rewrite exec_seq, exec_update. cbn [fst snd app].
    rewrite exec_world.
    change (channel (this (on_this _ w)) room) with (channel (this w) room).
    change (is_open (on_this ?f w)) with (is_open w).
    destruct (channel (this w) room) as [id|]; [|done].
    by destruct (is_open w (Some id)).
Qed.

Lemma unsubscribe_effect_witness :
  ("foo" ∉ rooms_of idle) /\ (exec (unsubscribe "foo") idle).1 = idle.
Proof.
  assert (H : "foo" ∉ rooms_of idle) by apply not_elem_of_nil.
  split; [exact H|].
  destruct (unsubscribe_effect idle "foo") as (_ & _ & Hsame & _).
  exact (Hsame H).
Defined.

(** *** Dedup *)

Lemma truthy_tx_object (message : Message) :
  truthy (tx_of message) = true ->
  exists fields, msg_data message = Some (JObj fields).
Proof.
  unfold tx_of, opt_prop.
  destruct (msg_data message) as [[| | | | |fields]|]; try done. eauto.
Qed.

Lemma routed_reaches_room (message : Message) (w : World) :
  truthy (tx_of message) = true ->
  In (Emit (msg_room message) (APayload (msg_data message)))
     (routed message w).
Proof.
  intros Ht. destruct (truthy_tx_object _ Ht) as [fields Hd].
  unfold routed. rewrite Hd. cbn [get_prop].
  destruct (includes "price:" (msg_room message));
    rewrite ?exec_emit; cbn [snd].
  - apply in_or_app. right. by left.
  - by left.
Qed.

(** C1, as the claim states it, fails. A frame whose [tx] is the empty
    string passes the filter every time: received twice, it is emitted
    twice and the listener of the room runs twice. A frame whose payload is
    an array is not looked at by the filter either: the listener runs
    twice for the transaction "a". *)
Lemma dedup_misses_falsy_and_batched :
  let blank := inbound "transaction:T" (trade (JStr "")) in
  let batch := inbound "transaction:T" (Some (JArr [JObj [("tx", JStr "a")]])) in
  (exec (run [SocketReceives 1 blank; SocketReceives 1 blank]) live).2
  = [Emit "transaction:T" (APayload (trade (JStr "")));
     Invoke 7 (APayload (trade (JStr "")));
     Emit "transaction:T" (APayload (trade (JStr "")));
     Invoke 7 (APayload (trade (JStr "")))]
  /\ (exec (run [SocketReceives 1 batch; SocketReceives 1 batch]) live).2
     = [Emit "transaction:T" (APayload (msg_data batch));
        Invoke 7 (APayload (trade (JStr "a")));
        Emit "transaction:T" (APayload (msg_data batch));
        Invoke 7 (APayload (trade (JStr "a")))].
Proof. split; vm_compute; reflexivity. Qed.

(** C1, amended. Let the payload of a frame be an object whose [tx] is
    truthy and not an array or object (a non-empty string, say). If the
    [tx] is in the dedup set the frame is dropped: the world is unchanged
    and there is no effect (no emit, no callback, no error). Otherwise the
    [tx] is appended to the set and the frame is emitted under its room
    (after the derived key, for a price room). [disconnect()] empties the
    set. Hence, in a run of tasks without [disconnect()], once a frame
    with that [tx] has had any effect, a later frame with the same [tx] on
    any socket is dropped. *)
Theorem dedup_once_per_session (w : World) (message again : Message)
    (id1 id2 : nat) (between : list Event) :
  truthy (tx_of message) = true ->
  primitive (tx_of message) = true ->
  (JsSet.has same_value_zero (seen_of w) (tx_of message) = true ->
   exec (onmessage message) w = (w, []))
  /\ (String.eqb (msg_type message) "message" = true ->
      JsSet.has same_value_zero (seen_of w) (tx_of message) = false ->
      exec (onmessage message) w
      = (on_this (set_transactions (seen_of w ++ [tx_of message])) w,
         routed message w)
      /\ In (Emit (msg_room message) (APayload (msg_data message)))
            (routed message w))
  /\ seen_of (exec disconnect w).1 = []
  /\ (tx_of again = tx_of message ->
      forallb (fun e => negb (ends_session e)) between = true ->
      let s1 := exec (step (SocketReceives id1 message)) w in
      let s2 := exec (run between) s1.1 in
      s1.2 <> [] ->
      exec (step (SocketReceives id2 again)) s2.1 = (s2.1, [])).
Proof.
  intros Ht Hp. split; [|split; [|split]].
  - intros Hs. by apply onmessage_dropped.
  - intros Hm Hs. split; [by apply onmessage_new|].
    by apply routed_reaches_room.
  - apply disconnect_clears.
  - intros Hsame Hbetween s1 s2 Hout.
    assert (H1 : JsSet.has same_value_zero (seen_of s1.1) (tx_of message)
                 = true).
    { subst s1. destruct (exec_receive id1 message w) as [E|E];
        rewrite E in Hout |- *; [|done].
      by apply onmessage_records. }
    assert (H2 : JsSet.has same_value_zero (seen_of s2.1) (tx_of message)
                 = true) by (by apply run_keeps_seen).
    destruct (exec_receive id2 again s2.1) as [E|E]; rewrite E; [|done].
    apply onmessage_dropped; by rewrite Hsame.
Qed.

Lemma dedup_once_per_session_witness :
  let first := inbound "transaction:T" (trade (JStr "a")) in
  let s1 := exec (step (SocketReceives 1 first)) live in
  let s2 := exec (run [CallSubscribe "latest"]) s1.1 in
  s1.2 <> [] /\ exec (step (SocketReceives 0 first)) s2.1 = (s2.1, []).
Proof.
  intros first s1 s2.
  assert (Hout : s1.2 <> []) by (vm_compute; discriminate).
  split; [exact Hout|].
  exact (proj2 (proj2 (proj2
           (dedup_once_per_session live first first 1 0
              [CallSubscribe "latest"] eq_refl eq_refl)))
           eq_refl eq_refl Hout).
Defined.

(** *** Derived routing *)

(** C9. The routing comes after the dedup filter. For every frame of
    type "message" that the filter lets through (its payload has no truthy
    [tx], as the payload of a price update has none, or a [tx] not yet in
    the dedup set), on a room that contains "price:", with a payload whose
    [token] is the string TOKEN: the handler emits the payload under
    "price-by-token:TOKEN" and then under the room, and nothing else; so
    every listener registered under either key is called with it. *)
Theorem price_rooms_route_to_derived_key (w : World) (message : Message)
    (token : string) :
  String.eqb (msg_type message) "message" = true ->
  includes "price:" (msg_room message) = true ->
  opt_prop (msg_data message) "token" = Some (JStr token) ->
  truthy (tx_of message)
  && JsSet.has same_value_zero (seen_of w) (tx_of message) = false ->
  let data := APayload (msg_data message) in
  (exec (onmessage message) w).2
  = (exec (emit ("price-by-token:" +:+ token) data) w).2
    ++ (exec (emit (msg_room message) data) w).2
  /\ forall (l : Listener) (e : Effect),
      In l (listeners_of (this w) ("price-by-token:" +:+ token))
      \/ In l (listeners_of (this w) (msg_room message)) ->
      In e (call_listener data l) ->
      In e (exec (onmessage message) w).2.
Proof.
  intros Hm Hroom Htoken Hpass data.
  assert (Hout : (exec (onmessage message) w).2
                 = (exec (emit ("price-by-token:" +:+ token) data) w).2
                   ++ (exec (emit (msg_room message) data) w).2).
  { assert (Hr : routed message w
                 = (exec (emit ("price-by-token:" +:+ token) data) w).2
                   ++ (exec (emit (msg_room message) data) w).2).
    { unfold routed. rewrite Hroom.
      unfold opt_prop in Htoken. unfold get_prop.
      destruct (msg_data message) as [[| | | | |fields]|]; try done.
      by rewrite Htoken. }
    destruct (truthy (tx_of message)) eqn:Ht.
    - cbn [andb] in Hpass. by rewrite onmessage_new.
    - by rewrite onmessage_plain. }
  split; [exact Hout|].
  intros l e Hl He. rewrite Hout, !exec_emit. cbn [snd].
  apply in_or_app.
  destruct Hl as [Hl|Hl]; [left | right]; right;
    apply in_concat; exists (call_listener data l);
    (split; [|exact He]); apply in_map_iff; by exists l.
Qed.

Lemma price_rooms_route_to_derived_key_witness :
  let update := inbound "price:T" (price_update "T" (JStr "a")) in
  (exec (onmessage update) live).2
  = [Emit "price-by-token:T" (APayload (msg_data update));
     Invoke 7 (APayload (msg_data update));
     Emit "price:T" (APayload (msg_data update));
     Invoke 7 (APayload (msg_data update))].
Proof.
  intros update.
  rewrite (proj1 (price_rooms_route_to_derived_key live update "T"
                    eq_refl eq_refl eq_refl eq_refl)).
  reflexivity.
Defined.

(** *** Disconnecting *)

(** C5, as the claim states it, fails. After the main socket has closed
    a timer of [reconnect] is pending; [disconnect()] leaves it pending;
    when it fires, [connect()] runs and constructs two new sockets. *)
Lemma disconnect_leaves_reconnect_timer :
  let w := (exec disconnect backing_off).1 in
  timers backing_off = [3125 # 1]
  /\ timers w = [3125 # 1]
  /\ (exec (step (TimerFires 0)) w).2 = [NewWebSocket 2; NewWebSocket 3]
  /\ isConnecting (this (exec (step (TimerFires 0)) w).1) = true.
Proof. repeat split; vm_compute; reflexivity. Qed.

Lemma disconnect_exec (w : World) :
  exists heap' closes,
    exec disconnect w
    = ({| this := set_transactions []
                    (set_subscribedRooms []
                       (set_transactionSocket None (set_socket None (this w))));
          heap := heap'; attempts := attempts w; timers := timers w |},
       closes ++ (exec (emit "disconnected" (AScope "all")) w).2)
    /\ List.length heap' = List.length (heap w)
    /\ forall id, socket (this w) = Some id
                  \/ transactionSocket (this w) = Some id ->
                  In (Close id) closes.
Proof.
  destruct w as [[s ts n rd rm rf rooms seen ar ic ls] hp ats tms].
  unfold disconnect. rewrite exec_world. cbn [this socket transactionSocket].
  destruct s as [m|], ts as [t|].
  - eexists _, [Close m; Close t]. split; [reflexivity|]. split.
    + cbv [mbind action_bind update close on_socket effect on_this set_heap
           heap fst snd]. by rewrite !length_alter.
    + intros id [[= <-]|[= <-]]; cbn; auto.
  - eexists _, [Close m]. split; [reflexivity|]. split.
    + cbv [mbind action_bind update close on_socket effect on_this set_heap
           heap fst snd skip mret action_ret]. by rewrite !length_alter.
    + intros id [[= <-]|[=]]; cbn; auto.
  - eexists _, [Close t]. split; [reflexivity|]. split.
    + cbv [mbind action_bind update close on_socket effect on_this set_heap
           heap fst snd skip mret action_ret]. by rewrite !length_alter.
    + intros id [[=]|[= <-]]; cbn; auto.
  - eexists _, []. split; [reflexivity|]. split; [done|].
    by intros id [[=]|[=]].
Qed.

(** C5, amended. [disconnect()] calls [close()] on each channel socket
    it holds and forgets both, empties the tracked rooms and the dedup set
    and emits "disconnected" with "all". It does not touch the timers: a
    reconnect timer that was pending stays pending. It leaves
    [isConnecting] as it was; when no attempt to connect is in flight, a
    following [connect()] starts a new attempt: it constructs a socket for
    each of the two channels. *)
Theorem disconnect_resets_the_object (w : World) :
  let w' := (exec disconnect w).1 in
  let out := (exec disconnect w).2 in
  socket (this w') = None /\ transactionSocket (this w') = None
  /\ rooms_of w' = [] /\ seen_of w' = []
  /\ (forall id, socket (this w) = Some id
                \/ transactionSocket (this w) = Some id ->
                In (Close id) out)
  /\ In (Emit "disconnected" (AScope "all")) out
  /\ timers w' = timers w
  /\ isConnecting (this w') = isConnecting (this w)
  /\ (isConnecting (this w) = false ->
      (exec connect w').2
      = [NewWebSocket (List.length (heap w));
         NewWebSocket (S (List.length (heap w)))]
      /\ isConnecting (this (exec connect w').1) = true).
Proof.
  destruct (disconnect_exec w) as (heap' & closes & E & Hlen & Hclose).
  cbn zeta. rewrite E. cbn [fst snd].
  split; [done|]. split; [done|]. split; [done|]. split; [done|].
  split; [|split; [|split; [done|split; [done|]]]].
  - intros id Hid. apply in_or_app. left. by apply Hclose.
  - apply in_or_app. right. rewrite exec_emit. by left.
  - intros Hidle. unfold connect. rewrite exec_world.
    cbn [this socket transactionSocket set_transactions set_subscribedRooms
         set_transactionSocket set_socket non_null andb isConnecting].
    rewrite Hidle. unfold createSocket.
    cbv [exec mbind action_bind update world effect on_this set_heap
         set_attempts heap this fst snd set_isConnecting isConnecting].
    cbn [app]. rewrite length_app, Hlen. cbn [List.length].
    split; [|done].
    replace (List.length (heap w) + 1)%nat with (S (List.length (heap w)))
      by lia.
    reflexivity.
Qed.

Lemma disconnect_resets_the_object_witness :
  isConnecting (this backing_off) = false
  /\ (exec connect (exec disconnect backing_off).1).2
     = [NewWebSocket 2; NewWebSocket 3].
Proof.
  split; [reflexivity|].
  destruct (disconnect_resets_the_object backing_off)
    as (_ & _ & _ & _ & _ & _ & _ & _ & H).
  apply (H eq_refl).
Defined.

(** *** Backoff *)




End DatastreamClaims.

(** * Further properties of the aggregator *)

Section AggregatorProperties.
Import EventProcessor.
Context {number : Type}.
Variables (num_add num_sub num_mul num_div : number -> number -> number).
Variable num_gt : number -> number -> bool.
Variable num_of_Z : Z -> number.
Variable float32 : f32 -> number.
Variable toString : number -> string.
Variable parseFloat : string -> number.

Abbreviation Stats := (gmap string (@Period number)).
Abbreviation touch' := (touch num_add toString parseFloat).
Abbreviation each_timeframe' :=
  (each_timeframe num_add num_gt num_of_Z toString parseFloat).
Abbreviation process_event' :=
  (process_event num_add num_sub num_div num_gt num_of_Z toString parseFloat).
Abbreviation for_range' :=
  (for_range num_add num_sub num_div num_gt num_of_Z toString parseFloat).
Abbreviation chunks' :=
  (chunks num_add num_sub num_mul num_div num_gt num_of_Z toString parseFloat).
Abbreviation transform' := (transform num_sub num_mul num_div num_gt num_of_Z).
Abbreviation timeframe_stats' :=
  (timeframe_stats num_sub num_mul num_div num_gt num_of_Z).
Abbreviation processEvents' :=
  (processEvents num_add num_sub num_mul num_div num_gt num_of_Z float32
     toString parseFloat).
Abbreviation processEventsAsync' :=
  (processEventsAsync num_add num_sub num_mul num_div num_gt num_of_Z float32
     toString parseFloat).
Abbreviation in_window' := (in_window num_sub num_div num_gt num_of_Z).
Abbreviation window' := (window num_sub num_div num_gt num_of_Z).
Abbreviation period_of' := (period_of num_add num_of_Z toString parseFloat).
Abbreviation price_of' := (price_of toString parseFloat).
Abbreviation windowed' :=
  (windowed num_add num_sub num_mul num_div num_gt num_of_Z toString
     parseFloat).

Lemma timeframes_NoDup : NoDup timeframes.*1.
Proof. apply (bool_decide_unpack _). vm_compute. reflexivity. Qed.

Lemma foldl_insert_lookup (p : @Period number) (l : list (string * Z)) :
  forall (stats : Stats) (key : string),
    key ∈ l.*1 \/ stats !! key = Some p ->
    foldl (fun s b => <[b.1 := p]> s) stats l !! key = Some p.
Proof.
  induction l as [|b l IH]; intros stats key H; simpl.
  - destruct H as [H|H]; [by apply elem_of_nil in H | done].
  - apply IH. destruct (decide (b.1 = key)) as [->|Hne].
    + right. apply lookup_insert_eq.
    + destruct H as [H|H].
      * rewrite fmap_cons in H. apply elem_of_cons in H as [->|H]; [done|].
        by left.
      * right. by rewrite lookup_insert_ne.
Qed.

Lemma init_stats_lookup (key : string) :
  key ∈ timeframes.*1 ->
  init_stats num_of_Z !! key = Some (empty_period num_of_Z).
Proof.
  intros Hkey. unfold init_stats. apply foldl_insert_lookup. by left.
Qed.

(** The loop over the timeframes updates the entries whose window holds
    the event, each once, and no other entry. *)
Lemma each_timeframe_lookup (timeDiff : number) (event : Event)
    (bounds : list (string * Z)) :
  NoDup bounds.*1 ->
  forall stats : Stats,
    (forall b, b ∈ bounds -> is_Some (stats !! b.1)) ->
    exists stats',
      each_timeframe' bounds timeDiff event stats = Normal stats'
      /\ (forall key seconds, (key, seconds) ∈ bounds ->
            stats' !! key
            = (if num_gt timeDiff (num_of_Z seconds) then id
               else touch' event) <$> stats !! key)
      /\ (forall key, key ∉ bounds.*1 -> stats' !! key = stats !! key).
Proof.
  induction bounds as [|[k s] bounds IH]; intros Hnd stats Hall.
  - exists stats. split; [done|]. split; [|done].
    intros key seconds H. by apply elem_of_nil in H.
  - rewrite fmap_cons in Hnd. apply NoDup_cons in Hnd as [Hk Hnd].
    cbn [each_timeframe fst] in *.
    destruct (num_gt timeDiff (num_of_Z s)) eqn:Hgt.
    + destruct (IH Hnd stats) as (stats' & E & Hin & Hout).
      { intros b Hb. apply Hall. by right. }
      exists stats'. split; [done|]. split.
      * intros key seconds H. apply elem_of_cons in H as [[= -> ->]|H].
        -- rewrite Hgt, (Hout k Hk). by destruct (stats !! k).
        -- by apply Hin.
      * intros key Hkey. rewrite fmap_cons in Hkey.
        apply not_elem_of_cons in Hkey as [_ Hkey]. by apply Hout.
    + destruct (Hall (k, s)) as [period Hp]; [by left|].
      simpl in Hp. rewrite Hp.
      destruct (IH Hnd (<[k := touch' event period]> stats))
        as (stats' & E & Hin & Hout).
      { intros b Hb. apply lookup_insert_is_Some.
        destruct (decide (k = b.1)); [by left|].
        right. split; [done|]. apply Hall. by right. }
      exists stats'. split; [done|]. split.
      * intros key seconds H. apply elem_of_cons in H as [[= -> ->]|H].
        -- rewrite Hgt, (Hout k Hk), lookup_insert_eq, Hp. reflexivity.
        -- rewrite (Hin key seconds H), lookup_insert_ne; [done|].
           intros ->. apply Hk. apply list_elem_of_fmap.
           by exists (key, seconds).
      * intros key Hkey. rewrite fmap_cons in Hkey.
        apply not_elem_of_cons in Hkey as [Hne Hkey].
        rewrite (Hout key Hkey), lookup_insert_ne; [done|]. by intros ->.
Qed.

Lemma process_event_lookup (currentTimestamp : number) (event : Event)
    (stats : Stats) :
  covers stats ->
  exists stats',
    process_event' currentTimestamp event stats = Normal stats'
    /\ covers stats'
    /\ forall key seconds, (key, seconds) ∈ timeframes ->
         stats' !! key
         = (if in_window' currentTimestamp seconds event then touch' event
            else id) <$> stats !! key.
Proof.
  intros Hc.
  assert (Hcnt : counted event
                 = negb (negb (String.eqb (type event) "buy")
                         && negb (String.eqb (type event) "sell"))).
  { unfold counted.
    by destruct (String.eqb (type event) "buy"),
                (String.eqb (type event) "sell"). }
  unfold process_event, in_window. rewrite Hcnt.
  destruct (negb (String.eqb (type event) "buy")
            && negb (String.eqb (type event) "sell")); cbn [negb andb].
  - exists stats. split; [done|]. split; [done|].
    intros key seconds _. by destruct (stats !! key).
  - set (timeDiff := num_sub currentTimestamp
                       (num_div (time event) (num_of_Z 1000))).
    destruct (each_timeframe_lookup timeDiff event timeframeBoundaries)
      with (stats := stats) as (stats' & E & Hin & Hout).
    { rewrite boundaries_sorted. apply timeframes_NoDup. }
    { intros b Hb. apply Hc. rewrite boundaries_sorted in Hb.
      by apply list_elem_of_fmap_2. }
    rewrite boundaries_sorted in Hin.
    exists stats'. split; [exact E|]. split.
    + intros key Hkey.
      apply list_elem_of_fmap in Hkey as [[k s] [-> Hks]].
      cbn [fst]. rewrite (Hin _ _ Hks). apply fmap_is_Some, Hc.
      by apply (list_elem_of_fmap_2 fst _ (k, s)).
    + intros key seconds Hks. rewrite (Hin _ _ Hks).
      by destruct (num_gt timeDiff (num_of_Z seconds)).
Qed.

(** The loop over a range of the array applies, to the entry of each
    timeframe, the updates for the events of the range in its window. *)
Lemma for_range_lookup (currentTimestamp : number) (events : list Event) :
  forall (n i : nat) (stats : Stats),
    (i + n <= List.length events)%nat -> covers stats ->
    exists stats',
      for_range' currentTimestamp events i n stats = Normal stats'
      /\ covers stats'
      /\ forall key seconds, (key, seconds) ∈ timeframes ->
           stats' !! key
           = (fun period =>
                foldl (fun period event => touch' event period) period
                  (window' currentTimestamp seconds (take n (drop i events))))
             <$> stats !! key.
Proof.
  induction n as [|n IH]; intros i stats Hlen Hc.
  - exists stats. split; [done|]. split; [done|].
    intros key seconds _. rewrite take_0. by destruct (stats !! key).
  - cbn [for_range].
    destruct (lookup_lt_is_Some_2 events i) as [event Hev]; [lia|].
    rewrite Hev.
    destruct (process_event_lookup currentTimestamp event stats Hc)
      as (stats1 & -> & Hc1 & H1).
    cbn [mbind completion_bind].
    destruct (IH (S i) stats1) as (stats' & E & Hc' & H'); [lia | done |].
    exists stats'. split; [exact E|]. split; [done|].
    intros key seconds Hks.
    rewrite (H' _ _ Hks), (H1 _ _ Hks).
    rewrite (drop_S _ _ _ Hev). cbn [take]. unfold window. cbn [List.filter].
    destruct (stats !! key) as [period|]; [|done]. cbn [fmap option_fmap option_map].
    by destruct (in_window' currentTimestamp seconds event).
Qed.

Lemma period_of_snoc (l : list Event) (event : Event) :
  period_of' (l ++ [event]) = touch' event (period_of' l).
Proof. unfold period_of. by rewrite foldl_app. Qed.

Lemma hasData_period_of (l : list Event) :
  hasData (period_of' l) = negb (bool_decide (l = [])).
Proof.
  destruct l as [|e l] using rev_ind; [done|].
  rewrite period_of_snoc. cbn [touch hasData].
  rewrite bool_decide_eq_false_2; [done|]. by destruct l.
Qed.

Lemma omap_pointwise {A B : Type} (f g : A -> option B) (l : list A) :
  (forall x, f x = g x) -> omap f l = omap g l.
Proof.
  intros H. induction l as [|x l IH]; [done|].
  cbn [omap list_omap]. by rewrite H, IH.
Qed.

(** The last loop writes the timeframes that have data, in the order of
    the table. *)
Lemma transform_lookup (currentPrice : number) (stats : Stats)
    (periods : string * Z -> @Period number) (table : list (string * Z)) :
  forall sortedStats : ProcessedStats,
    (forall b, b ∈ table -> stats !! b.1 = Some (periods b)) ->
    transform' table.*1 currentPrice stats sortedStats
    = Normal (sortedStats
              ++ omap (fun b => if hasData (periods b)
                                then Some (b.1, timeframe_stats' currentPrice
                                                  (periods b))
                                else None) table).
Proof.
  induction table as [|b table IH]; intros sortedStats Hall.
  - simpl. by rewrite app_nil_r.
  - rewrite fmap_cons. cbn [transform omap list_omap].
    rewrite (Hall b) by (by left).
    destruct (hasData (periods b)); cbn [negb].
    + rewrite IH by (intros b' Hb'; apply Hall; by right).
      by rewrite <- app_assoc.
    + apply IH. intros b' Hb'. apply Hall. by right.
Qed.

(** [processEvents] on an events array, one timeframe at a time. *)
Lemma processEvents_windowed (now : number) (events : list Event) :
  processEvents' now (Events events) = Normal (windowed' now events).
Proof.
  unfold processEvents, windowed. cbn [events_of mbind completion_bind].
  destruct events as [|first events]; [done|].
  set (all := first :: events).
  set (ts := num_div now (num_of_Z 1000)).
  destruct (for_range_lookup ts all (List.length all) 0 (init_stats num_of_Z))
    as (stats & E & _ & H); [lia | apply init_stats_covers |].
  unfold Event in *. rewrite E. cbn [mbind completion_bind].
  rewrite (transform_lookup _ stats
             (fun b => period_of' (window' ts b.2 all))).
  - cbn [app]. f_equal. apply omap_pointwise. intros b.
    rewrite hasData_period_of. by destruct (window' ts b.2 all).
  - intros [key seconds] Hb. cbn [fst snd]. rewrite (H _ _ Hb).
    rewrite init_stats_lookup
      by (by apply (list_elem_of_fmap_2 fst _ (key, seconds))).
    cbn [drop]. rewrite firstn_all. reflexivity.
Qed.

Abbreviation volume_of' := (volume_of toString parseFloat).
Abbreviation sum_volumes' := (sum_volumes num_add num_of_Z toString parseFloat).

(** *** The entry of one timeframe *)

Lemma filter_snoc {A : Type} (f : A -> bool) (l : list A) (x : A) :
  List.filter f (l ++ [x]) = List.filter f l ++ (if f x then [x] else []).
Proof. rewrite List.filter_app. simpl. by destruct (f x). Qed.

(** A counter of the entry counts the events that it is incremented for. *)
Lemma count_field (field : @Period number -> nat) (f : Event -> bool) :
  field (empty_period num_of_Z) = 0%nat ->
  (forall e p, field (touch' e p) = if f e then S (field p) else field p) ->
  forall l, field (period_of' l) = List.length (List.filter f l).
Proof.
  intros H0 Hstep l. induction l as [|e l IH] using rev_ind; [done|].
  rewrite period_of_snoc, Hstep, IH, filter_snoc.
  destruct (f e); rewrite length_app; simpl; lia.
Qed.

(** A sum of the entry adds the volumes of the events it is updated for. *)
Lemma sum_field (field : @Period number -> number) (f : Event -> bool) :
  field (empty_period num_of_Z) = num_of_Z 0 ->
  (forall e p, field (touch' e p)
               = if f e then num_add (field p) (volume_of' e) else field p) ->
  forall l, field (period_of' l) = sum_volumes' (List.filter f l).
Proof.
  intros H0 Hstep l. induction l as [|e l IH] using rev_ind; [done|].
  rewrite period_of_snoc, Hstep, IH, filter_snoc.
  destruct (f e); [|by rewrite app_nil_r].
  unfold sum_volumes. by rewrite foldl_app.
Qed.

Lemma has_wallet_elem (s : list (option string)) (x : option string) :
  JsSet.has same_wallet s x = true <-> x ∈ s.
Proof.
  unfold JsSet.has, same_wallet. rewrite existsb_exists. split.
  - intros (y & Hy & Heq). apply bool_decide_eq_true in Heq as ->.
    by apply list_elem_of_In.
  - intros H. exists x. split; [by apply list_elem_of_In|].
    by apply bool_decide_eq_true.
Qed.

Lemma add_wallet (s : list (option string)) (x : option string) :
  NoDup s ->
  NoDup (JsSet.add same_wallet s x)
  /\ forall y, y ∈ JsSet.add same_wallet s x <-> y ∈ s \/ y = x.
Proof.
  intros Hs. unfold JsSet.add.
  destruct (JsSet.has same_wallet s x) eqn:E.
  - split; [done|]. intros y. split; [by left|].
    intros [H| ->]; [done|]. by apply has_wallet_elem.
  - split.
    + apply NoDup_app. split; [done|]. split; [|apply NoDup_singleton].
      intros y Hy Hx. apply list_elem_of_singleton in Hx as ->.
      apply has_wallet_elem in Hy. congruence.
    + intros y. rewrite elem_of_app, list_elem_of_singleton. tauto.
Qed.

(** A [Map] of the entry holds each wallet of the events it is set for
    once. *)
Lemma set_field (field : @Period number -> list (option string))
    (f : Event -> bool) :
  field (empty_period num_of_Z) = [] ->
  (forall e p, field (touch' e p)
               = if f e then JsSet.add same_wallet (field p) (wallet e)
                 else field p) ->
  forall l, List.length (field (period_of' l))
            = distinct_wallets (List.filter f l).
Proof.
  intros H0 Hstep l. unfold distinct_wallets.
  apply Permutation_length, NoDup_Permutation; [|apply NoDup_remove_dups|].
  - induction l as [|e l IH] using rev_ind.
    + unfold period_of. simpl. rewrite H0. apply NoDup_nil_2.
    + rewrite period_of_snoc, Hstep. destruct (f e); [|done].
      by apply add_wallet.
  - intros x. rewrite elem_of_remove_dups.
    induction l as [|e l IH] using rev_ind.
    + unfold period_of. simpl. by rewrite H0.
    + assert (Hnd : NoDup (field (period_of' l))).
      { clear IH. induction l as [|e' l IH] using rev_ind.
        - unfold period_of. simpl. rewrite H0. apply NoDup_nil_2.
        - rewrite period_of_snoc, Hstep. destruct (f e'); [|done].
          by apply add_wallet. }
      rewrite period_of_snoc, Hstep, filter_snoc.
      destruct (f e).
      * rewrite (proj2 (add_wallet _ (wallet e) Hnd)), IH, fmap_app,
          elem_of_app. simpl. rewrite list_elem_of_singleton. tauto.
      * by rewrite app_nil_r.
Qed.

Lemma initialPrice_kept (l : list Event) :
  forall p : @Period number,
    hasData p = true ->
    initialPrice (foldl (fun period event => touch' event period) p l)
    = initialPrice p.
Proof.
  induction l as [|e l IH]; intros p Hp; [done|].
  cbn [foldl]. rewrite IH by done. cbn [touch initialPrice]. by rewrite Hp.
Qed.

Lemma initialPrice_first (first : Event) (l : list Event) :
  initialPrice (period_of' (first :: l)) = price_of' first.
Proof.
  unfold period_of. cbn [foldl]. by rewrite initialPrice_kept.
Qed.

Lemma lastPrice_last (l : list Event) (final : Event) :
  lastPrice (period_of' (l ++ [final])) = price_of' final.
Proof. by rewrite period_of_snoc. Qed.

(** An entry of the result is the record of a timeframe of the table
    whose window is not empty. *)
Lemma windowed_entry (now : number) (events : list Event) (key : string)
    (st : @TimeframeStats number) :
  (key, st) ∈ windowed' now events ->
  exists first rest seconds,
    events = first :: rest
    /\ (key, seconds) ∈ timeframes
    /\ window' (num_div now (num_of_Z 1000)) seconds events <> []
    /\ st = timeframe_stats' (price_of' first)
              (period_of' (window' (num_div now (num_of_Z 1000)) seconds
                             events)).
Proof.
  unfold windowed. destruct events as [|first rest].
  { intros H. by apply elem_of_nil in H. }
  intros H. apply list_elem_of_omap in H as ([k s] & Hks & H).
  cbn [fst snd] in H.
  destruct (window' _ s (first :: rest)) as [|e l] eqn:E; [done|].
  injection H as -> <-.
  exists first, rest, s. rewrite E. by repeat split.
Qed.

Lemma windowed_has (now : number) (first : Event) (rest : list Event)
    (key : string) (seconds : Z) :
  (key, seconds) ∈ timeframes ->
  window' (num_div now (num_of_Z 1000)) seconds (first :: rest) <> [] ->
  (key, timeframe_stats' (price_of' first)
          (period_of' (window' (num_div now (num_of_Z 1000)) seconds
                         (first :: rest))))
  ∈ windowed' now (first :: rest).
Proof.
  intros Hks Hne. unfold windowed. apply list_elem_of_omap.
  exists (key, seconds). split; [done|]. cbn [fst snd].
  by destruct (window' _ seconds (first :: rest)).
Qed.

Lemma timeframes_seconds (key : string) (s1 s2 : Z) :
  (key, s1) ∈ timeframes -> (key, s2) ∈ timeframes -> s1 = s2.
Proof.
  pose proof timeframes_NoDup as Hnd. revert Hnd.
  induction timeframes as [|[k s] l IH]; intros Hnd H1 H2.
  - by apply elem_of_nil in H1.
  - rewrite fmap_cons in Hnd. apply NoDup_cons in Hnd as [Hk Hnd].
    assert (Hin : forall s', (key, s') ∈ l -> key ∈ l.*1).
    { intros s' H. by apply (list_elem_of_fmap_2 fst l (key, s')). }
    apply elem_of_cons in H1 as [E1|H1]; apply elem_of_cons in H2 as [E2|H2].
    + congruence.
    + injection E1 as -> ->. by apply Hin in H2.
    + injection E2 as -> ->. by apply Hin in H1.
    + by apply IH.
Qed.

Lemma processEvents_entry (now : number) (events : list Event)
    (result : ProcessedStats) (key : string) (st : @TimeframeStats number) :
  processEvents' now (Events events) = Normal result ->
  (key, st) ∈ result ->
  exists first rest seconds,
    events = first :: rest
    /\ (key, seconds) ∈ timeframes
    /\ window' (num_div now (num_of_Z 1000)) seconds events <> []
    /\ st = timeframe_stats' (price_of' first)
              (period_of' (window' (num_div now (num_of_Z 1000)) seconds
                             events)).
Proof.
  rewrite processEvents_windowed. intros [= <-]. apply windowed_entry.
Qed.

Lemma window_counted (ts : number) (seconds : Z) (l : list Event) :
  forall e, e ∈ window' ts seconds l -> counted e = true.
Proof.
  intros e He. unfold window in He.
  apply list_elem_of_In, List.filter_In in He as [_ He].
  unfold in_window in He. by apply andb_true_iff in He as [He _].
Qed.

Lemma length_filter_split {A : Type} (f : A -> bool) (l : list A) :
  List.length l
  = (List.length (List.filter f l)
     + List.length (List.filter (fun x => negb (f x)) l))%nat.
Proof.
  induction l as [|x l IH]; [done|]. simpl.
  destruct (f x); simpl; lia.
Qed.

Lemma filter_true {A : Type} (l : list A) :
  List.filter (fun _ => true) l = l.
Proof. induction l as [|x l IH]; [done|]. simpl. by rewrite IH. Qed.

(** X1. [processEvents] and [processEventsAsync] compute each timeframe
    on its own: the result lists, in the order of the timeframe table, each
    timeframe for which at least one buy or sell of the array has
    [timeDiff > seconds] false, with the record built from exactly those
    events, taken in the order of the array; the current price is read from
    the first event of the array. On binary data the same holds for the
    decoded events. *)
Theorem aggregator_works_window_by_window (now : number)
    (events : list Event) (binaryData : list byte) (onProgress : bool) :
  processEvents' now (Events events) = Normal (windowed' now events)
  /\ (processEventsAsync' now (Events events) onProgress).1
     = Fulfilled (windowed' now events)
  /\ processEvents' now (Binary binaryData)
     = match decodeBinaryEvents binaryData with
       | Normal decoded =>
           Normal (windowed' now
                     (List.map (decoded_event num_of_Z float32) decoded))
       | Throw e => Throw e
       end.
Proof.
  split; [apply processEvents_windowed|]. split.
  - by rewrite async_follows_sync, processEvents_windowed.
  - destruct (decodeBinaryEvents binaryData) as [decoded|e] eqn:E.
    + rewrite <- processEvents_windowed.
      unfold processEvents. cbn [events_of]. by rewrite E.
    + unfold processEvents. cbn [events_of]. by rewrite E.
Qed.

(** The fields of the entry of a window. *)
Lemma period_fields (l : list (@Event number)) :
  totalTransactions (period_of' l) = List.length l
  /\ buys (period_of' l) = List.length (List.filter is_buy l)
  /\ sells (period_of' l) = List.length (List.filter is_sell l)
  /\ List.length (buyers (period_of' l))
     = distinct_wallets (List.filter is_buy l)
  /\ List.length (sellers (period_of' l))
     = distinct_wallets (List.filter is_sell l)
  /\ List.length (totalWallets (period_of' l)) = distinct_wallets l
  /\ totalVolume (period_of' l) = sum_volumes' l
  /\ buyVolume (period_of' l) = sum_volumes' (List.filter is_buy l)
  /\ sellVolume (period_of' l) = sum_volumes' (List.filter is_sell l).
Proof.
  assert (Hb : forall (A : Type) (e : @Event number) (x y : A),
             (if String.eqb (type e) "buy" then x else y)
             = if is_buy e then x else y) by done.
  assert (Hs : forall (A : Type) (e : @Event number) (x y : A),
             (if String.eqb (type e) "buy" then y else x)
             = if is_sell e then x else y).
  { intros A e x y. unfold is_sell, is_buy.
    by destruct (String.eqb (type e) "buy"). }
  repeat split.
  - rewrite (count_field totalTransactions (fun _ => true)); [|done|done].
    by rewrite filter_true.
  - apply count_field; [done|]. intros e p. cbn [touch buys]. apply Hb.
  - apply count_field; [done|]. intros e p. cbn [touch sells]. apply Hs.
  - apply set_field; [done|]. intros e p. cbn [touch buyers]. apply Hb.
  - apply set_field; [done|]. intros e p. cbn [touch sellers]. apply Hs.
  - rewrite (set_field totalWallets (fun _ => true)); [|done|done].
    by rewrite filter_true.
  - rewrite (sum_field totalVolume (fun _ => true)); [|done|done].
    by rewrite filter_true.
  - apply sum_field; [done|]. intros e p. cbn [touch buyVolume]. apply Hb.
  - apply sum_field; [done|]. intros e p. cbn [touch sellVolume]. apply Hs.
Qed.

Lemma distinct_le_length (k : list (@Event number)) :
  (distinct_wallets k <= List.length k)%nat.
Proof.
  unfold distinct_wallets.
  transitivity (List.length (wallet <$> k)); [|by rewrite length_fmap].
  apply submseteq_length, NoDup_submseteq; [apply NoDup_remove_dups|].
  intros x. by rewrite elem_of_remove_dups.
Qed.

(** Fewer events have no more distinct wallets. *)
Lemma distinct_mono (k l : list (@Event number)) :
  (forall e, e ∈ k -> e ∈ l) ->
  (distinct_wallets k <= distinct_wallets l)%nat.
Proof.
  intros Hkl. unfold distinct_wallets. apply submseteq_length.
  apply NoDup_submseteq; [apply NoDup_remove_dups|].
  intros x. rewrite !elem_of_remove_dups, !list_elem_of_fmap.
  intros (e & -> & He). exists e. split; [done|]. by apply Hkl.
Qed.

Lemma elem_of_filter_bool {A : Type} (f : A -> bool) (l : list A) (x : A) :
  x ∈ List.filter f l <-> x ∈ l /\ f x = true.
Proof. by rewrite !list_elem_of_In, List.filter_In. Qed.

(** X2. In every record of the result, [transactions] is the number of
    buys and sells of the array in the window of the timeframe (at least
    one), [buys] and [sells] count them by type and add up to
    [transactions], and the three volumes are the sums, built from 0 in the
    order of the array, of the volumes of those events, of the buys and of
    the sells. *)
Theorem record_counts_the_window (now : number) (events : list Event)
    (result : ProcessedStats) (key : string) (st : @TimeframeStats number) :
  processEvents' now (Events events) = Normal result ->
  (key, st) ∈ result ->
  exists seconds : Z,
    (key, seconds) ∈ timeframes
    /\ let l := window' (num_div now (num_of_Z 1000)) seconds events in
       transactions st = List.length l
       /\ (1 <= transactions st)%nat
       /\ ts_buys st = List.length (List.filter is_buy l)
       /\ ts_sells st = List.length (List.filter is_sell l)
       /\ transactions st = (ts_buys st + ts_sells st)%nat
       /\ vol_total (ts_volume st) = sum_volumes' l
       /\ vol_buys (ts_volume st) = sum_volumes' (List.filter is_buy l)
       /\ vol_sells (ts_volume st) = sum_volumes' (List.filter is_sell l).
Proof.
  intros Hres Hst.
  destruct (processEvents_entry _ _ _ _ _ Hres Hst)
    as (first & rest & seconds & _ & Hks & Hne & ->).
  exists seconds. split; [done|]. cbn zeta.
  set (l := window' _ seconds events) in *.
  destruct (period_fields l) as (Ht & Hb & Hs & _ & _ & _ & Hv & Hbv & Hsv).
  cbn [timeframe_stats transactions ts_buys ts_sells ts_volume vol_total
       vol_buys vol_sells].
  rewrite Ht, Hb, Hs. split; [done|]. split.
  { destruct l; [done|]. simpl. lia. }
  split; [done|]. split; [done|]. split; [|done].
  unfold is_sell. apply length_filter_split.
Qed.

(** X3. In every record of the result, [buyers], [sellers] and [wallets]
    are the numbers of distinct wallets among the buys, among the sells and
    among all events of the window; an undefined wallet counts as one
    wallet. Hence [buyers <= buys], [sellers <= sells], and [wallets] lies
    between the larger of [buyers] and [sellers] and their sum. *)
Theorem record_counts_distinct_wallets (now : number) (events : list Event)
    (result : ProcessedStats) (key : string) (st : @TimeframeStats number) :
  processEvents' now (Events events) = Normal result ->
  (key, st) ∈ result ->
  exists seconds : Z,
    (key, seconds) ∈ timeframes
    /\ let l := window' (num_div now (num_of_Z 1000)) seconds events in
       ts_buyers st = distinct_wallets (List.filter is_buy l)
       /\ ts_sellers st = distinct_wallets (List.filter is_sell l)
       /\ wallets st = distinct_wallets l
       /\ (ts_buyers st <= ts_buys st)%nat
       /\ (ts_sellers st <= ts_sells st)%nat
       /\ (ts_buyers st <= wallets st)%nat
       /\ (ts_sellers st <= wallets st)%nat
       /\ (wallets st <= ts_buyers st + ts_sellers st)%nat.
Proof.
  intros Hres Hst.
  destruct (processEvents_entry _ _ _ _ _ Hres Hst)
    as (first & rest & seconds & _ & Hks & Hne & ->).
  exists seconds. split; [done|]. cbn zeta.
  set (l := window' _ seconds events) in *.
  destruct (period_fields l) as (_ & Hnb & Hns & Hb & Hs & Hw & _).
  cbn [timeframe_stats ts_buyers ts_sellers wallets ts_buys ts_sells].
  rewrite Hb, Hs, Hw, Hnb, Hns.
  split; [done|]. split; [done|]. split; [done|].
  split; [apply distinct_le_length|]. split; [apply distinct_le_length|].
  split; [apply distinct_mono; intros e; rewrite elem_of_filter_bool; tauto|].
  split; [apply distinct_mono; intros e; rewrite elem_of_filter_bool; tauto|].
  unfold distinct_wallets.
  rewrite <- length_app. apply submseteq_length.
  apply NoDup_submseteq; [apply NoDup_remove_dups|].
  intros x. rewrite elem_of_app, !elem_of_remove_dups, !list_elem_of_fmap.
  intros (e & -> & He).
  destruct (is_buy e) eqn:Hbuy; [left | right]; exists e;
    (split; [done|]); apply elem_of_filter_bool; (split; [done|]); [done|].
  unfold is_sell. by rewrite Hbuy.
Qed.

(** X4. In every record of the result, [price] is the price of the first
    event of the array that lies in the window, and
    [priceChangePercentage] is 0 unless that price is greater than 0, and
    otherwise 100 * ((current - last) / last), where [current] is the price
    of the first event of the array and [last] the price of the last event
    of the array that lies in the window. *)
Theorem record_prices (now : number) (events : list Event)
    (result : ProcessedStats) (key : string) (st : @TimeframeStats number) :
  processEvents' now (Events events) = Normal result ->
  (key, st) ∈ result ->
  exists (seconds : Z) (current first final : Event)
         (more rest before : list Event),
    (key, seconds) ∈ timeframes
    /\ events = current :: more
    /\ window' (num_div now (num_of_Z 1000)) seconds events = first :: rest
    /\ window' (num_div now (num_of_Z 1000)) seconds events
       = before ++ [final]
    /\ price st = price_of' first
    /\ priceChangePercentage st
       = if num_gt (price_of' first) (num_of_Z 0) then
           num_mul (num_of_Z 100)
             (num_div (num_sub (price_of' current) (price_of' final))
                      (price_of' final))
         else num_of_Z 0.
Proof.
  intros Hres Hst.
  destruct (processEvents_entry _ _ _ _ _ Hres Hst)
    as (current & more & seconds & Hev & Hks & Hne & ->).
  destruct (List.exists_last Hne) as (before & final & Hlast).
  destruct (window' _ seconds events) as [|first rest] eqn:Hl; [done|].
  exists seconds, current, first, final, more, rest, before.
  split; [done|]. split; [done|]. split; [done|]. split; [congruence|].
  cbn [timeframe_stats price priceChangePercentage].
  rewrite initialPrice_first. split; [done|].
  by rewrite Hlast, lastPrice_last.
Qed.

Lemma length_filter_mono {A : Type} (f g : A -> bool) (l : list A) :
  (forall x, f x = true -> g x = true) ->
  (List.length (List.filter f l) <= List.length (List.filter g l))%nat.
Proof.
  intros Hfg. induction l as [|x l IH]; [done|]. simpl.
  destruct (f x) eqn:Hf.
  - rewrite (Hfg x Hf). simpl. lia.
  - destruct (g x); simpl; lia.
Qed.

Lemma filter_filter {A : Type} (f g : A -> bool) (l : list A) :
  List.filter f (List.filter g l) = List.filter (fun x => g x && f x) l.
Proof.
  induction l as [|x l IH]; [done|]. simpl.
  destruct (g x); simpl; [destruct (f x)|]; by rewrite IH.
Qed.

(** The window of a longer timeframe holds the window of a shorter
    one. *)
Lemma window_nested (ts : number) (s1 s2 : Z) (events : list (@Event number)) :
  (forall (x : number) (a b : Z),
      a <= b -> num_gt x (num_of_Z b) = true ->
      num_gt x (num_of_Z a) = true) ->
  s1 <= s2 ->
  let p1 := period_of' (window' ts s1 events) in
  let p2 := period_of' (window' ts s2 events) in
  (window' ts s1 events <> [] -> window' ts s2 events <> [])
  /\ (totalTransactions p1 <= totalTransactions p2)%nat
  /\ (buys p1 <= buys p2)%nat
  /\ (sells p1 <= sells p2)%nat
  /\ (List.length (buyers p1) <= List.length (buyers p2))%nat
  /\ (List.length (sellers p1) <= List.length (sellers p2))%nat
  /\ (List.length (totalWallets p1) <= List.length (totalWallets p2))%nat.
Proof.
  intros Hmono Hle p1 p2.
  assert (Hin : forall e, in_window' ts s1 e = true ->
                          in_window' ts s2 e = true).
  { intros e. unfold in_window. rewrite !andb_true_iff, !negb_true_iff.
    intros [Hc Hgt]. split; [done|].
    destruct (num_gt _ (num_of_Z s2)) eqn:E; [|done].
    by rewrite (Hmono _ _ _ Hle E) in Hgt. }
  assert (Hsub : forall e, e ∈ window' ts s1 events ->
                           e ∈ window' ts s2 events).
  { intros e. unfold window. rewrite !elem_of_filter_bool.
    intros [He Hw]. split; [done|]. by apply Hin. }
  split.
  { destruct (window' ts s1 events) as [|e l1'] eqn:E; [done|].
    intros _ H2. assert (He : e ∈ window' ts s2 events)
      by (apply Hsub; by left).
    rewrite H2 in He. by apply elem_of_nil in He. }
  destruct (period_fields (window' ts s1 events))
    as (Ht1 & Hb1 & Hs1 & Hbs1 & Hss1 & Hw1 & _).
  destruct (period_fields (window' ts s2 events))
    as (Ht2 & Hb2 & Hs2 & Hbs2 & Hss2 & Hw2 & _).
  subst p1 p2.
  rewrite Ht1, Hb1, Hs1, Hbs1, Hss1, Hw1, Ht2, Hb2, Hs2, Hbs2, Hss2, Hw2.
  unfold window. rewrite !filter_filter.
  split; [by apply length_filter_mono|].
  split; [apply length_filter_mono; intros e;
          rewrite !andb_true_iff; intros [? ?]; auto|].
  split; [apply length_filter_mono; intros e;
          rewrite !andb_true_iff; intros [? ?]; auto|].
  split; [apply distinct_mono; intros e; rewrite !elem_of_filter_bool,
          !andb_true_iff; intros [? [? ?]]; auto|].
  split; [apply distinct_mono; intros e; rewrite !elem_of_filter_bool,
          !andb_true_iff; intros [? [? ?]]; auto|].
  apply distinct_mono. intros e. rewrite !elem_of_filter_bool.
  intros [? ?]. auto.
Qed.

(** X5. When [>] on numbers is monotone in its right argument (as it is
    on IEEE doubles), the windows are nested: if the result has a record
    for a timeframe, it has one for every longer timeframe, and none of
    [transactions], [buys], [sells], [buyers], [sellers] and [wallets] is
    smaller there. *)
Theorem longer_timeframes_hold_more (now : number) (events : list Event)
    (result : ProcessedStats) (key1 key2 : string) (s1 s2 : Z)
    (st1 : @TimeframeStats number) :
  (forall (x : number) (a b : Z),
      a <= b -> num_gt x (num_of_Z b) = true ->
      num_gt x (num_of_Z a) = true) ->
  processEvents' now (Events events) = Normal result ->
  (key1, s1) ∈ timeframes -> (key2, s2) ∈ timeframes -> s1 <= s2 ->
  (key1, st1) ∈ result ->
  exists st2 : @TimeframeStats number,
    (key2, st2) ∈ result
    /\ (transactions st1 <= transactions st2)%nat
    /\ (ts_buys st1 <= ts_buys st2)%nat
    /\ (ts_sells st1 <= ts_sells st2)%nat
    /\ (ts_buyers st1 <= ts_buyers st2)%nat
    /\ (ts_sellers st1 <= ts_sellers st2)%nat
    /\ (wallets st1 <= wallets st2)%nat.
Proof.
  intros Hmono Hres Hk1 Hk2 Hle Hst.
  destruct (processEvents_entry _ _ _ _ _ Hres Hst)
    as (first & rest & seconds & Hev & Hks & Hne & Hst1).
  rewrite (timeframes_seconds _ _ _ Hks Hk1) in Hne, Hst1.
  destruct (window_nested (num_div now (num_of_Z 1000)) s1 s2 events
              Hmono Hle) as (Hne2 & Hfields).
  exists (timeframe_stats' (price_of' first)
            (period_of' (window' (num_div now (num_of_Z 1000)) s2 events))).
  split.
  - pose proof (processEvents_windowed now events) as Hw.
    rewrite Hres in Hw. injection Hw as ->. rewrite Hev.
    apply windowed_has; [done|]. rewrite <- Hev. by apply Hne2.
  - rewrite Hst1. exact Hfields.
Qed.

(** *** The progress reports of [processEventsAsync] *)

Abbreviation progress_of' := (progress_of num_mul num_div num_of_Z).

Lemma rounds_spec (n k : nat) : (k * CHUNK_SIZE < n)%nat <-> (k < rounds n)%nat.
Proof.
  pose proof CHUNK_SIZE_pos as Hpos. unfold rounds.
  set (C := CHUNK_SIZE) in *. split.
  - intros Hlt. apply (Nat.div_le_lower_bound _ C (S k)); [lia|].
    rewrite Nat.mul_succ_r. lia.
  - intros Hlt. destruct (Nat.le_gt_cases n (k * C)) as [Hge|]; [|done].
    exfalso.
    assert (Hdiv : ((n + C - 1) / C < S k)%nat).
    { apply Nat.Div0.div_lt_upper_bound. rewrite Nat.mul_succ_r. lia. }
    lia.
Qed.

Lemma chunks_without_progress (ts : number) (events : list Event) :
  forall (fuel chunk : nat) (stats : Stats) (progress : list number),
    (chunks' fuel ts events false chunk stats progress).2 = progress.
Proof.
  induction fuel as [|fuel IH]; intros chunk stats progress; [done|].
  cbn [chunks]. destruct (chunk <? List.length events)%nat; [|done].
  destruct (for_range' _ _ _ _ _); [apply IH | done].
Qed.

(** Every round of the chunked loop reports once. *)
Lemma chunks_progress (ts : number) (events : list Event) :
  forall (fuel k : nat) (stats : Stats) (progress : list number),
    covers stats ->
    (rounds (List.length events) - k <= fuel)%nat ->
    (chunks' fuel ts events true (k * CHUNK_SIZE) stats progress).2
    = progress
      ++ (progress_of' (List.length events)
            <$> seq k (rounds (List.length events) - k)).
Proof.
  set (n := List.length events).
  induction fuel as [|fuel IH]; intros k stats progress Hc Hfuel.
  - replace (rounds n - k)%nat with 0%nat by lia.
    simpl. by rewrite app_nil_r.
  - cbn [chunks]. fold n.
    destruct (Nat.ltb_spec (k * CHUNK_SIZE) n) as [Hlt|Hge].
    + apply rounds_spec in Hlt as Hk.
      set (stop := Nat.min (k * CHUNK_SIZE + CHUNK_SIZE) n).
      destruct (for_range_total num_add num_sub num_div num_gt num_of_Z
                  toString parseFloat ts events (stop - k * CHUNK_SIZE)
                  (k * CHUNK_SIZE) stats) as (stats1 & E1 & Hc1);
        [fold n; lia | done |].
      rewrite E1. rewrite <- Nat.mul_succ_l.
      rewrite IH by (done || lia).
      replace (rounds n - k)%nat with (S (rounds n - S k)) by lia.
      cbn [seq fmap list_fmap]. rewrite <- app_assoc. cbn [app].
      do 2 f_equal. unfold progress_of, stop.
      by rewrite Nat.add_1_r, Nat.mul_succ_l.
    + assert (Hk : ~ (k < rounds n)%nat) by (rewrite <- rounds_spec; lia).
      replace (rounds n - k)%nat with 0%nat by lia.
      simpl. by rewrite app_nil_r.
Qed.

Lemma rounds_le (n : nat) : (rounds n <= n)%nat.
Proof.
  pose proof CHUNK_SIZE_pos as Hpos.
  destruct (Nat.le_gt_cases (rounds n) n) as [|Hgt]; [done|].
  apply rounds_spec in Hgt. nia.
Qed.

(** X6. Without a progress callback [processEventsAsync] reports nothing.
    With one, it calls it once per chunk of 100000 events, in order: for
    [n] events there are ceil(n / 100000) calls (none for an empty array),
    call [k] (from 0) with [(min((k + 1) * 100000, n) / n) * 100], so that
    the last call is made with [(n / n) * 100]. *)
Theorem progress_is_reported_once_per_chunk (now : number)
    (events : list Event) :
  let n := List.length events in
  (processEventsAsync' now (Events events) false).2 = []
  /\ (processEventsAsync' now (Events events) true).2
     = progress_of' n <$> seq 0 (rounds n)
  /\ (forall k : nat, (k * CHUNK_SIZE < n)%nat <-> (k < rounds n)%nat)
  /\ (events <> [] ->
      last (processEventsAsync' now (Events events) true).2
      = Some (num_mul (num_div (num_of_Z (Z.of_nat n)) (num_of_Z (Z.of_nat n)))
                (num_of_Z 100))).
Proof.
  intros n.
  assert (Hpos : events <> [] -> (0 < n)%nat).
  { unfold n. destruct events; [done|]. intros _. cbn [List.length]. lia. }
  assert (Hfalse : (processEventsAsync' now (Events events) false).2 = []).
  { unfold processEventsAsync. cbn [events_of].
    destruct events as [|first rest]; [done|].
    pose proof (chunks_without_progress (num_div now (num_of_Z 1000))
                  (first :: rest) (List.length (first :: rest)) 0
                  (init_stats num_of_Z) []) as H.
    destruct (chunks' _ _ _ _ _ _ _) as [[stats|] progress];
      cbn [snd] in H; subst progress; [|done].
    by destruct (transform' _ _ _ _). }
  assert (Htrue : (processEventsAsync' now (Events events) true).2
                  = progress_of' n <$> seq 0 (rounds n)).
  { unfold processEventsAsync. cbn [events_of].
    destruct events as [|first rest].
    { subst n. unfold rounds. cbn [List.length].
      rewrite Nat.div_small; [done|]. pose proof CHUNK_SIZE_pos. lia. }
    pose proof (chunks_progress (num_div now (num_of_Z 1000))
                  (first :: rest) (List.length (first :: rest)) 0
                  (init_stats num_of_Z) [] (init_stats_covers num_of_Z)) as H.
    fold n in H. rewrite Nat.sub_0_r in H. cbn [Nat.mul app] in H.
    specialize (H (rounds_le n)).
    destruct (chunks' _ _ _ _ _ _ _) as [[stats|] progress];
      cbn [snd] in H; subst progress; [|done].
    by destruct (transform' _ _ _ _). }
  split; [done|]. split; [done|]. split; [intros k; apply rounds_spec|].
  intros Hne. rewrite Htrue.
  specialize (Hpos Hne).
  assert (Hr : (0 < rounds n)%nat).
  { apply rounds_spec. lia. }
  replace (rounds n) with (S (rounds n - 1)) by lia.
  rewrite seq_S, fmap_app. cbn [Nat.add fmap list_fmap].
  rewrite last_snoc. f_equal. unfold progress_of.
  rewrite Nat.min_r; [done|].
  assert (H : ~ (rounds n * CHUNK_SIZE < n)%nat) by (rewrite rounds_spec; lia).
  replace (rounds n - 1 + 1)%nat with (rounds n) by lia. lia.
Qed.

End AggregatorProperties.

(** *** The properties on the sample of the integer interpretation *)

Section AggregatorExamples.
Import EventProcessor.

Lemma sample_stats :
  Integers.processEvents Integers.now (Events Integers.sample)
  = Normal Integers.stats.
Proof. vm_compute. reflexivity. Qed.

Lemma sample_half_hour : ("30m", Integers.half_hour) ∈ Integers.stats.
Proof. apply (list_elem_of_lookup_2 _ 3). vm_compute. reflexivity. Qed.

Lemma sample_minute : ("1m", Integers.minute) ∈ Integers.stats.
Proof. apply (list_elem_of_lookup_2 _ 0). vm_compute. reflexivity. Qed.

Lemma record_counts_the_window_witness :
  exists seconds : Z,
    ("30m", seconds) ∈ timeframes
    /\ transactions Integers.half_hour
       = List.length (window Z.sub Z.div Z.gtb id (Integers.now / 1000)
                        seconds Integers.sample)
    /\ transactions Integers.half_hour
       = (ts_buys Integers.half_hour + ts_sells Integers.half_hour)%nat.
Proof.
  destruct (record_counts_the_window Z.add Z.sub Z.mul Z.div Z.gtb id id
              Integers.toString Integers.parseFloat Integers.now
              Integers.sample Integers.stats "30m" Integers.half_hour
              sample_stats sample_half_hour)
    as (seconds & Hs & Ht & _ & _ & _ & Hsum & _).
  exists seconds. split; [exact Hs|]. split; [exact Ht | exact Hsum].
Defined.

Lemma record_counts_distinct_wallets_witness :
  exists seconds : Z,
    ("30m", seconds) ∈ timeframes
    /\ wallets Integers.half_hour
       = distinct_wallets (window Z.sub Z.div Z.gtb id (Integers.now / 1000)
                             seconds Integers.sample).
Proof.
  destruct (record_counts_distinct_wallets Z.add Z.sub Z.mul Z.div Z.gtb id
              id Integers.toString Integers.parseFloat Integers.now
              Integers.sample Integers.stats "30m" Integers.half_hour
              sample_stats sample_half_hour)
    as (seconds & Hs & _ & _ & Hw & _).
  exists seconds. split; [exact Hs | exact Hw].
Defined.

Lemma record_prices_witness :
  exists (seconds : Z) (first : ProcessedEvent Z Z)
         (rest : list (ProcessedEvent Z Z)),
    ("30m", seconds) ∈ timeframes
    /\ window Z.sub Z.div Z.gtb id (Integers.now / 1000) seconds
         Integers.sample = first :: rest
    /\ price Integers.half_hour
       = price_of Integers.toString Integers.parseFloat first.
Proof.
  destruct (record_prices Z.add Z.sub Z.mul Z.div Z.gtb id id
              Integers.toString Integers.parseFloat Integers.now
              Integers.sample Integers.stats "30m" Integers.half_hour
              sample_stats sample_half_hour)
    as (seconds & current & first & final & more & rest & before
        & Hs & _ & Hw & _ & Hp & _).
  exists seconds, first, rest. split; [exact Hs|]. split; [exact Hw | exact Hp].
Defined.

Lemma longer_timeframes_hold_more_witness :
  exists st2 : @TimeframeStats Z,
    ("30m", st2) ∈ Integers.stats
    /\ (transactions Integers.minute <= transactions st2)%nat
    /\ (wallets Integers.minute <= wallets st2)%nat.
Proof.
  destruct (longer_timeframes_hold_more Z.add Z.sub Z.mul Z.div Z.gtb id id
              Integers.toString Integers.parseFloat Integers.now
              Integers.sample Integers.stats "1m" "30m" 60 1800
              Integers.minute)
    as (st2 & Hin & Ht & _ & _ & _ & _ & Hw).
  - intros x a b Hab H. unfold id in *. lia.
  - exact sample_stats.
  - apply (list_elem_of_lookup_2 _ 0). reflexivity.
  - apply (list_elem_of_lookup_2 _ 3). reflexivity.
  - lia.
  - exact sample_minute.
  - exists st2. split; [exact Hin|]. split; [exact Ht | exact Hw].
Defined.

Lemma progress_is_reported_once_per_chunk_witness :
  last (Integers.processEventsAsync Integers.now (Events Integers.sample)
          true).2
  = Some 100.
Proof.
  apply (proj2 (proj2 (proj2
           (progress_is_reported_once_per_chunk Z.add Z.sub Z.mul Z.div
              Z.gtb id id Integers.toString Integers.parseFloat Integers.now
              Integers.sample)))).
  discriminate.
Defined.

End AggregatorExamples.

(** * Further properties of the decoder *)

Section DecoderProperties.
Import EventProcessor WireLayout.

(** [TextDecoder] leaves ASCII as it is. *)
Lemma run_ascii (bytes : list byte) :
  Forall (fun b => byte_val b < 128) bytes ->
  TextDecoder.run bytes [] 0%nat 0x80 0xBF = bytes.
Proof.
  induction 1 as [|b bytes Hb _ IH]; [done|].
  cbn [TextDecoder.run].
  destruct (Z.leb_spec (byte_val b) 0x7F) as [_|Hgt]; [|lia].
  by rewrite IH.
Qed.

Lemma decode_ascii (bytes : list byte) :
  Forall (fun b => byte_val b < 128) bytes ->
  TextDecoder.decode bytes = string_of_list_byte bytes.
Proof.
  intros Hall. unfold TextDecoder.decode. rewrite (run_ascii _ Hall).
  f_equal. destruct Hall as [|b rest Hb _]; [done|].
  destruct b; try done; vm_compute in Hb; discriminate Hb.
Qed.

Lemma encode_length (wallets : list (list byte)) (trades : list Trade) :
  (8 + 21 * List.length trades <= List.length (encode wallets trades))%nat.
Proof.
  unfold encode. rewrite !length_app.
  assert (H : List.length (concat (trade_record <$> trades))
              = (21 * List.length trades)%nat).
  { induction trades as [|t trades IH]; [done|].
    rewrite fmap_cons. cbn [concat]. rewrite length_app, IH.
    rewrite trade_record_length. cbn [List.length]. lia. }
  rewrite H. cbn [u32le List.length]. lia.
Qed.

(** X7. Wallets of ASCII characters, as base58 addresses are, come back
    as they were written: decoding a buffer in the wire layout whose wallet
    entries hold bytes below 128 gives, for each trade, the event whose
    wallet is the string of the bytes of the entry at walletIndex, and no
    wallet when the table has no such entry. *)
Theorem decoder_returns_ascii_wallets (wallets : list (list byte))
    (trades : list Trade) :
  well_formed wallets trades ->
  Forall (Forall (fun b => byte_val b < 128)) wallets ->
  decodeBinaryEvents (encode wallets trades)
  = Normal (event_of (string_of_list_byte <$> wallets) <$> trades)
  /\ forall (i : nat) (t : Trade),
       trades !! i = Some t ->
       exists e : ProcessedEvent f32 Z,
         (event_of (string_of_list_byte <$> wallets) <$> trades) !! i = Some e
         /\ list_byte_of_string <$> wallet e
            = wallets !! Z.to_nat (walletIndex t).
Proof.
  intros Hwf Hascii.
  assert (Htable : TextDecoder.decode <$> wallets
                   = string_of_list_byte <$> wallets).
  { induction Hascii as [|w wallets Hw _ IH]; [done|].
    rewrite !fmap_cons, IH; [by rewrite decode_ascii|].
    destruct Hwf as (? & Hl & ? & ?). unfold well_formed, u32 in *.
    apply Forall_cons in Hl as [_ Hl]. cbn [List.length] in *.
    repeat split; try done; lia. }
  split.
  - by rewrite (decodeBinaryEvents_layout _ _ Hwf), Htable.
  - intros i t Ht. eexists. split.
    + rewrite list_lookup_fmap, Ht. reflexivity.
    + cbn [event_of wallet]. rewrite list_lookup_fmap.
      destruct (wallets !! Z.to_nat (walletIndex t)) as [w|]; [|done].
      cbn [fmap option_fmap option_map].
      by rewrite list_byte_of_string_of_list_byte.
Qed.

Lemma decoder_returns_ascii_wallets_witness :
  decodeBinaryEvents (encode sample_wallets sample_trades)
  = Normal (event_of ["A"; "BB"] <$> sample_trades).
Proof.
  apply (proj1 (decoder_returns_ascii_wallets sample_wallets sample_trades
                  sample_well_formed
                  ltac:(repeat constructor))).
Defined.

(** X8. Whatever the buffer, when [decodeBinaryEvents] returns, the
    buffer has at least 8 bytes and 21 more for each event returned; every
    event has type "buy" or "sell" (a type code other than 0 is a sell),
    its time is a whole number of seconds below 2^32, in milliseconds, and
    its three float fields are 32-bit patterns. *)
Theorem decoded_events_are_bounded (data : list byte)
    (events : list (ProcessedEvent f32 Z)) :
  decodeBinaryEvents data = Normal events ->
  (8 + 21 * List.length events <= List.length data)%nat
  /\ Forall (fun e : ProcessedEvent f32 Z =>
               (type e = "buy" \/ type e = "sell")
               /\ (exists seconds : Z,
                      0 <= seconds < 2 ^ 32 /\ time e = seconds * 1000)
               /\ 0 <= amount e < 2 ^ 32
               /\ 0 <= priceUsd e < 2 ^ 32
               /\ 0 <= volume e < 2 ^ 32) events.
Proof.
  unfold decodeBinaryEvents. intros H.
  destruct (decode_from data) as [[o evs]|e] eqn:E; [|done].
  injection H as ->.
  destruct (decode_from_sound _ _ _ E) as (ws & ts & Hwf & Hd & ->).
  split.
  - rewrite Hd at 1. rewrite length_app, length_fmap.
    pose proof (encode_length ws ts). lia.
  - destruct Hwf as (_ & _ & _ & Hts). apply Forall_fmap.
    eapply Forall_impl; [exact Hts|].
    intros t (_ & Ha & Hp & Hv & _ & Htime). unfold u32 in *.
    unfold event_of. simpl.
    split; [destruct (typeCode t =? 0); auto|].
    split; [by exists (timeSeconds t)|]. done.
Qed.

Lemma decoded_events_are_bounded_witness :
  (8 + 21 * 2 <= List.length (encode sample_wallets sample_trades))%nat.
Proof.
  apply (proj1 (decoded_events_are_bounded
                  (encode sample_wallets sample_trades)
                  (event_of (TextDecoder.decode <$> sample_wallets)
                     <$> sample_trades)
                  (decodeBinaryEvents_layout _ _ sample_well_formed))).
Defined.

End DecoderProperties.

(** * Further properties of the transport *)

Section TransportProperties.
Import Datastream.

(** *** Reasoning about the effects of an action *)

Lemma yields_seq (I : World -> Prop) (P : Effect -> bool)
    (a b : Action unit) :
  yields I P a -> yields I P b -> yields I P (a;; b).
Proof.
  intros Ha Hb w Hw. rewrite exec_seq. cbn [fst snd].
  destruct (Ha w Hw) as [H1 E1]. destruct (Hb _ H1) as [H2 E2].
  split; [done|]. by rewrite forallb_app, E1, E2.
Qed.

Lemma yields_world (I : World -> Prop) (P : Effect -> bool)
    (k : World -> Action unit) :
  (forall w0, I w0 -> yields I P (k w0)) -> yields I P (world ≫= k).
Proof. intros Hk w Hw. rewrite exec_world. by apply Hk. Qed.

Lemma yields_skip (I : World -> Prop) (P : Effect -> bool) : yields I P skip.
Proof. by intros w Hw. Qed.

Lemma yields_effect (I : World -> Prop) (P : Effect -> bool) (e : Effect) :
  P e = true -> yields I P (effect e).
Proof. intros He w Hw. split; [done|]. simpl. by rewrite He. Qed.

Lemma yields_update (I : World -> Prop) (P : Effect -> bool)
    (g : World -> World) :
  (forall w, I w -> I (g w)) -> yields I P (update g).
Proof. intros Hg w Hw. split; [by apply Hg | done]. Qed.

Lemma yields_emit (I : World -> Prop) (P : Effect -> bool) (event : string)
    (arg : Arg) :
  (forall ev a, P (Emit ev a) = true) ->
  (forall cb a, P (Invoke cb a) = true) ->
  yields I P (emit event arg).
Proof.
  intros He Hi w Hw. split; [done|]. rewrite exec_emit. cbn [snd forallb].
  rewrite He. cbn [andb]. apply forallb_forall. intros e Hin.
  apply in_concat in Hin as (l & Hl & Hin).
  apply in_map_iff in Hl as (lis & <- & _).
  unfold call_listener in Hin.
  destruct (wrapped lis), arg as [[[| | | | items |]|] | | | |];
    try (destruct Hin as [<-|[]]; apply Hi).
  apply in_map_iff in Hin as (item & <- & _). apply Hi.
Qed.

Lemma yields_send (I : World -> Prop) (P : Effect -> bool) (s : option nat)
    (frame : Frame) :
  (forall id, P (Send id frame) = true) -> yields I P (send s frame).
Proof.
  intros Hs. destruct s as [id|]; [|apply yields_skip].
  apply yields_effect, Hs.
Qed.

Lemma yields_for_each {A : Type} (I : World -> Prop) (P : Effect -> bool)
    (l : list A) (body : A -> Action unit) :
  (forall x, yields I P (body x)) -> yields I P (for_each l body).
Proof.
  intros Hb. induction l as [|x l IH]; simpl.
  - apply yields_skip.
  - by apply yields_seq.
Qed.

Lemma yields_run (I : World -> Prop) (P : Effect -> bool)
    (events : list Event) :
  (forall e, e ∈ events -> yields I P (step e)) -> yields I P (run events).
Proof.
  induction events as [|e events IH]; intros Hall.
  - apply yields_skip.
  - cbn [run]. apply yields_seq.
    + apply Hall. by left.
    + apply IH. intros e' He'. apply Hall. by right.
Qed.

(** Takes an action apart; [kept] proves that an update keeps the
    invariant, [known] deals with the actions that stay folded. *)
Ltac yielding kept known :=
  repeat match goal with
    | |- yields _ _ skip => apply yields_skip
    | |- yields _ _ (effect _) => apply yields_effect; reflexivity
    | |- yields _ _ (emit _ _) =>
        apply yields_emit; intros; reflexivity
    | |- yields _ _ (send _ _) => apply yields_send; intros; reflexivity
    | |- yields _ _ (for_each _ _) => apply yields_for_each; intros ?
    | |- yields _ _ (update _) => apply yields_update; kept
    | |- yields _ _ (world ≫= _) => apply yields_world; intros ? ?
    | |- yields _ _ (_ ≫= _) => apply yields_seq
    | |- yields _ _ (let _ := _ in _) => cbn zeta
    | |- yields _ _ (if ?b then _ else _) => destruct b eqn:?
    | |- yields _ _ (match ?x with _ => _ end) => destruct x eqn:?
    | |- yields _ _ _ => known
    end.

Ltac unfold_tasks :=
  unfold _subscribe, unsubscribe, disconnect, onopen, onerror, onclose,
    onmessage, timer_callback, resolve, reject, store, setupSocketListeners,
    resubscribeToRooms, connect, createSocket, close, on_socket, on,
    removeListener.

(** Takes an action apart to show that it leaves a part of the world
    as it was. *)
Ltac keeping :=
  repeat match goal with
    | |- preserves _ skip => apply preserves_skip
    | |- preserves _ (effect _) => apply preserves_effect
    | |- preserves _ (effects _) => apply preserves_effects
    | |- preserves _ (emit _ _) => apply preserves_emit
    | |- preserves _ (send _ _) => apply preserves_send
    | |- preserves _ (for_each _ _) => apply preserves_for_each; intros ?
    | |- preserves _ (update _) =>
        apply preserves_update; intros ?;
        first [ reflexivity
              | match goal with
                | |- context [match ?t with Main => _ | Transaction => _ end] =>
                    destruct t; reflexivity
                end ]
    | |- preserves _ (world ≫= _) => apply preserves_world; intros ?
    | |- preserves _ (_ ≫= _) => apply preserves_seq
    | |- preserves _ (let _ := _ in _) => cbn zeta
    | |- preserves _ (if ?b then _ else _) => destruct b
    | |- preserves _ (match ?x with _ => _ end) => destruct x
    end.

(** *** Without auto-reconnect *)

Lemma length_delete_le {A : Type} (k : nat) (l : list A) :
  (List.length (delete k l) <= List.length l)%nat.
Proof.
  revert k. induction l as [|x l IH]; intros [|k]; simpl; try lia.
  specialize (IH k). lia.
Qed.

Lemma reconnect_off (n : nat) (rnd : Q) :
  yields (fun w => autoReconnect (this w) = false
                   /\ (List.length (timers w) <= n)%nat)
         (fun e => negb (is_SetTimeout e)) (reconnect rnd).
Proof.
  intros w [Ha Ht]. unfold reconnect. rewrite exec_world, Ha. by split.
Qed.

Lemma step_off (n : nat) (e : Event) :
  yields (fun w => autoReconnect (this w) = false
                   /\ (List.length (timers w) <= n)%nat)
         (fun e => negb (is_SetTimeout e)) (step e).
Proof.
  destruct e; cbn [step]; unfold_tasks;
    yielding
      ltac:(intros ? [? ?];
            repeat match goal with
              | |- context [match ?t with Main => _ | Transaction => _ end] =>
                  destruct t
              end;
            (split;
             [ assumption
             | first [ assumption
                     | cbn [timers set_timers];
                       etransitivity; [apply length_delete_le|];
                       match goal with H : _ /\ _ |- _ => apply H end ] ]))
      ltac:(apply reconnect_off).
Qed.

(** X9. An object built with [autoReconnect: false] never schedules a
    reconnection: whatever tasks run (sockets failing or closing included),
    no task calls [setTimeout], no timer is added, and the setting stays
    off. *)
Theorem no_timer_without_auto_reconnect (w : World) (events : list Event) :
  autoReconnect (this w) = false ->
  let after := exec (run events) w in
  forallb (fun e => negb (is_SetTimeout e)) after.2 = true
  /\ (List.length (timers after.1) <= List.length (timers w))%nat
  /\ autoReconnect (this after.1) = false.
Proof.
  intros Hoff after.
  destruct (yields_run _ _ events
              (fun e _ => step_off (List.length (timers w)) e) w)
    as [[Ha Ht] He]; [by split|]. done.
Qed.

Lemma no_timer_without_auto_reconnect_witness :
  let after :=
    exec (run [CallConnect; SocketOpens 0; SocketFails 1 (1 # 2);
               SocketCloses 0 (1 # 2)]) (new_Datastream manual) in
  forallb (fun e => negb (is_SetTimeout e)) after.2 = true
  /\ (List.length (timers after.1) <= 0)%nat
  /\ autoReconnect (this after.1) = false.
Proof.
  apply (no_timer_without_auto_reconnect (new_Datastream manual)).
  reflexivity.
Defined.

(** *** Frames *)

Lemma not_sent (l : list Effect) (id : nat) (frame : Frame) :
  forallb (fun e => negb (is_Send e)) l = true -> ~ In (Send id frame) l.
Proof.
  intros Hall Hin. rewrite forallb_forall in Hall.
  by apply Hall in Hin.
Qed.

Lemma connect_silent :
  yields (fun _ => True) (fun e => negb (is_Send e)) connect.
Proof. unfold connect, createSocket. yielding ltac:(done) idtac. Qed.

(** The tasks that are not listed by [may_send] send no frame. *)
Lemma step_silent (e : Event) :
  may_send e = false ->
  yields (fun _ => True) (fun e => negb (is_Send e)) (step e).
Proof.
  intros He. destruct e; try discriminate He; cbn [step]; unfold_tasks;
    unfold reconnect; yielding ltac:(done) idtac.
Qed.

Lemma in_joins (m t : nat) (l : list string) (id : nat) (frame : Frame) :
  In (Send id frame) (joins m t l) ->
  exists room, frame = Join room /\ room ∈ l
               /\ id = if includes "transaction" room then t else m.
Proof.
  unfold joins. intros H. apply list_elem_of_In, list_elem_of_fmap in H.
  destruct H as (room & [= -> ->] & Hroom). by exists room.
Qed.

Lemma in_sent (l : list Effect) (id : nat) (frame : Frame) :
  In (Send id frame) l -> In (Send id frame) (sent l).
Proof. intros H. unfold sent. by apply List.filter_In. Qed.

Lemma open_keeps_rooms (id : nat) : preserves rooms_of (step (SocketOpens id)).
Proof.
  intros w. cbn [step]. rewrite exec_world.
  destruct (heap w !! id) as [ws|]; [|done].
  destruct (bool_decide (readyState ws = CONNECTING)); [|done].
  unfold onopen. rewrite !exec_seq. cbn [fst].
  set (w1 := (exec (setupSocketListeners id) _).1).
  assert (H1 : rooms_of w1 = rooms_of w)
    by (subst w1; destruct (ws_type ws); reflexivity).
  rewrite <- H1.
  transitivity (rooms_of (exec resubscribeToRooms w1).1).
  - unfold resolve. set (w2 := (exec resubscribeToRooms w1).1).
    rewrite exec_world. destruct (attempts w2 !! ws_attempt ws) as [a|]; [|done].
    destruct (bool_decide (promise_of (ws_type ws) a = Pending)); [|done].
    rewrite exec_seq. cbn [fst].
    by destruct (bool_decide (promise_of (other (ws_type ws)) a = Resolved)).
  - unfold resubscribeToRooms. rewrite exec_world.
    destruct (_ && _); [|done].
    generalize (subscribedRooms (this w1)) at 1. intros l.
    induction l as [|room l IH]; [done|].
    cbn [for_each]. rewrite exec_seq. cbn [fst].
    by destruct (channel (this w1) room).
Qed.

(** X10. The object never sends on a socket that is not open. Whatever
    the world and the task: a frame is sent only by [_subscribe],
    [unsubscribe] or the task of a socket that opens; the socket that it
    is sent on is, after the task, the channel of the room of the frame
    (the transaction socket if the room contains "transaction", the main
    socket otherwise) and is open; a join frame names a tracked room, and
    a leave frame is sent by [unsubscribe] of its room only. *)
Theorem frames_go_to_open_channels (w : World) (e : Event) (id : nat)
    (frame : Frame) :
  In (Send id frame) (exec (step e) w).2 ->
  let w' := (exec (step e) w).1 in
  may_send e = true
  /\ channel (this w') (frame_room frame) = Some id
  /\ is_open w' (Some id) = true
  /\ match frame with
     | Join room => room ∈ rooms_of w'
     | Leave room => e = CallUnsubscribe room
     end.
Proof.
  intros Hin. cbn zeta.
  destruct (may_send e) eqn:He.
  2: { destruct (step_silent e He w I) as [_ Hs]. by apply not_sent in Hin. }
  split; [done|].
  destruct e; try discriminate He; cbn [step] in *.
  - (* _subscribe *)
    unfold _subscribe in *. rewrite exec_seq, exec_update in *.
    cbn [fst snd app] in *.
    set (w1 := on_this _ w) in *. rewrite exec_world in *. cbn zeta in *.
    destruct (is_open w1 (channel (this w1) room)) eqn:Ho.
    + destruct (channel (this w1) room) as [id'|] eqn:Hc; [|done].
      destruct Hin as [[= <- <-]|[]]. cbn [fst frame_room].
      split; [done|]. split; [done|].
      subst w1. cbn. apply eqb_has_elem. unfold JsSet.add.
      destruct (JsSet.has String.eqb (subscribedRooms (this w)) room) eqn:E;
        [done|]. apply has_last, String.eqb_refl.
    + destruct (connect_silent w1 I) as [_ Hs]. by apply not_sent in Hin.
  - (* unsubscribe *)
    unfold unsubscribe in *. rewrite exec_seq, exec_update in *.
    cbn [fst snd app] in *.
    set (w1 := on_this _ w) in *. rewrite exec_world in *. cbn zeta in *.
    destruct (is_open w1 (channel (this w1) room)) eqn:Ho; [|done].
    destruct (channel (this w1) room) as [id'|] eqn:Hc; [|done].
    destruct Hin as [[= <- <-]|[]]. cbn [fst frame_room]. by repeat split.
  - (* a socket opens *)
    pose proof (open_keeps_rooms id0 w) as Hrooms. cbn [step] in Hrooms.
    apply in_sent in Hin.
    destruct (open_sends_all_or_nothing id0 w) as [Hnone|(m & t & Hall)];
      cbn [step] in *.
    { rewrite Hnone in Hin. destruct Hin. }
    cbn zeta in Hall. destruct Hall as (Hjoins & Hm & Ht & Om & Ot).
    rewrite Hjoins in Hin.
    apply in_joins in Hin as (room & -> & Hroom & ->).
    cbn [frame_room]. unfold channel. rewrite Hm, Ht, Hrooms.
    by destruct (includes "transaction" room).
Qed.

Lemma frames_go_to_open_channels_witness :
  let w' := (exec (step (CallSubscribe "latest")) idle).1 in
  channel (this w') "latest" = Some 0%nat
  /\ is_open w' (Some 0%nat) = true
  /\ "latest" ∈ rooms_of w'.
Proof.
  destruct (frames_go_to_open_channels idle (CallSubscribe "latest") 0
              (Join "latest")) as (_ & Hc & Ho & Hr).
  - left. reflexivity.
  - by repeat split.
Defined.

(** *** Subscriptions across reconnections *)

Lemma isConnected_both (w : World) :
  isConnected w
  = is_open w (socket (this w)) && is_open w (transactionSocket (this w)).
Proof.
  unfold isConnected.
  destruct (socket (this w)), (transactionSocket (this w)); cbn;
    try done; by rewrite ?andb_true_r, ?andb_false_r.
Qed.

Lemma isConnected_wiring (w w' : World) :
  wiring w' = wiring w -> isConnected w' = isConnected w.
Proof.
  unfold wiring. intros [= Hs Ht Hh]. unfold isConnected, is_open.
  by rewrite Hs, Ht, Hh.
Qed.

(** The task of a socket that opens: when the object is connected after
    it, it has sent the join frame of every tracked room. *)
Lemma open_resubscribes (id : nat) (w : World) (ws : WebSocket) :
  heap w !! id = Some ws -> readyState ws = CONNECTING ->
  let opened := exec (step (SocketOpens id)) w in
  isConnected opened.1 = true ->
  exists m t : nat,
    socket (this opened.1) = Some m
    /\ transactionSocket (this opened.1) = Some t
    /\ sent opened.2 = joins m t (rooms_of w).
Proof.
  intros Hws Hcon. cbn [step]. rewrite exec_world, Hws.
  rewrite bool_decide_eq_true_2 by done.
  unfold onopen. rewrite !exec_seq. cbn [fst snd].
  set (w1 := (exec (setupSocketListeners id) _).1).
  assert (Hrooms : rooms_of w1 = rooms_of w)
    by (subst w1; destruct (ws_type ws); reflexivity).
  change (exec (on_socket id (set_readyState OPEN)) w).2 with (@nil Effect).
  change (exec (store (ws_type ws) (Some id)) _).2 with (@nil Effect).
  change (exec (update (on_this (set_reconnectAttempts 0))) _).2
    with (@nil Effect).
  change (exec (setupSocketListeners id) _).2 with (@nil Effect).
  cbn [app].
  assert (Hsame : (exec resubscribeToRooms w1).1 = w1)
    by apply (resubscribeToRooms_keeps (fun w0 : World => w0)).
  rewrite Hsame. intros Hc.
  rewrite (isConnected_wiring w1) in Hc by apply resolve_keeps_wiring.
  rewrite isConnected_both in Hc. apply andb_true_iff in Hc as [Om Ot].
  destruct (is_open_Some _ _ Om) as [m Hm].
  destruct (is_open_Some _ _ Ot) as [t Ht].
  assert (Hs : preserves (fun w0 => socket (this w0))
                 (resolve (ws_type ws) (ws_attempt ws)))
    by (unfold resolve; keeping).
  assert (Hts : preserves (fun w0 => transactionSocket (this w0))
                  (resolve (ws_type ws) (ws_attempt ws)))
    by (unfold resolve; keeping).
  exists m, t. rewrite Hs, Hts. split; [done|]. split; [done|].
  rewrite Hm in Om. rewrite Ht in Ot.
  rewrite (resubscribe_fires w1 m t Hm Ht Om Ot). cbn [snd].
  by rewrite sent_app, sent_joins, sent_resolve, app_nil_r, Hrooms.
Qed.

Lemma add_elem (s : list string) (x y : string) :
  y ∈ JsSet.add String.eqb s x <-> y ∈ s \/ y = x.
Proof.
  unfold JsSet.add. destruct (JsSet.has String.eqb s x) eqn:E.
  - apply eqb_has_elem in E. split; [by left|]. by intros [H| ->].
  - rewrite elem_of_app, list_elem_of_singleton. tauto.
Qed.

(** Only [disconnect()] and [unsubscribe(room)] take [room] out of the
    tracked rooms. *)
Lemma step_keeps_room (room : string) (e : Event) (w : World) :
  forgets room e = false ->
  room ∈ rooms_of w -> room ∈ rooms_of (exec (step e) w).1.
Proof.
  intros He Hroom.
  destruct e; try discriminate He;
    try (match goal with
         | |- context [exec (step ?e) w] =>
             assert (Hk : preserves rooms_of (step e))
               by (first [ apply open_keeps_rooms
                         | cbn [step]; unfold_tasks; unfold reconnect;
                           keeping ])
         end; by rewrite Hk).
  - cbn [step]. rewrite subscribe_rooms. apply add_elem. by left.
  - cbn [step forgets] in *. rewrite unsubscribe_rooms. apply delete_elem.
    split; [done|]. intros ->. by rewrite String.eqb_refl in He.
Qed.

(** X11. Subscriptions survive reconnections. A tracked room stays
    tracked through any tasks other than [disconnect()] and
    [unsubscribe] of that room (sockets closing, failing and reopening
    included); and when the task of a socket that opens completes the
    connection (the object was not connected before it and is connected
    after it), that task sends the join frame of the room on the channel of
    the room. *)
Theorem tracked_rooms_are_rejoined (w : World) (room : string)
    (events : list Event) (id : nat) :
  room ∈ rooms_of w ->
  forallb (fun e => negb (forgets room e)) events = true ->
  let w1 := (exec (run events) w).1 in
  let opened := exec (step (SocketOpens id)) w1 in
  room ∈ rooms_of w1
  /\ (isConnected w1 = false -> isConnected opened.1 = true ->
      exists s : nat,
        channel (this opened.1) room = Some s
        /\ In (Send s (Join room)) opened.2).
Proof.
  intros Hroom Hev. cbn zeta.
  assert (H1 : room ∈ rooms_of (exec (run events) w).1).
  { revert w Hroom. induction events as [|e events IH]; intros w Hroom;
      [done|].
    cbn [forallb] in Hev. apply andb_true_iff in Hev as [He Hev].
    rewrite exec_run_cons. cbn [fst]. apply IH; [done|].
    apply step_keeps_room; [|done]. by destruct (forgets room e). }
  split; [done|].
  set (w1 := (exec (run events) w).1) in *. intros Hbefore Hafter.
  destruct (heap w1 !! id) as [ws|] eqn:Hws.
  2: { cbn [step] in Hafter. rewrite exec_world, Hws in Hafter.
       rewrite exec_skip in Hafter. cbn [fst] in Hafter. congruence. }
  destruct (decide (readyState ws = CONNECTING)) as [Hcon|Hcon].
  2: { cbn [step] in Hafter. rewrite exec_world, Hws in Hafter.
       rewrite bool_decide_eq_false_2 in Hafter by done.
       rewrite exec_skip in Hafter. cbn [fst] in Hafter. congruence. }
  destruct (open_resubscribes id w1 ws Hws Hcon Hafter)
    as (m & t & Hm & Ht & Hsent).
  exists (if includes "transaction" room then t else m). split.
  - unfold channel. rewrite Hm, Ht.
    by destruct (includes "transaction" room).
  - assert (Hin : In (Send (if includes "transaction" room then t else m)
                        (Join room))
                    (sent (exec (step (SocketOpens id)) w1).2)).
    { rewrite Hsent. unfold joins. apply in_map_iff. exists room.
      split; [done|]. by apply list_elem_of_In. }
    unfold sent in Hin. by apply List.filter_In in Hin as [Hin _].
Qed.

Lemma tracked_rooms_are_rejoined_witness :
  let w1 := (exec (run [SocketCloses 0 (1 # 2); TimerFires 0]) live).1 in
  let opened := exec (step (SocketOpens 2)) w1 in
  "price:T" ∈ rooms_of w1
  /\ exists s : nat,
       channel (this opened.1) "price:T" = Some s
       /\ In (Send s (Join "price:T")) opened.2.
Proof.
  destruct (tracked_rooms_are_rejoined live "price:T"
              [SocketCloses 0 (1 # 2); TimerFires 0] 2) as [H1 H2].
  - apply (list_elem_of_lookup_2 _ 0). reflexivity.
  - reflexivity.
  - split; [exact H1|]. apply H2; vm_compute; reflexivity.
Defined.

(** *** After [disconnect()] *)

Lemma resubscribe_idle :
  yields (fun w => rooms_of w = []) (fun e => negb (is_Join e))
    resubscribeToRooms.
Proof.
  intros w Hw. unfold resubscribeToRooms. rewrite exec_world.
  unfold rooms_of in Hw. rewrite Hw. by destruct (_ && _).
Qed.

Lemma step_idle (e : Event) :
  is_subscribe e = false ->
  yields (fun w => rooms_of w = []) (fun e => negb (is_Join e)) (step e).
Proof.
  intros He. destruct e; try discriminate He; cbn [step];
    unfold unsubscribe, disconnect, onopen, onerror, onclose, onmessage,
      timer_callback, resolve, reject, store, setupSocketListeners, connect,
      createSocket, close, on_socket, on, removeListener, reconnect;
    yielding
      ltac:(intros ? ?;
            repeat match goal with
              | |- context [match ?t with Main => _ | Transaction => _ end] =>
                  destruct t
              end;
            first [ assumption
                  | reflexivity
                  | unfold rooms_of in *; cbn;
                    match goal with H : subscribedRooms _ = [] |- _ =>
                      rewrite H end; reflexivity ])
      ltac:(apply resubscribe_idle).
Qed.

(** X12. [disconnect()] forgets the subscriptions but keeps the
    listeners: after it the tracked rooms are empty while every listener is
    still registered, and until the next [_subscribe], whatever tasks run
    (a later [connect()] and the opening of its sockets included), the
    tracked rooms stay empty and no join frame is sent. *)
Theorem disconnect_forgets_subscriptions (w : World) (events : list Event) :
  forallb (fun e => negb (is_subscribe e)) events = true ->
  let w0 := (exec disconnect w).1 in
  let after := exec (run events) w0 in
  listeners (this w0) = listeners (this w)
  /\ rooms_of w0 = []
  /\ rooms_of after.1 = []
  /\ forallb (fun e => negb (is_Join e)) after.2 = true.
Proof.
  intros Hev. cbn zeta.
  assert (Hl : preserves (fun w0 => listeners (this w0)) disconnect)
    by (unfold disconnect, close, on_socket; keeping).
  split; [apply Hl|]. split; [apply disconnect_clears|].
  apply (yields_run (fun w => rooms_of w = []) _ events).
  - intros e He. apply step_idle.
    rewrite forallb_forall in Hev.
    apply list_elem_of_In, Hev in He. by destruct (is_subscribe e).
  - apply disconnect_clears.
Qed.

Lemma disconnect_forgets_subscriptions_witness :
  let w0 := (exec disconnect live).1 in
  let after := exec (run [CallConnect; SocketOpens 2; SocketOpens 3]) w0 in
  listeners (this w0) = listeners (this live)
  /\ rooms_of w0 = []
  /\ rooms_of after.1 = []
  /\ forallb (fun e => negb (is_Join e)) after.2 = true.
Proof.
  apply (disconnect_forgets_subscriptions live
           [CallConnect; SocketOpens 2; SocketOpens 3]).
  reflexivity.
Defined.

(** *** The connected object *)

Lemma add_twice (l : list string) (x : string) :
  JsSet.add String.eqb (JsSet.add String.eqb l x) x = JsSet.add String.eqb l x.
Proof.
  unfold JsSet.add at 2. destruct (JsSet.has String.eqb l x) eqn:E.
  - unfold JsSet.add. by rewrite E.
  - unfold JsSet.add. rewrite E.
    by rewrite has_last by apply String.eqb_refl.
Qed.

Lemma subscribe_connected (w : World) (room : string) :
  is_open w (channel (this w) room) = true ->
  exists id,
    channel (this w) room = Some id
    /\ exec (_subscribe room) w
       = (on_this (fun d => set_subscribedRooms
                              (JsSet.add String.eqb (subscribedRooms d) room)
                              d) w,
          [Send id (Join room)]).
Proof.
  intros Ho. destruct (is_open_Some _ _ Ho) as [id Hid]. exists id.
  split; [done|]. unfold _subscribe. rewrite exec_seq, exec_update.
  cbn [fst snd app]. rewrite exec_world. cbn zeta.
  change (channel (this (on_this _ w)) room) with (channel (this w) room).
  change (is_open (on_this ?f w)) with (is_open w).
  by rewrite Ho, Hid.
Qed.

Lemma connected_channel (w : World) (room : string) :
  isConnected w = true -> is_open w (channel (this w) room) = true.
Proof.
  rewrite isConnected_both. intros [Hm Ht]%andb_true_iff.
  unfold channel. by destruct (includes "transaction" room).
Qed.

(** X13. While [isConnected()] is true: [connect()] does nothing;
    [_subscribe(room)] tracks the room and sends exactly one join frame, on
    the channel of the room, without constructing a socket; a second
    [_subscribe] of the same room leaves the tracked rooms as they are and
    sends the join frame again. After [disconnect()], [isConnected()] is
    false. *)
Theorem connected_object_subscribes_at_once (w : World) (room : string) :
  isConnected w = true ->
  exec connect w = (w, [])
  /\ (exists id : nat,
         channel (this w) room = Some id
         /\ (exec (_subscribe room) w).2 = [Send id (Join room)]
         /\ rooms_of (exec (_subscribe room) w).1
            = JsSet.add String.eqb (rooms_of w) room
         /\ exec (_subscribe room) (exec (_subscribe room) w).1
            = ((exec (_subscribe room) w).1, [Send id (Join room)]))
  /\ isConnected (exec disconnect w).1 = false.
Proof.
  intros Hc. split; [|split].
  - unfold connect. rewrite exec_world.
    unfold isConnected in Hc.
    destruct (non_null (socket (this w))); [|done].
    by destruct (non_null (transactionSocket (this w)));
      [|rewrite andb_false_r in Hc].
  - destruct (subscribe_connected w room (connected_channel w room Hc))
      as (id & Hid & E).
    exists id. rewrite E. cbn [fst snd]. split; [done|]. split; [done|].
    split; [done|].
    set (w1 := on_this _ w).
    assert (Ho : is_open w1 (channel (this w1) room) = true)
      by apply (connected_channel w room Hc).
    destruct (subscribe_connected w1 room Ho) as (id' & Hid' & ->).
    assert (id' = id) as -> by (change (channel (this w1) room)
                                  with (channel (this w) room) in Hid';
                                congruence).
    f_equal. subst w1. destruct w as [[] ? ? ?].
    unfold on_this, set_subscribedRooms. cbn. by rewrite add_twice.
  - destruct (disconnect_exec w) as (heap' & closes & -> & _). reflexivity.
Qed.

Lemma connected_object_subscribes_at_once_witness :
  exec connect idle = (idle, [])
  /\ (exec (_subscribe "latest") idle).2 = [Send 0 (Join "latest")].
Proof.
  destruct (connected_object_subscribes_at_once idle "latest" eq_refl)
    as (Hc & (id & Hid & Hs & _) & _).
  split; [exact Hc|]. injection Hid as <-. exact Hs.
Defined.

(** X14. [_subscribe(room)] followed by [unsubscribe(room)] leaves
    the tracked rooms without [room] and otherwise as they were: a room
    that was not tracked before is tracked in between and the tracked rooms
    are back to what they were; no other room is added or removed. *)
Theorem subscribe_unsubscribe_round_trip (w : World) (room : string) :
  let w1 := (exec (_subscribe room) w).1 in
  let w2 := (exec (unsubscribe room) w1).1 in
  (room ∈ rooms_of w1)
  /\ (room ∉ rooms_of w2)
  /\ (forall r, r <> room -> (r ∈ rooms_of w1 <-> r ∈ rooms_of w))
  /\ (forall r, r ∈ rooms_of w2 <-> r ∈ rooms_of w /\ r <> room)
  /\ (room ∉ rooms_of w -> rooms_of w2 = rooms_of w).
Proof.
  cbn zeta. rewrite unsubscribe_rooms, subscribe_rooms.
  split; [apply add_elem; by right|]. split.
  { rewrite delete_elem. tauto. }
  split.
  { intros r Hr. rewrite add_elem. tauto. }
  split.
  { intros r. rewrite delete_elem, add_elem. tauto. }
  intros Hroom. unfold JsSet.add.
  destruct (JsSet.has String.eqb (rooms_of w) room) eqn:E.
  { by apply eqb_has_elem in E. }
  unfold JsSet.delete. rewrite filter_app.
  fold (JsSet.delete String.eqb (rooms_of w) room).
  rewrite delete_absent by done.
  rewrite filter_cons, String.eqb_refl. cbn. by rewrite app_nil_r.
Qed.

Lemma subscribe_unsubscribe_round_trip_witness :
  rooms_of (exec (unsubscribe "latest")
              (exec (_subscribe "latest") live).1).1
  = rooms_of live.
Proof.
  apply (subscribe_unsubscribe_round_trip live "latest").
  vm_compute. intros H. repeat (apply elem_of_cons in H as [H|H]; [done|]).
  by apply elem_of_nil in H.
Defined.

(** *** Closing and replacing sockets *)

Lemma step_never_closes (e : Event) :
  ends_session e = false ->
  yields (fun _ => True) (fun e => negb (is_Close e)) (step e).
Proof.
  intros He. destruct e; try discriminate He; cbn [step];
    unfold _subscribe, unsubscribe, onopen, onerror, onclose, onmessage,
      timer_callback, resolve, reject, store, setupSocketListeners,
      resubscribeToRooms, connect, createSocket, on_socket, on,
      removeListener, reconnect;
    yielding ltac:(done) idtac.
Qed.

(** X15. Only [disconnect()] closes sockets: in a run of tasks
    without [disconnect()], whatever the sockets and the timers do, no task
    calls [close()] on any socket. *)
Theorem only_disconnect_closes_sockets (w : World) (events : list Event) :
  forallb (fun e => negb (ends_session e)) events = true ->
  forallb (fun e => negb (is_Close e)) (exec (run events) w).2 = true.
Proof.
  intros Hev.
  apply (yields_run (fun _ => True) (fun e => negb (is_Close e)) events);
    [|done].
  intros e He. apply step_never_closes.
  rewrite forallb_forall in Hev.
  apply list_elem_of_In, Hev in He. by destruct (ends_session e).
Qed.

Lemma only_disconnect_closes_sockets_witness :
  forallb (fun e => negb (is_Close e))
    (exec (run [SocketCloses 0 (1 # 2); TimerFires 0; SocketOpens 2;
                SocketOpens 3]) live).2
  = true.
Proof.
  apply (only_disconnect_closes_sockets live). reflexivity.
Defined.

(** [connect()] when a channel is missing and no attempt is in flight. *)
Lemma connect_constructs (w : World) :
  non_null (socket (this w)) && non_null (transactionSocket (this w)) = false ->
  isConnecting (this w) = false ->
  exec connect w
  = ({| this := set_isConnecting true (this w);
        heap := heap w
                ++ [ {| ws_type := Main; ws_attempt := List.length (attempts w);
                        readyState := CONNECTING; listening := false |};
                     {| ws_type := Transaction;
                        ws_attempt := List.length (attempts w);
                        readyState := CONNECTING; listening := false |} ];
        attempts := attempts w ++ [ {| main_promise := Pending;
                                       transaction_promise := Pending |} ];
        timers := timers w |},
     [NewWebSocket (List.length (heap w));
      NewWebSocket (S (List.length (heap w)))]).
Proof.
  intros Hnull Hidle. unfold connect. rewrite exec_world, Hnull, Hidle.
  unfold createSocket.
  cbv [exec mbind action_bind update world effect on_this set_heap
       set_attempts heap this attempts timers fst snd].
  cbn [app]. rewrite length_app, <- app_assoc. cbn [List.length app].
  by rewrite Nat.add_1_r.
Qed.

(** The task of a socket that opens stores the socket as the channel of
    its type, and leaves the other channel and the other sockets alone. *)
Lemma open_stores (id : nat) (w : World) (ws : WebSocket) :
  heap w !! id = Some ws -> readyState ws = CONNECTING ->
  let w' := (exec (step (SocketOpens id)) w).1 in
  channel_of (ws_type ws) (this w') = Some id
  /\ channel_of (other (ws_type ws)) (this w')
     = channel_of (other (ws_type ws)) (this w)
  /\ heap w' = alter (set_listening true) id
                 (alter (set_readyState OPEN) id (heap w))
  /\ reconnectAttempts (this w') = 0%nat.
Proof.
  intros Hws Hcon. cbn [step]. rewrite exec_world, Hws.
  rewrite bool_decide_eq_true_2 by done.
  unfold onopen. rewrite !exec_seq. cbn [fst].
  set (w1 := (exec (setupSocketListeners id) _).1).
  set (w2 := (exec (resolve (ws_type ws) (ws_attempt ws))
                (exec resubscribeToRooms w1).1).1).
  assert (Hw : wiring w2 = wiring w1).
  { subst w2. rewrite resolve_keeps_wiring. apply resubscribeToRooms_keeps. }
  assert (Hr : reconnectAttempts (this w2) = reconnectAttempts (this w1)).
  { assert (H : preserves (fun w0 => reconnectAttempts (this w0))
                  (resubscribeToRooms;;
                   resolve (ws_type ws) (ws_attempt ws))).
    { apply preserves_seq; [apply resubscribeToRooms_keeps|].
      unfold resolve. keeping. }
    specialize (H w1). cbn beta in H. by rewrite exec_seq in H. }
  pose proof (f_equal (fun x => x.1.1) Hw) as Hs.
  pose proof (f_equal (fun x => x.1.2) Hw) as Ht.
  pose proof (f_equal snd Hw) as Hh.
  cbn [wiring fst snd] in Hs, Ht, Hh.
  unfold channel_of. destruct (ws_type ws); cbn [other];
    rewrite ?Hs, ?Ht, Hh, Hr; by subst w1.
Qed.

(** [disconnect()] calls [close()] on the channel sockets only. *)
Lemma disconnect_closes_channels (w : World) (id : nat) :
  In (Close id) (exec disconnect w).2 ->
  socket (this w) = Some id \/ transactionSocket (this w) = Some id.
Proof.
  assert (E : (exec disconnect w).2
              = match socket (this w) with Some m => [Close m] | None => [] end
                ++ match transactionSocket (this w) with
                   | Some t => [Close t]
                   | None => []
                   end
                ++ (exec (emit "disconnected" (AScope "all")) w).2).
  { destruct w as [[s ts ? ? ? ? ? ? ? ? ?] ? ? ?].
    unfold disconnect. rewrite exec_world. cbn [this socket transactionSocket].
    by destruct s, ts. }
  rewrite E, !in_app_iff. intros [H|[H|H]].
  - destruct (socket (this w)); [|done]. destruct H as [[= ->]|[]]. by left.
  - destruct (transactionSocket (this w)); [|done].
    destruct H as [[= ->]|[]]. by right.
  - exfalso.
    destruct (yields_emit (fun _ => True) (fun e => negb (is_Close e))
                "disconnected" (AScope "all")
                ltac:(done) ltac:(done) w I) as [_ Hall].
    rewrite forallb_forall in Hall. by apply Hall in H.
Qed.

(** X16. A reconnection renews both channels. When one channel has no
    socket and no attempt is in flight, [connect()] constructs two sockets,
    one for each channel, although the other channel still has its socket.
    When the new socket of that other channel opens, it becomes the
    channel; the socket that was the channel until then is not closed and
    not changed: if it was open with its handlers installed, it stays so,
    out of reach of [disconnect()]. *)
Theorem reconnection_renews_both_channels (w : World) (type : SocketType)
    (old : nat) (ws : WebSocket) :
  channel_of type (this w) = Some old ->
  channel_of (other type) (this w) = None ->
  isConnecting (this w) = false ->
  heap w !! old = Some ws ->
  let n := List.length (heap w) in
  let new := match type with Main => n | Transaction => S n end in
  let connected := exec connect w in
  let opened := exec (step (SocketOpens new)) connected.1 in
  connected.2 = [NewWebSocket n; NewWebSocket (S n)]
  /\ channel_of type (this connected.1) = Some old
  /\ channel_of type (this opened.1) = Some new
  /\ new <> old
  /\ heap opened.1 !! old = Some ws
  /\ forallb (fun e => negb (is_Close e)) (connected.2 ++ opened.2) = true
  /\ channel_of type (this (exec disconnect opened.1).1) = None
  /\ ~ In (Close old) (exec disconnect opened.1).2.
Proof.
  intros Hold Hother Hidle Hws n new connected opened.
  assert (Hlt : (old < n)%nat) by (apply lookup_lt_is_Some; eauto).
  assert (Hnull : non_null (socket (this w))
                  && non_null (transactionSocket (this w)) = false).
  { destruct type; cbn [channel_of other] in *; rewrite Hother;
      by rewrite ?andb_false_r. }
  assert (Hc : connected = exec connect w) by done.
  rewrite (connect_constructs w Hnull Hidle) in Hc.
  set (sock := fun t => {| ws_type := t; ws_attempt := List.length (attempts w);
                           readyState := CONNECTING; listening := false |}).
  assert (Hnew : heap connected.1 !! new = Some (sock type)).
  { rewrite Hc. cbn [fst heap]. subst new n. destruct type.
    - by rewrite lookup_app_r, Nat.sub_diag by lia.
    - rewrite lookup_app_r by lia.
      by replace (S (List.length (heap w)) - List.length (heap w))%nat
        with 1%nat by lia. }
  destruct (open_stores new connected.1 (sock type) Hnew eq_refl)
    as (Hstored & Hkept & Hheap & _).
  fold opened in Hstored, Hkept, Hheap. cbn [sock ws_type] in *.
  assert (Hne : new <> old) by (subst new; destruct type; lia).
  assert (Hstill : heap opened.1 !! old = Some ws).
  { rewrite Hheap, !list_lookup_alter_ne by done.
    rewrite Hc. cbn [fst heap]. by rewrite lookup_app_l. }
  split; [by rewrite Hc|]. split.
  { rewrite Hc. cbn [fst this]. by destruct type. }
  split; [done|]. split; [done|]. split; [done|]. split.
  { rewrite forallb_app. apply andb_true_iff. split.
    - by rewrite Hc.
    - by apply (step_never_closes (SocketOpens new) eq_refl connected.1). }
  destruct (disconnect_exec opened.1) as (heap' & closes & E & _ & _).
  split.
  { rewrite E. cbn [fst this]. by destruct type. }
  intros Hin. apply disconnect_closes_channels in Hin.
  assert (Hoth : channel_of (other type) (this opened.1) = None).
  { rewrite Hkept, Hc. cbn [fst this]. destruct type; exact Hother. }
  destruct type; cbn [channel_of other] in *;
    destruct Hin as [Hin|Hin]; congruence.
Qed.

Lemma reconnection_renews_both_channels_witness :
  let w := (exec (step (SocketCloses 0 (1 # 2))) idle).1 in
  let connected := exec connect w in
  let opened := exec (step (SocketOpens 3)) connected.1 in
  connected.2 = [NewWebSocket 2; NewWebSocket 3]
  /\ transactionSocket (this opened.1) = Some 3%nat
  /\ heap opened.1 !! 1%nat
     = Some {| ws_type := Transaction; ws_attempt := 0; readyState := OPEN;
               listening := true |}.
Proof.
  intros w connected opened.
  destruct (reconnection_renews_both_channels w Transaction 1
              {| ws_type := Transaction; ws_attempt := 0; readyState := OPEN;
                 listening := true |})
    as (H1 & _ & H3 & _ & H5 & _); try reflexivity.
  by repeat split.
Defined.

Lemma exec_onclose (type : SocketType) (rnd : Q) (w : World) :
  let w2 := on_this (match type with
                     | Main => set_socket None
                     | Transaction => set_transactionSocket None
                     end) w in
  exec (onclose type rnd) w
  = ((if autoReconnect (this w) then (exec (reconnect rnd) w2).1 else w2),
     (exec (emit "disconnected" (AScope (type_name type))) w).2
     ++ (if autoReconnect (this w) then (exec (reconnect rnd) w2).2 else [])).
Proof.
  cbn zeta. unfold onclose, store. rewrite !exec_seq, exec_update.
  cbn [fst snd app]. rewrite exec_world.
  change (exec (emit "disconnected" (AScope (type_name type))) w).1 with w.
  by destruct type;
    cbn [this on_this autoReconnect set_socket set_transactionSocket];
    destruct (autoReconnect (this w)).
Qed.

Lemma exec_reconnect (rnd : Q) (w : World) :
  autoReconnect (this w) = true ->
  exec (reconnect rnd) w
  = (set_timers (timers w ++ [reconnect_wait (this w) rnd]) w,
     (exec (emit "reconnecting" (AAttempts (reconnectAttempts (this w)))) w).2
     ++ [SetTimeout (reconnect_wait (this w) rnd)]).
Proof. intros H. unfold reconnect. by rewrite exec_world, H. Qed.

(** X17. The close event of a socket clears the channel of its type,
    whichever socket the channel holds. For every socket that has its
    handlers and is not yet closed, its close event emits "disconnected"
    with the type of the socket and sets the channel of that type to null,
    so that [isConnected()] is false afterwards, and leaves the other
    channel alone; with auto-reconnect it schedules a reconnection. This
    includes the late close event of a socket that [disconnect()] closed
    after a new connection has been made: the new connection then counts
    as lost although its sockets are open. *)
Theorem close_event_clears_the_channel (w : World) (id : nat) (rnd : Q)
    (ws : WebSocket) :
  heap w !! id = Some ws -> listening ws = true -> readyState ws <> CLOSED ->
  let after := exec (step (SocketCloses id rnd)) w in
  channel_of (ws_type ws) (this after.1) = None
  /\ channel_of (other (ws_type ws)) (this after.1)
     = channel_of (other (ws_type ws)) (this w)
  /\ isConnected after.1 = false
  /\ In (Emit "disconnected" (AScope (type_name (ws_type ws)))) after.2
  /\ (autoReconnect (this w) = true ->
      timers after.1 = timers w ++ [reconnect_wait (this w) rnd]
      /\ In (SetTimeout (reconnect_wait (this w) rnd)) after.2)
  /\ (forall other_id, other_id <> id ->
        heap after.1 !! other_id = heap w !! other_id).
Proof.
  intros Hws Hl Hst after.
  set (w1 := set_heap (alter (set_readyState CLOSED) id (heap w)) w).
  set (w2 := on_this (match ws_type ws with
                      | Main => set_socket None
                      | Transaction => set_transactionSocket None
                      end) w1).
  assert (E : after
              = ((if autoReconnect (this w) then (exec (reconnect rnd) w2).1
                  else w2),
                 (exec (emit "disconnected" (AScope (type_name (ws_type ws))))
                    w1).2
                 ++ (if autoReconnect (this w) then (exec (reconnect rnd) w2).2
                     else []))).
  { subst after. cbn [step]. rewrite exec_world, Hws, Hl.
    rewrite bool_decide_eq_false_2 by done.
    rewrite exec_seq. unfold on_socket. rewrite exec_update.
    cbn [fst snd app]. fold w1. by rewrite exec_onclose. }
  rewrite E. clear E after.
  assert (Hc : channel_of (ws_type ws) (this w2) = None)
    by (subst w2; by destruct (ws_type ws)).
  assert (Hk : channel_of (other (ws_type ws)) (this w2)
               = channel_of (other (ws_type ws)) (this w))
    by (subst w2; by destruct (ws_type ws)).
  assert (Hh : forall other_id, other_id <> id ->
                 heap w2 !! other_id = heap w !! other_id).
  { intros other_id Hne. subst w2 w1. cbn [heap on_this set_heap].
    by rewrite list_lookup_alter_ne. }
  assert (Hn : isConnected w2 = false).
  { rewrite isConnected_both.
    destruct (ws_type ws); cbn [channel_of] in Hc; rewrite Hc; cbn [is_open];
      [done | apply andb_false_r]. }
  assert (Ha : autoReconnect (this w2) = autoReconnect (this w))
    by (subst w2; by destruct (ws_type ws)).
  assert (Hwait : reconnect_wait (this w2) rnd = reconnect_wait (this w) rnd)
    by (subst w2; by destruct (ws_type ws)).
  assert (Ht : timers w2 = timers w) by done.
  destruct (autoReconnect (this w)) eqn:Hauto.
  - rewrite exec_reconnect by exact Ha. cbn [fst snd]. rewrite Hwait.
    split; [done|]. split; [done|]. split; [done|].
    split; [apply in_or_app; left; rewrite exec_emit; by left|].
    split; [|done]. intros _. split; [by rewrite <- Ht|].
    apply in_or_app. right. apply in_or_app. right. by left.
  - cbn [fst snd]. split; [done|]. split; [done|]. split; [done|].
    split; [apply in_or_app; left; rewrite exec_emit; by left|].
    split; [done|done].
Qed.

Lemma close_event_clears_the_channel_witness :
  isConnected renewed = true
  /\ socket (this renewed) = Some 2%nat
  /\ socket (this (exec (step (SocketCloses 0 (1 # 2))) renewed).1) = None
  /\ isConnected (exec (step (SocketCloses 0 (1 # 2))) renewed).1 = false
  /\ is_open (exec (step (SocketCloses 0 (1 # 2))) renewed).1 (Some 2%nat)
     = true.
Proof.
  destruct (close_event_clears_the_channel renewed 0 (1 # 2)
              {| ws_type := Main; ws_attempt := 0; readyState := CLOSING;
                 listening := true |})
    as (H1 & _ & H3 & _); [reflexivity | reflexivity | discriminate |].
  split; [reflexivity|]. split; [reflexivity|]. split; [exact H1|].
  split; [exact H3|]. vm_compute. reflexivity.
Defined.

(** *** Frames without a payload *)

(** X18. A frame on a price room without a payload is reported as an
    error and not delivered. For a frame of type "message" on a room that
    contains "price:" whose payload is null or missing, the handler leaves
    the object as it is (the dedup set included), emits "error" with an
    error and nothing else, and calls no listener with a payload: the only
    listeners called are those of "error", with the error. *)
Theorem price_frame_without_payload_is_an_error (w : World)
    (message : Message) :
  String.eqb (msg_type message) "message" = true ->
  includes "price:" (msg_room message) = true ->
  msg_data message = None \/ msg_data message = Some JNull ->
  let after := exec (onmessage message) w in
  after.1 = w
  /\ after.2
     = Emit "error" AError
       :: ((fun l => Invoke (callback l) AError)
             <$> listeners_of (this w) "error")
  /\ (forall (key : string) (arg : Arg),
         In (Emit key arg) after.2 -> key = "error" /\ arg = AError)
  /\ (forall (cb : nat) (arg : Arg),
         In (Invoke cb arg) after.2 ->
         arg = AError
         /\ exists l : Listener,
              In l (listeners_of (this w) "error") /\ callback l = cb).
Proof.
  intros Hm Hroom Hdata after.
  assert (E : after = (w, Emit "error" AError
                          :: ((fun l => Invoke (callback l) AError)
                                <$> listeners_of (this w) "error"))).
  { subst after.
    assert (Ht : truthy (tx_of message) = false)
      by (unfold tx_of; by destruct Hdata as [-> | ->]).
    assert (Hr : routed message w = (exec (emit "error" AError) w).2).
    { unfold routed. rewrite Hroom. by destruct Hdata as [-> | ->]. }
    rewrite onmessage_plain, Hr, exec_emit by done. cbn [snd]. f_equal.
    f_equal. induction (listeners_of (this w) "error") as [|l ls IH];
      [done|].
    rewrite !fmap_cons. cbn [concat]. rewrite IH.
    unfold call_listener. by destruct (wrapped l). }
  rewrite E. cbn [fst snd]. split; [done|]. split; [done|]. split.
  - intros key arg [[= <- <-]|Hin]; [done|].
    apply in_map_iff in Hin as (l & Hl & _). discriminate Hl.
  - intros cb arg [Hin|Hin]; [discriminate Hin|].
    apply in_map_iff in Hin as (l & [= <- <-] & Hl). split; [done|].
    by exists l.
Qed.

Lemma price_frame_without_payload_is_an_error_witness :
  exec (onmessage (inbound "price:T" (Some JNull))) live
  = (live, [Emit "error" AError; Invoke 7 AError]).
Proof.
  destruct (price_frame_without_payload_is_an_error live
              (inbound "price:T" (Some JNull)))
    as (Hw & He & _).
  - reflexivity.
  - reflexivity.
  - by right.
  - rewrite (surjective_pairing (exec _ live)), Hw, He. reflexivity.
Defined.

(** *** The two transports *)

(** X19. The worker transport delivers as the in-process transport
    does. For a payload that the worker forwards with its room,
    [handleWorkerMessage] changes the dedup set and emits exactly as the
    [onmessage] handler of a socket does for the frame of type "message"
    with that room and payload, and returns normally; the exception is a
    null or missing payload on a room that contains "price:", where
    [onmessage] emits "error" and [handleWorkerMessage] throws a TypeError
    that nothing catches, without any effect. *)
Theorem worker_handler_agrees_with_socket_handler (w : World)
    (room : string) (data : value) :
  let forwarded := handleWorkerMessage room data w in
  let direct := exec (onmessage (inbound room data)) w in
  (includes "price:" room = false
   \/ (data <> None /\ data <> Some JNull) ->
   forwarded = (Normal tt, direct.1, direct.2))
  /\ (includes "price:" room = true ->
      data = None \/ data = Some JNull ->
      forwarded = (Throw TypeError, w, [])
      /\ direct = exec (emit "error" AError) w).
Proof.
  cbn zeta.
  assert (Hw : handleWorkerMessage room data w
               = (let tx := opt_prop data "tx" in
                  if truthy tx
                     && JsSet.has same_value_zero (transactions (this w)) tx
                  then mret (Normal tt)
                  else
                    (if truthy tx then
                       update (on_this (set_transactions
                                  (JsSet.add same_value_zero
                                     (transactions (this w)) tx)))
                     else skip);;
                    if includes "price:" room then
                      match get_prop data "token" with
                      | Normal token =>
                          emit ("price-by-token:" +:+ to_string token)
                            (APayload data);;
                          emit room (APayload data);;
                          mret (Normal tt)
                      | Throw e => mret (Throw e)
                      end
                    else emit room (APayload data);; mret (Normal tt)) w).
  { unfold handleWorkerMessage.
    match goal with |- (world ≫= ?k) w = _ =>
      change ((world ≫= k) w)
        with (((k w w).1.1, (k w w).1.2, [] ++ (k w w).2)) end.
    cbn [app]. by destruct (_ w) as [[? ?] ?]. }
  rewrite Hw. clear Hw.
  unfold onmessage, inbound.
  cbn [msg_type msg_room msg_data]. cbn zeta.
  change (String.eqb "message" "message") with true. cbn iota.
  rewrite exec_world.
  split.
  - intros Hok.
    destruct (truthy (opt_prop data "tx")
              && JsSet.has same_value_zero (transactions (this w))
                   (opt_prop data "tx")); [reflexivity|].
    destruct (includes "price:" room) eqn:Hroom.
    + destruct Hok as [Hok|[H1 H2]]; [done|].
      destruct data as [[| | | | |]|]; try done;
        destruct (truthy _);
        cbv [exec mbind action_bind mret action_ret update skip emit effects
             world fst snd get_prop];
        cbn [app]; by rewrite ?app_nil_r.
    + destruct (truthy _);
        cbv [exec mbind action_bind mret action_ret update skip emit effects
             world fst snd];
        cbn [app]; by rewrite ?app_nil_r.
  - intros Hroom Hdata. rewrite Hroom.
    by destruct Hdata as [-> | ->].
Qed.

Lemma worker_handler_agrees_with_socket_handler_witness :
  handleWorkerMessage "price:T" (price_update "T" (JStr "a")) live
  = (Normal tt,
     (exec (onmessage (inbound "price:T" (price_update "T" (JStr "a")))) live).1,
     (exec (onmessage (inbound "price:T" (price_update "T" (JStr "a")))) live).2).
Proof.
  apply (proj1 (worker_handler_agrees_with_socket_handler live "price:T"
                  (price_update "T" (JStr "a")))).
  right. split; discriminate.
Defined.

(** *** Listeners *)

Lemma listeners_of_snoc (d : Datastream) (event other : string) (l : Listener) :
  listeners_of (set_listeners (listeners d ++ [(event, l)]) d) other
  = listeners_of d other ++ (if decide (event = other) then [l] else []).
Proof.
  unfold listeners_of. cbn [listeners set_listeners].
  rewrite filter_app, fmap_app. f_equal.
  rewrite filter_cons. cbn [fst].
  by destruct (decide (event = other)).
Qed.

Lemma delete_last {A : Type} (l : list A) (x : A) :
  delete (List.length l) (l ++ [x]) = l.
Proof. induction l as [|y l IH]; [done|]. simpl. by f_equal. Qed.

(** X20. Registering and removing a listener. After [on(event, l)]
    an emit of [event] calls the listeners that were registered and then
    [l]; emits of other events are as before; removing that registration
    (what the [unsubscribe] of the object returned by the [on] of a
    subscription does) puts the object back as it was. Removing a listener
    never sends a frame and leaves the tracked rooms as they are: the room
    stays joined. *)
Theorem listener_registration_round_trip (w : World) (event : string)
    (l : Listener) (arg : Arg) :
  let w1 := (exec (on event l) w).1 in
  (exec (emit event arg) w1).2
  = (exec (emit event arg) w).2 ++ call_listener arg l
  /\ (forall other : string,
         other <> event ->
         (exec (emit other arg) w1).2 = (exec (emit other arg) w).2)
  /\ exec (removeListener (List.length (listeners (this w)))) w1 = (w, [])
  /\ (forall k : nat,
         (exec (removeListener k) w1).2 = []
         /\ rooms_of (exec (removeListener k) w1).1 = rooms_of w).
Proof.
  cbn zeta.
  assert (E : (exec (on event l) w).1
              = on_this (set_listeners (listeners (this w) ++ [(event, l)])) w)
    by done.
  rewrite E. split; [|split; [|split]].
  - rewrite !exec_emit. cbn [snd this on_this].
    rewrite listeners_of_snoc. rewrite decide_True by done.
    rewrite fmap_app, concat_app. cbn [fmap list_fmap concat].
    by rewrite app_nil_r.
  - intros other Hne. rewrite !exec_emit. cbn [snd this on_this].
    rewrite listeners_of_snoc. rewrite decide_False by done.
    by rewrite app_nil_r.
  - destruct w as [[s ts n rd rm rf rooms seen ar ic ls] hp ats tms].
    unfold removeListener, exec, update, on_this, set_listeners.
    cbn [fst snd this listeners heap attempts timers socket transactionSocket
         reconnectAttempts reconnectDelay reconnectDelayMax
         randomizationFactor subscribedRooms transactions autoReconnect
         isConnecting].
    by rewrite delete_last.
  - intros k. by split.
Qed.

Lemma listener_registration_round_trip_witness :
  (exec (emit "latest" (APayload (Some JNull)))
     (exec (on "latest" listener7) idle).1).2
  = [Emit "latest" (APayload (Some JNull)); Invoke 7 (APayload (Some JNull))].
Proof.
  rewrite (proj1 (listener_registration_round_trip idle "latest" listener7
                    (APayload (Some JNull)))).
  reflexivity.
Defined.

(** *** The delay of reconnections *)




(** *** The channel of a subscription *)

Lemma prefix_sep (n x b : string) :
  (forall k, In k (list_ascii_of_string n) -> k <> ":"%char) ->
  String.prefix n (x +:+ String ":" b) = String.prefix n x.
Proof.
  revert n. induction x as [|c x IH]; intros n Hn.
  - change ("" +:+ String ":" b) with (String ":" b).
    destruct n as [|k n]; [reflexivity|]. cbn [String.prefix].
    destruct (ascii_dec k ":") as [->|]; [|reflexivity].
    exfalso. by apply (Hn ":"%char); [left|].
  - change (String c x +:+ String ":" b) with (String c (x +:+ String ":" b)).
    destruct n as [|k n]; [reflexivity|]. cbn [String.prefix].
    destruct (ascii_dec k c); [|reflexivity].
    apply IH. intros k' Hk'. apply Hn. by right.
Qed.

(** A needle without ":" lies on one side of a ":". *)
Lemma includes_sep (n a b : string) :
  (forall k, In k (list_ascii_of_string n) -> k <> ":"%char) -> n <> "" ->
  includes n (a +:+ String ":" b) = includes n a || includes n b.
Proof.
  intros Hn Hne. induction a as [|c a IH].
  - change ("" +:+ String ":" b) with (String ":" b).
    destruct n as [|k n]; [done|]. cbn [includes String.prefix orb].
    destruct (ascii_dec k ":") as [->|]; [|reflexivity].
    exfalso. by apply (Hn ":"%char); [left|].
  - change (String c a +:+ String ":" b) with (String c (a +:+ String ":" b)).
    cbn [includes]. rewrite IH.
    change (String c (a +:+ String ":" b))
      with (String c a +:+ String ":" b).
    rewrite prefix_sep by done. by rewrite orb_assoc.
Qed.

Lemma transaction_sep (a b : string) :
  includes "transaction" (a +:+ String ":" b)
  = includes "transaction" a || includes "transaction" b.
Proof.
  apply includes_sep; [|done].
  intros k Hk. cbn in Hk.
  repeat (destruct Hk as [<-|Hk]; [done|]). destruct Hk.
Qed.

Lemma transaction_digits (n : Z) : includes "transaction" (Z_to_string n) = false.
Proof.
  assert (H : forall u, includes "transaction" (NilEmpty.string_of_uint u)
                        = false)
    by (induction u; cbn; done).
  unfold Z_to_string, NilZero.string_of_int, NilZero.string_of_uint.
  destruct (Z.to_int n) as [u|u]; [|cbn [includes]];
    destruct u; try done; cbn; apply H.
Qed.

(** A room that starts with a literal prefix ending in ":". *)
Lemma transaction_prefix (p q t : string) :
  p = q +:+ ":" -> includes "transaction" q = false ->
  includes "transaction" (p +:+ t) = includes "transaction" t.
Proof.
  intros -> Hq.
  assert (E : forall a b c : string, (a +:+ b) +:+ c = a +:+ (b +:+ c)).
  { induction a as [|k a IH]; intros b c; [reflexivity|].
    change (String k a +:+ b) with (String k (a +:+ b)).
    change (String k (a +:+ b) +:+ c) with (String k ((a +:+ b) +:+ c)).
    by rewrite IH. }
  rewrite E. change (":" +:+ t) with (String ":" t).
  by rewrite transaction_sep, Hq.
Qed.

(** X22. Which socket a subscription uses. Of the methods of
    [subscribe], [tx.token] and [tx.pool] build a room that contains
    "transaction" and so use the transaction socket, whatever their
    arguments. Every other method, [tx.wallet] for the transactions of a
    wallet included, uses the main socket for each room it subscribes to,
    as long as no argument contains "transaction". *)
Theorem subscription_methods_choose_the_channel (m : Method)
    (l : list string) (room : string) (d : Datastream) :
  rooms m = Some l -> room ∈ l ->
  match m with
  | TxToken _ | TxPool _ _ => channel d room = transactionSocket d
  | _ =>
      Forall (fun a => includes "transaction" a = false) (arguments m) ->
      channel d room = socket d
  end.
Proof.
  intros Hrooms Hroom. unfold channel.
  destruct m; cbn [rooms arguments] in *;
    try (destruct (_ || _); [discriminate Hrooms|]);
    injection Hrooms as <-;
    repeat (apply elem_of_cons in Hroom as [->|Hroom]);
    try (by apply elem_of_nil in Hroom);
    try reflexivity;
    intros Hargs;
    repeat match goal with
      | H : Forall _ (_ :: _) |- _ => apply Forall_cons in H as [? H]
      end;
    try (destruct marketCapThresholdSOL as [n|]; [destruct (n =? 0)|]);
    try reflexivity;
    repeat match goal with
      | |- context [String.append ?p ?t] =>
          rewrite (transaction_prefix p (but_last p) t) by reflexivity
      | |- context [String.append ?a (String ":" ?b)] =>
          rewrite (transaction_sep a b)
      | |- context [String.append ?a (String.append (String ":" ?s) ?t)] =>
          change (a +:+ (String ":" s +:+ t))
            with (a +:+ String ":" (s +:+ t))
      | |- context [String.append EmptyString ?t] =>
          change ("" +:+ t) with t
      end;
    repeat match goal with
      | H : includes "transaction" _ = false |- _ => rewrite H; clear H
      end;
    rewrite ?transaction_digits; reflexivity.
Qed.

Lemma subscription_methods_choose_the_channel_witness :
  rooms (TxWallet "W") = Some ["wallet:W"]
  /\ "wallet:W" ∈ ["wallet:W"]
  /\ channel (this renewed) "wallet:W" = socket (this renewed).
Proof.
  split; [reflexivity|]. split; [by left|].
  apply (subscription_methods_choose_the_channel
           (TxWallet "W") ["wallet:W"] "wallet:W" (this renewed)).
  - reflexivity.
  - by left.
  - by repeat constructor.
Defined.

(** *** The sockets that the object holds *)

Lemma wired_kept (g : World -> World) :
  (forall w, heap (g w) = heap w) ->
  (forall w type, channel_of type (this (g w)) = channel_of type (this w)
                  \/ channel_of type (this (g w)) = None) ->
  forall w, all_wired w -> all_wired (g w).
Proof.
  intros Hh Hc w Hw type id Hid. unfold wired. rewrite Hh.
  destruct (Hc w type) as [E|E]; rewrite E in Hid; [|done].
  by apply Hw.
Qed.

Lemma wired_alter (f : WebSocket -> WebSocket) (id : nat) (w : World) :
  (forall ws, ws_type (f ws) = ws_type ws
              /\ (listening ws = true -> listening (f ws) = true)
              /\ (readyState ws <> CONNECTING -> readyState (f ws) <> CONNECTING)) ->
  all_wired w -> all_wired (set_heap (alter f id (heap w)) w).
Proof.
  intros Hf Hw type id' Hid. destruct (Hw type id' Hid) as (ws & Hws & Ht & Hl & Hr).
  unfold wired. cbn [heap set_heap].
  destruct (Hf ws) as (H1 & H2 & H3).
  exists (if decide (id = id') then f ws else ws).
  rewrite list_lookup_alter.
  destruct (decide (id = id')) as [->|]; rewrite Hws;
    (split; [reflexivity|]);
    (split; [congruence|]); split; auto.
Qed.

Lemma wired_connect (w : World) :
  all_wired w -> all_wired (exec connect w).1.
Proof.
  intros Hw.
  destruct (non_null (socket (this w)) && non_null (transactionSocket (this w)))
    eqn:Hnull.
  { unfold connect. by rewrite exec_world, Hnull. }
  destruct (isConnecting (this w)) eqn:Hidle.
  { unfold connect. by rewrite exec_world, Hnull, Hidle. }
  rewrite (connect_constructs w Hnull Hidle). cbn [fst].
  intros type id Hid.
  destruct (Hw type id) as (ws & Hws & H).
  { by destruct type. }
  exists ws. split; [|done]. cbn [heap]. by apply lookup_app_l_Some.
Qed.

Lemma wired_step (e : Event) (w : World) :
  all_wired w -> all_wired (exec (step e) w).1.
Proof.
  intros Hw.
  assert (Hc : yields all_wired (fun _ => true) connect).
  { intros w0 H0. split; [by apply wired_connect|].
    apply forallb_forall. done. }
  destruct e.
  7: { destruct (heap w !! id) as [ws|] eqn:Hws;
         [|by cbn [step]; rewrite exec_world, Hws].
       destruct (bool_decide (readyState ws = CONNECTING)) eqn:Hcon;
         [|by cbn [step]; rewrite exec_world, Hws, Hcon].
       apply bool_decide_eq_true in Hcon.
       destruct (open_stores id w ws Hws Hcon) as (Hs & Ho & Hh & _).
       intros type id' Hid. unfold wired. rewrite Hh.
       destruct (decide (type = ws_type ws)) as [->|Hne].
       - rewrite Hs in Hid. injection Hid as <-.
         exists (set_listening true (set_readyState OPEN ws)).
         rewrite !list_lookup_alter, !decide_True, Hws by done.
         by repeat split.
       - assert (type = other (ws_type ws)) as ->
           by (destruct type, (ws_type ws); done).
         rewrite Ho in Hid.
         destruct (Hw _ _ Hid) as (ws' & Hws' & Ht & Hl & Hr).
         destruct (decide (id = id')) as [->|Hne'].
         + rewrite Hws in Hws'. injection Hws' as ->.
           exists (set_listening true (set_readyState OPEN ws')).
           rewrite !list_lookup_alter, !decide_True, Hws by done.
           by repeat split.
         + exists ws'. by rewrite !list_lookup_alter, !decide_False by done. }
  all: cbn [step];
    match goal with
    | H0 : all_wired ?w0 |- all_wired (exec ?a ?w0).1 =>
        cut (yields all_wired (fun _ => true) a);
        [intros H; exact (proj1 (H w0 H0))|]
    end.
  all: unfold _subscribe, unsubscribe, disconnect, onerror, onclose,
         onmessage, timer_callback, reject, reconnect, store, close,
         on_socket, on, removeListener.
  all: yielding
         ltac:(first
           [ apply wired_kept;
             [ intros; reflexivity
             | intros ? [];
               first [ left; reflexivity | right; reflexivity
                     | match goal with
                       | |- context [match ?t with Main => _ | Transaction => _ end] =>
                           destruct t; first [left; reflexivity | right; reflexivity]
                       end ] ]
           | intros ? ?; apply wired_alter; [|assumption];
             intros ?; repeat split; try done;
             cbn; try (case_bool_decide; cbn; congruence) ])
         ltac:(exact Hc).
Qed.

Lemma wired_run (events : list Event) (w : World) :
  all_wired w -> all_wired (exec (run events) w).1.
Proof.
  revert w. induction events as [|e events IH]; intros w Hw; [done|].
  cbn [run]. rewrite exec_seq. cbn [fst]. by apply IH, wired_step.
Qed.

(** X23. The sockets that the object holds. Whatever the tasks that
    have run on a new object, a channel field that is not null names a
    socket that was constructed for that channel, that has opened (it is
    no longer connecting) and that has the handlers of
    [setupSocketListeners]; so the two channels never name the same
    socket. *)
Theorem channels_hold_wired_sockets (w : World) :
  reachable w ->
  (forall type id, channel_of type (this w) = Some id -> wired type w id)
  /\ (forall m t, socket (this w) = Some m ->
                  transactionSocket (this w) = Some t -> m <> t).
Proof.
  intros (config & events & <-).
  assert (H : all_wired (exec (run events) (new_Datastream config)).1).
  { apply wired_run. by intros []. }
  split; [exact H|]. intros m t Hm Ht ->.
  destruct (H Main t Hm) as (ws & Hws & Hty & _).
  destruct (H Transaction t Ht) as (ws' & Hws' & Hty' & _).
  congruence.
Qed.

Lemma channels_hold_wired_sockets_witness :
  reachable renewed
  /\ wired Main renewed 2%nat /\ wired Transaction renewed 3%nat.
Proof.
  split; [apply (after_reachable renewed_tasks)|].
  destruct (channels_hold_wired_sockets renewed
              (after_reachable renewed_tasks)) as [H _].
  split; [apply (H Main) | apply (H Transaction)]; reflexivity.
Defined.

End TransportProperties.
